(** * WebDAV protocol jobs of the sync client: a shallow embedding

    This development embeds the decoding logic of [src/libsync/networkjobs.cpp]
    and states the properties of its specification about it.

    Conventions of the embedding.
    - [QString] and [QByteArray] are both [string]: a sequence of 8-bit
      characters holding UTF-8 text, so [toUtf8] and [fromUtf8] are the
      identity.
    - A [QXmlStreamReader] is a cursor over the sequence of tokens the Qt
      tokenizer yields for the document ([Xml.reader]); the body of a reply
      that a job reads is this sequence of tokens.  [Xml.tokenize] gives
      the tokens of a text for a subset of XML and answers nothing for a
      text outside it.
    - [QMap<QString, QString>], [QVariantMap] and [QHash<QString, qint64>]
      that are only written through [insert] are [gmap]s; the [QMap] that
      [ProppatchJob::start] iterates over is the list of its entries in
      iteration order.
    - Signals are values appended to an event list, in emission order. *)

From Stdlib Require Import String Ascii List ZArith Lia Bool.
From stdpp Require Import gmap strings.
Import ListNotations.

Open Scope string_scope.

#[local] Arguments String.append !s1 s2 : simpl nomatch.

(** ** Qt string operations *)

Module QStr.

(** The double-quote character, [QLatin1Char(34)]. *)
Definition dq : string := String (ascii_of_nat 34) EmptyString.

Definition isEmpty (s : string) : bool :=
  match s with
  | EmptyString => true
  | String _ _ => false
  end.

(** [s.startsWith(p)] *)
Fixpoint startsWith (s p : string) : bool :=
  match p, s with
  | EmptyString, _ => true
  | String _ _, EmptyString => false
  | String a p', String b s' => Ascii.eqb a b && startsWith s' p'
  end.

(** [s.startsWith(c)] and [s.endsWith(c)] for a single character. *)
Definition startsWithChar (s : string) (c : ascii) : bool :=
  match s with
  | EmptyString => false
  | String a _ => Ascii.eqb a c
  end.

Fixpoint endsWithChar (s : string) (c : ascii) : bool :=
  match s with
  | EmptyString => false
  | String a EmptyString => Ascii.eqb a c
  | String _ s' => endsWithChar s' c
  end.

(** [s.mid(pos)] and [s.mid(pos, len)] for non-negative arguments;
    [s.left(len)]. *)
Fixpoint midFrom (pos : nat) (s : string) : string :=
  match pos, s with
  | O, _ => s
  | S _, EmptyString => EmptyString
  | S k, String _ s' => midFrom k s'
  end.

Fixpoint left (len : nat) (s : string) : string :=
  match len, s with
  | O, _ => EmptyString
  | S _, EmptyString => EmptyString
  | S k, String c s' => String c (left k s')
  end.

Definition mid (pos len : nat) (s : string) : string :=
  left len (midFrom pos s).

(** [s.chop(1)] *)
Fixpoint chop1 (s : string) : string :=
  match s with
  | EmptyString => EmptyString
  | String _ EmptyString => EmptyString
  | String c s' => String c (chop1 s')
  end.

(** [s.contains(sub)] *)
Fixpoint contains (s sub : string) : bool :=
  match s with
  | EmptyString => isEmpty sub
  | String _ s' => startsWith s sub || contains s' sub
  end.

(** [s.replace(before, after)] for a non-empty [before]: every occurrence,
    leftmost first, occurrences not overlapping.  [skip] counts the
    characters of the occurrence just replaced that are still to be
    dropped. *)
Fixpoint replaceGo (before after : string) (skip : nat) (s : string) : string :=
  match s with
  | EmptyString => EmptyString
  | String c s' =>
      match skip with
      | S k => replaceGo before after k s'
      | O =>
          if startsWith s before
          then after ++ replaceGo before after (String.length before - 1) s'
          else String c (replaceGo before after 0 s')
      end
  end.

Definition replace (before after s : string) : string :=
  replaceGo before after 0 s.

(** [QByteArray::toLower]: the letters A to Z are lowered. *)
Definition lowerChar (c : ascii) : ascii :=
  let n := nat_of_ascii c in
  if (65 <=? n)%nat && (n <=? 90)%nat then ascii_of_nat (n + 32) else c.

Fixpoint toLower (s : string) : string :=
  match s with
  | EmptyString => EmptyString
  | String c s' => String (lowerChar c) (toLower s')
  end.

(** [s.lastIndexOf(c)], [None] for -1. *)
Fixpoint lastIndexOfChar (c : ascii) (s : string) : option nat :=
  match s with
  | EmptyString => None
  | String a s' =>
      match lastIndexOfChar c s' with
      | Some i => Some (S i)
      | None => if Ascii.eqb a c then Some 0%nat else None
      end
  end.

Definition containsChar (s : string) (c : ascii) : bool :=
  match lastIndexOfChar c s with
  | Some _ => true
  | None => false
  end.

(** [QByteArray::fromPercentEncoding]: a percent sign followed by at least two
    more characters is replaced by the byte those two characters spell; a
    character that is no hexadecimal digit keeps its own code, as in Qt. *)
Definition hexNibble (c : ascii) : N :=
  let n := N_of_ascii c in
  if (48 <=? n)%N && (n <=? 57)%N then (n - 48)%N
  else if (97 <=? n)%N && (n <=? 102)%N then (n - 97 + 10)%N
  else if (65 <=? n)%N && (n <=? 70)%N then (n - 65 + 10)%N
  else n.

Definition percentByte (a b : ascii) : ascii :=
  ascii_of_N (N.lor (N.shiftl (hexNibble a) 4) (hexNibble b) mod 256).

Fixpoint fromPercentEncoding (s : string) : string :=
  match s with
  | EmptyString => EmptyString
  | String c t =>
      match t with
      | String a (String b s') =>
          if Ascii.eqb c "%"
          then String (percentByte a b) (fromPercentEncoding s')
          else String c (fromPercentEncoding t)
      | _ => String c (fromPercentEncoding t)
      end
  end.

(** [QString::toLongLong(&ok)] in base 10: surrounding white space is
    ignored, a sign is optional, at least one digit is required and the value
    has to fit 64 bits.  [None] stands for [ok == false]. *)
Definition isSpace (c : ascii) : bool :=
  let n := nat_of_ascii c in
  (n =? 32)%nat || ((9 <=? n)%nat && (n <=? 13)%nat).

Definition isDigit (c : ascii) : bool :=
  let n := nat_of_ascii c in (48 <=? n)%nat && (n <=? 57)%nat.

Fixpoint skipSpace (s : string) : string :=
  match s with
  | EmptyString => EmptyString
  | String c s' => if isSpace c then skipSpace s' else s
  end.

(** The digits of [s] up to trailing white space; [seen] tells whether a
    digit was read already. *)
Fixpoint digitsValue (seen : bool) (acc : Z) (s : string) : option Z :=
  match s with
  | EmptyString => if seen then Some acc else None
  | String c s' =>
      if isDigit c
      then digitsValue true (10 * acc + Z.of_nat (nat_of_ascii c - 48))%Z s'
      else if seen && isSpace c && isEmpty (skipSpace s') then Some acc
      else None
  end.

Definition toLongLong (s : string) : option Z :=
  let s := skipSpace s in
  let signed :=
    match s with
    | String c s' =>
        if Ascii.eqb c "-" then option_map Z.opp (digitsValue false 0%Z s')
        else if Ascii.eqb c "+" then digitsValue false 0%Z s'
        else digitsValue false 0%Z s
    | EmptyString => None
    end in
  match signed with
  | Some v =>
      if ((- 2 ^ 63 <=? v) && (v <? 2 ^ 63))%Z then Some v else None
  | None => None
  end.

End QStr.

(** Every character of a text satisfies [p]. *)
Definition forallChars (p : ascii -> bool) : string -> bool :=
  fix go (s : string) : bool :=
    match s with
    | EmptyString => true
    | String c s' => p c && go s'
    end.

Definition isAscii (c : ascii) : bool := (nat_of_ascii c <? 128)%nat.

(** ** The XML stream reader *)

Module Xml.

(** [QXmlStreamReader::TokenType], each token with what the reader reports
    for it: namespace URI and local name of an element, text of character
    data. *)
Inductive token : Type :=
| NoToken
| Invalid
| StartDocument
| EndDocument
| StartElement (namespaceUri name : string)
| EndElement (namespaceUri name : string)
| Characters (text : string)
| Comment (text : string)
| DTD
| EntityReference (name text : string)
| ProcessingInstruction (target : string).

(** The reader: the token it stands on and the tokens still to come. *)
Record reader : Type := Reader { cur : token; rest : list token }.

Definition mkReader (tokens : list token) : reader := Reader NoToken tokens.

(** [raiseError]: the current token becomes [Invalid]. *)
Definition raiseError (r : reader) : reader := Reader Invalid (rest r).

(** [readNext()]: once in an error the reader stays there; reading past the
    last token is the error of a document that ends too early. *)
Definition readNext (r : reader) : reader :=
  match cur r with
  | Invalid => r
  | _ =>
      match rest r with
      | [] => Reader Invalid []
      | t :: ts => Reader t ts
      end
  end.

Definition hasError (r : reader) : bool :=
  match cur r with
  | Invalid => true
  | _ => false
  end.

Definition atEnd (r : reader) : bool :=
  match cur r with
  | Invalid | EndDocument => true
  | _ => false
  end.

Definition isStartElement (t : token) : bool :=
  match t with
  | StartElement _ _ => true
  | _ => false
  end.

Definition isEndElement (t : token) : bool :=
  match t with
  | EndElement _ _ => true
  | _ => false
  end.

Definition isCharacters (t : token) : bool :=
  match t with
  | Characters _ => true
  | _ => false
  end.

Definition tokenName (t : token) : string :=
  match t with
  | StartElement _ n | EndElement _ n | EntityReference n _ => n
  | _ => EmptyString
  end.

Definition tokenNamespaceUri (t : token) : string :=
  match t with
  | StartElement ns _ | EndElement ns _ => ns
  | _ => EmptyString
  end.

Definition tokenText (t : token) : string :=
  match t with
  | Characters s | Comment s | EntityReference _ s => s
  | _ => EmptyString
  end.

(** [reader.name()], [reader.namespaceUri()], [reader.text()] *)
Definition name (r : reader) : string := tokenName (cur r).
Definition namespaceUri (r : reader) : string := tokenNamespaceUri (cur r).
Definition text (r : reader) : string := tokenText (cur r).

(** [QXmlStreamReader::ReadElementTextBehaviour], the two values in use. *)
Inductive behaviour : Type := ErrorOnUnexpectedElement | SkipChildElements.

(** The loop of [readElementText(behaviour)] over the tokens to come.  At
    [depth = 0] it collects character data up to the end tag; a child
    element is an error, or is skipped by [skipCurrentElement], whose loop is
    the case [depth > 0]. *)
Fixpoint readElementTextGo (b : behaviour) (depth : nat) (result : string)
    (ts : list token) : string * reader :=
  match ts with
  | [] => (result, Reader Invalid [])
  | t :: ts' =>
      match depth with
      | O =>
          match t with
          | Characters s | EntityReference _ s =>
              readElementTextGo b 0 (result ++ s) ts'
          | EndElement _ _ => (result, Reader t ts')
          | ProcessingInstruction _ | Comment _ =>
              readElementTextGo b 0 result ts'
          | StartElement _ _ =>
              match b with
              | SkipChildElements => readElementTextGo b 1 result ts'
              | ErrorOnUnexpectedElement => (result, Reader Invalid ts')
              end
          | Invalid => (result, Reader Invalid ts')
          | NoToken | StartDocument | EndDocument | DTD =>
              match b with
              | SkipChildElements => readElementTextGo b 0 result ts'
              | ErrorOnUnexpectedElement => (result, Reader Invalid ts')
              end
          end
      | S d =>
          match t with
          | EndElement _ _ => readElementTextGo b d result ts'
          | StartElement _ _ => readElementTextGo b (S depth) result ts'
          | Invalid => (result, Reader Invalid ts')
          | _ => readElementTextGo b depth result ts'
          end
      end
  end.

(** [readElementText(behaviour)]: reads only when standing on a start
    element. *)
Definition readElementText (b : behaviour) (r : reader) : string * reader :=
  match cur r with
  | StartElement _ _ => readElementTextGo b 0 EmptyString (rest r)
  | _ => (EmptyString, r)
  end.

(** *** From text to tokens

    [tokenize] gives the tokens the reader yields on a document given as
    text.  It answers for a subset of XML, wide enough for the bodies this
    client writes and for plain listings, and is [None] on every text
    outside the subset: about those the model says nothing.  The subset:
    - an XML declaration stands at the very start of the text or nowhere;
      it gives the version 1.0 and, if any, the encoding UTF-8;
    - what follows is valid UTF-8 of tabs, line feeds and the characters
      from the space on, without [&], the byte order mark and the code
      points FFFE and FFFF;
    - markup is start tags, end tags and empty-element tags; there is no
      comment, CDATA section, document type declaration or processing
      instruction, and no []]>] in character data;
    - the names of elements and attributes are of ASCII letters, digits,
      [-], [_] and [.], with at most one prefix;
    - an attribute declares a namespace, with neither a prefix nor a name
      that XML reserves, or has no prefix; white space stands before every
      attribute, none around its [=], and no attribute comes twice in a
      tag;
    - the first thing after white space is the start tag of the root, with
      a prefix that is declared; the text does not end in the character
      data of an element.
    Inside the subset a text that is not well formed, through a tag that
    is cut short, that has a [<] inside or that does not match, through a
    prefix that is not declared, through content after the root or through
    its end before the root is closed, gives the tokens up to that place and
    then [Invalid]. *)

Definition isXmlSpace (c : ascii) : bool :=
  let n := nat_of_ascii c in
  (n =? 32)%nat || (n =? 9)%nat || (n =? 10)%nat || (n =? 13)%nat.

Definition isNameStartChar (c : ascii) : bool :=
  let n := nat_of_ascii c in
  ((65 <=? n)%nat && (n <=? 90)%nat) || ((97 <=? n)%nat && (n <=? 122)%nat)
  || (n =? 95)%nat.

Definition isNameChar (c : ascii) : bool :=
  let n := nat_of_ascii c in
  isNameStartChar c || ((48 <=? n)%nat && (n <=? 57)%nat)
  || (n =? 45)%nat || (n =? 46)%nat.

(** The bytes of the subset: of the control characters the tab and the
    line feed only, and no [&]. *)
Definition isModelByte (c : ascii) : bool :=
  let n := nat_of_ascii c in
  ((n =? 9)%nat || (n =? 10)%nat || (32 <=? n)%nat)
  && negb (Ascii.eqb c "&").

(** UTF-8, by the bytes a code point is still to get: any [more]
    continuation bytes, or a continuation byte between [low] and [high]
    and then [more] of any; [AfterEFBB] and [AfterEFBF] are where the byte
    order mark and the code points FFFE and FFFF would end. *)
Inductive utf8State : Type :=
| Utf8Start
| Utf8More (more : nat)
| Utf8Range (low high more : nat)
| AfterEF
| AfterEFBB
| AfterEFBF.

Definition between (low high n : nat) : bool :=
  (low <=? n)%nat && (n <=? high)%nat.

Definition utf8After (more : nat) : utf8State :=
  match more with
  | O => Utf8Start
  | S _ => Utf8More more
  end.

Definition utf8Step (st : utf8State) (c : ascii) : option utf8State :=
  let n := nat_of_ascii c in
  match st with
  | Utf8Start =>
      if (n <? 128)%nat then Some Utf8Start
      else if between 194 223 n then Some (Utf8More 1)
      else if (n =? 224)%nat then Some (Utf8Range 160 191 1)
      else if between 225 236 n || (n =? 238)%nat then Some (Utf8More 2)
      else if (n =? 237)%nat then Some (Utf8Range 128 159 1)
      else if (n =? 239)%nat then Some AfterEF
      else if (n =? 240)%nat then Some (Utf8Range 144 191 2)
      else if between 241 243 n then Some (Utf8More 3)
      else if (n =? 244)%nat then Some (Utf8Range 128 143 2)
      else None
  | Utf8More more =>
      if between 128 191 n then Some (utf8After (Nat.pred more)) else None
  | Utf8Range low high more =>
      if between low high n then Some (utf8After more) else None
  | AfterEF =>
      if (n =? 187)%nat then Some AfterEFBB
      else if (n =? 191)%nat then Some AfterEFBF
      else if between 128 191 n then Some (Utf8More 1)
      else None
  | AfterEFBB =>
      if between 128 190 n then Some Utf8Start else None
  | AfterEFBF =>
      if between 128 189 n then Some Utf8Start else None
  end.

Fixpoint utf8From (st : utf8State) (s : string) : bool :=
  match s with
  | EmptyString =>
      match st with
      | Utf8Start => true
      | _ => false
      end
  | String c s' =>
      match utf8Step st c with
      | Some st' => utf8From st' s'
      | None => false
      end
  end.

Definition isUtf8 (s : string) : bool := utf8From Utf8Start s.

Definition isModelText (s : string) : bool :=
  forallChars isModelByte s && isUtf8 s.

(** The longest prefix of characters satisfying [p], and what follows it. *)
Fixpoint span (p : ascii -> bool) (s : string) : string * string :=
  match s with
  | EmptyString => (EmptyString, EmptyString)
  | String c s' =>
      if p c then let '(a, b) := span p s' in (String c a, b)
      else (EmptyString, s)
  end.

Definition skipXmlSpace (s : string) : string := snd (span isXmlSpace s).

Definition allXmlSpace (s : string) : bool :=
  QStr.isEmpty (skipXmlSpace s).

Definition startsWithSpace (s : string) : bool :=
  match s with
  | EmptyString => false
  | String c _ => isXmlSpace c
  end.

Definition isQuote (c : ascii) : bool :=
  Ascii.eqb c (ascii_of_nat 34) || Ascii.eqb c "'".

(** The XML declaration: what follows it, or the text itself when it has
    none. *)
Definition afterLiteral (literal s : string) : option string :=
  if QStr.startsWith s literal
  then Some (QStr.midFrom (String.length literal) s)
  else None.

Definition afterSpace (s : string) : option string :=
  if startsWithSpace s then Some (skipXmlSpace s) else None.

Definition readQuoted (s : string) : option (string * string) :=
  match s with
  | EmptyString => None
  | String q s' =>
      if isQuote q then
        let '(v, r) := span (fun c => negb (Ascii.eqb c q)) s' in
        match r with
        | String _ r' => Some (v, r')
        | EmptyString => None
        end
      else None
  end.

Definition readPseudoAttribute (name s : string) : option (string * string) :=
  match afterSpace s with
  | Some s1 =>
      match afterLiteral (name ++ "=") s1 with
      | Some s2 => readQuoted s2
      | None => None
      end
  | None => None
  end.

Definition endOfDeclaration (s : string) : option string :=
  afterLiteral "?>" (skipXmlSpace s).

Definition declaration (xml : string) : option string :=
  if QStr.startsWith xml "<?" then
    match afterLiteral "<?xml" xml with
    | Some s1 =>
        match readPseudoAttribute "version" s1 with
        | Some (version, s2) =>
            if String.eqb version "1.0" then
              match readPseudoAttribute "encoding" s2 with
              | Some (encoding, s3) =>
                  if String.eqb (QStr.toLower encoding) "utf-8"
                  then endOfDeclaration s3
                  else None
              | None => endOfDeclaration s2
              end
            else None
        | None => None
        end
    | None => None
    end
  else Some xml.

(** First pass: the text is cut at the markup delimiters.  [COut] is where
    markup other than a tag begins, [CBad] where a tag is cut short or has a
    [<] inside. *)
Inductive chunk : Type :=
| CText (s : string)
| CTag (s : string)
| COut
| CBad.

Inductive lexMode : Type :=
| MText
| MTag
| MQuote (q : ascii).

Definition pushText (c : ascii) (cs : list chunk) : list chunk :=
  match cs with
  | CText t :: cs' => CText (String c t) :: cs'
  | _ => CText (String c EmptyString) :: cs
  end.

Definition pushTag (c : ascii) (cs : list chunk) : list chunk :=
  match cs with
  | CTag t :: cs' => CTag (String c t) :: cs'
  | _ => [CBad]
  end.

(** What follows a [<] is a comment, a CDATA section, a document type
    declaration or a processing instruction. *)
Definition otherMarkup (s : string) : bool :=
  QStr.startsWithChar s "!" || QStr.startsWithChar s "?".

Fixpoint lex (m : lexMode) (s : string) : list chunk :=
  match s with
  | EmptyString =>
      match m with
      | MText => []
      | _ => [CBad]
      end
  | String c s' =>
      match m with
      | MText =>
          if Ascii.eqb c "<"
          then if otherMarkup s' then [COut] else lex MTag s'
          else pushText c (lex MText s')
      | MTag =>
          if Ascii.eqb c ">" then CTag EmptyString :: lex MText s'
          else if Ascii.eqb c "<" then [CBad]
          else if isQuote c
          then pushTag c (lex (MQuote c) s')
          else pushTag c (lex MTag s')
      | MQuote q =>
          if Ascii.eqb c q then pushTag c (lex MTag s')
          else if Ascii.eqb c "<" then [CBad]
          else pushTag c (lex (MQuote q) s')
      end
  end.

(** Second pass: what stands between the angle brackets; [None] for a tag
    outside the subset. *)
Definition qname : Type := string * string.

Definition readQName (s : string) : option (qname * string) :=
  let '(n1, r1) := span isNameChar s in
  match n1 with
  | EmptyString => None
  | String c _ =>
      if isNameStartChar c then
        match r1 with
        | String colon r2 =>
            if Ascii.eqb colon ":" then
              let '(n2, r3) := span isNameChar r2 in
              match n2 with
              | EmptyString => None
              | String c2 _ =>
                  if isNameStartChar c2 then Some ((n1, n2), r3) else None
              end
            else Some ((EmptyString, n1), r1)
        | EmptyString => Some ((EmptyString, n1), r1)
        end
      else None
  end.

Definition attribute : Type := qname * string.

(** The value of an attribute as the reader reports it: white space is a
    space. *)
Fixpoint normalized (v : string) : string :=
  match v with
  | EmptyString => EmptyString
  | String c v' => String (if isXmlSpace c then " "%char else c) (normalized v')
  end.

(** The attributes of a start tag and whether the tag closes itself. *)
Fixpoint readAttributes (fuel : nat) (s : string)
    : option (list attribute * bool) :=
  match fuel with
  | O => None
  | S fuel' =>
      let s0 := skipXmlSpace s in
      match s0 with
      | EmptyString => Some ([], false)
      | String c0 s1 =>
          if Ascii.eqb c0 "/" && QStr.isEmpty s1 then Some ([], true)
          else if negb (startsWithSpace s) then None
          else
            match readQName s0 with
            | None => None
            | Some (qn, r) =>
                match r with
                | String e r1 =>
                    if Ascii.eqb e "=" then
                      match readQuoted r1 with
                      | Some (v, r2) =>
                          match readAttributes fuel' r2 with
                          | Some (attrs, closes) =>
                              Some ((qn, normalized v) :: attrs, closes)
                          | None => None
                          end
                      | None => None
                      end
                    else None
                | EmptyString => None
                end
            end
      end
  end.

(** The namespaces and the prefixes XML keeps for itself. *)
Definition isReservedNamespace (uri : string) : bool :=
  String.eqb uri "http://www.w3.org/2000/xmlns/"
  || String.eqb uri "http://www.w3.org/XML/1998/namespace".

Definition isReservedPrefix (p : string) : bool :=
  String.eqb p "xml" || String.eqb p "xmlns".

(** An attribute of the subset: the declaration of the default namespace or
    of a prefix, or an attribute without a prefix. *)
Definition attributeInSubset (a : attribute) : bool :=
  let '((p, l), v) := a in
  if QStr.isEmpty p then
    if String.eqb l "xmlns" then negb (isReservedNamespace v) else true
  else if String.eqb p "xmlns" then
    negb (isReservedPrefix l) && negb (QStr.isEmpty v)
    && negb (isReservedNamespace v)
  else false.

Definition sameName (a b : qname) : bool :=
  String.eqb (fst a) (fst b) && String.eqb (snd a) (snd b).

Fixpoint distinctNames (attrs : list attribute) : bool :=
  match attrs with
  | [] => true
  | (n, _) :: attrs' =>
      negb (existsb (fun a => sameName (fst a) n) attrs')
      && distinctNames attrs'
  end.

Inductive tag : Type :=
| TagEnd (n : qname)
| TagStart (n : qname) (attrs : list attribute) (closes : bool).

Definition readTag (s : string) : option tag :=
  match s with
  | EmptyString => None
  | String c s' =>
      if Ascii.eqb c "/" then
        match readQName s' with
        | Some (n, r) => if allXmlSpace r then Some (TagEnd n) else None
        | None => None
        end
      else
        match readQName s with
        | Some (n, r) =>
            match readAttributes (S (String.length r)) r with
            | Some (attrs, closes) =>
                if negb (isReservedPrefix (fst n))
                   && forallb attributeInSubset attrs
                   && distinctNames attrs
                then Some (TagStart n attrs closes)
                else None
            | None => None
            end
        | None => None
        end
  end.

(** Third pass: namespaces are resolved and the nesting is checked. *)
Definition bindings : Type := list (string * string).

Fixpoint lookupPrefix (p : string) (bs : bindings) : option string :=
  match bs with
  | [] => None
  | (p', uri) :: bs' => if String.eqb p p' then Some uri else lookupPrefix p bs'
  end.

Definition resolve (p : string) (bs : bindings) : option string :=
  match lookupPrefix p bs with
  | Some uri => Some uri
  | None => if QStr.isEmpty p then Some EmptyString else None
  end.

Fixpoint declarations (attrs : list attribute) : bindings :=
  match attrs with
  | [] => []
  | ((p, l), v) :: attrs' =>
      if QStr.isEmpty p && String.eqb l "xmlns"
      then (EmptyString, v) :: declarations attrs'
      else if String.eqb p "xmlns" then (l, v) :: declarations attrs'
      else declarations attrs'
  end.

Inductive phase : Type := Prolog | InRoot | Epilog.

Definition afterClose {A : Type} (stack : list A) : phase :=
  match stack with
  | [] => Epilog
  | _ :: _ => InRoot
  end.

(** The tokens after an error: none that the model would answer for before
    the root is open, [Invalid] after that. *)
Definition broken (ph : phase) : option (list token) :=
  match ph with
  | Prolog => None
  | _ => Some [Invalid]
  end.

Fixpoint build (ph : phase) (stack : list (qname * string * bindings))
    (bs : bindings) (cs : list chunk) : option (list token) :=
  match cs with
  | [] =>
      match ph with
      | Epilog => Some [EndDocument]
      | _ => broken ph
      end
  | COut :: _ => None
  | CBad :: _ => broken ph
  | CText t :: cs' =>
      if QStr.contains t "]]>" then None
      else
        match ph with
        | InRoot =>
            match cs' with
            | [] => None
            | _ :: _ =>
                option_map (cons (Characters t)) (build ph stack bs cs')
            end
        | _ => if allXmlSpace t then build ph stack bs cs' else broken ph
        end
  | CTag t :: cs' =>
      match readTag t with
      | None => None
      | Some (TagEnd (p, l)) =>
          match stack with
          | ((p', l'), ns, bs') :: stack' =>
              if String.eqb p p' && String.eqb l l'
              then option_map (cons (EndElement ns l))
                     (build (afterClose stack') stack' bs' cs')
              else Some [Invalid]
          | [] => broken ph
          end
      | Some (TagStart (p, l) attrs closes) =>
          match ph with
          | Epilog => Some [Invalid]
          | _ =>
              let bs1 := (declarations attrs ++ bs)%list in
              match resolve p bs1 with
              | None => broken ph
              | Some ns =>
                  if closes
                  then option_map
                         (fun ts => StartElement ns l :: EndElement ns l :: ts)
                         (build (afterClose stack) stack bs cs')
                  else option_map (cons (StartElement ns l))
                         (build InRoot (((p, l), ns, bs) :: stack) bs1 cs')
              end
          end
      end
  end.

(** The tokens of the document [xml], read with the prefixes of [extra]
    declared beforehand ([addExtraNamespaceDeclaration]). *)
Definition tokenize (extra : bindings) (xml : string)
    : option (list token) :=
  match declaration xml with
  | Some body =>
      if isModelText body
      then option_map (cons StartDocument)
             (build Prolog [] extra (lex MText body))
      else None
  | None => None
  end.

(** *** Reading loops

    [while (!reader.atEnd()) { body }]: [body] yields the next state and
    reader, or the value the enclosing function returns from inside the loop;
    [finish] is what follows the loop.  [None] only when [fuel] runs out,
    which [S (length tokens)] iterations never do ([readerLoop_total]). *)
Fixpoint readerLoop {S R : Type} (body : S -> reader -> S * reader + R)
    (finish : S -> reader -> R) (fuel : nat) (st : S) (r : reader)
    : option R :=
  if atEnd r then Some (finish st r)
  else
    match fuel with
    | O => None
    | Datatypes.S fuel' =>
        match body st r with
        | inl (st', r') => readerLoop body finish fuel' st' r'
        | inr x => Some x
        end
    end.

(** The iterations of such a loop, as a relation between its configurations. *)
Inductive iterates {S R : Type} (body : S -> reader -> S * reader + R)
    : S * reader -> S * reader -> Prop :=
| iterates_refl c : iterates body c c
| iterates_step st r st' r' c :
    atEnd r = false ->
    body st r = inl (st', r') ->
    iterates body (st', r') c ->
    iterates body (st, r) c.

End Xml.

(** ** Entity tags *)

(** [parseEtag] *)
Definition parseEtag (header : string) : string :=
  if QStr.isEmpty header then EmptyString
  else
    let arr := header in
    (* Weak E-Tags can appear when gzip compression is on *)
    let arr := if QStr.startsWith arr "W/" then QStr.midFrom 2 arr else arr in
    let arr := QStr.replace "-gzip" "" arr in
    if (2 <=? String.length arr)%nat
       && QStr.startsWithChar arr (ascii_of_nat 34)
       && QStr.endsWithChar arr (ascii_of_nat 34)
    then QStr.mid 1 (String.length arr - 2) arr
    else arr.

(** The namespace of WebDAV elements and the prefix every reader of this
    file declares for it ([addExtraNamespaceDeclaration]). *)
Definition DAV : string := "DAV:".

Definition extraNamespaces : Xml.bindings := [("d", DAV)].

(** ** RequestEtagJob *)

(** What [RequestEtagJob::finished] reads of the reply. *)
Record EtagReply : Type := {
  etag_httpCode : Z;
  etag_body : list Xml.token;
  etag_responseTimestamp : string;
  etag_errorString : string
}.

(** The signals of the job; the time stamp is given by the header text
    [QDateTime::fromString] is applied to. *)
Inductive EtagSignal : Type :=
| etagRetreived (etag : string) (time : string)
| finishedWithEtag (etag : string)
| finishedWithHttpError (code : Z) (message : string).

(** One iteration of the loop in [RequestEtagJob::finished]; the state is
    the variable [etag]. *)
Definition etagIteration (etag : string) (r0 : Xml.reader)
    : string * Xml.reader + string :=
  let r := Xml.readNext r0 in
  if Xml.isStartElement (Xml.cur r) && String.eqb (Xml.namespaceUri r) DAV
  then
    if String.eqb (Xml.name r) "getetag" then
      let '(etagText, r1) :=
        Xml.readElementText Xml.ErrorOnUnexpectedElement r in
      let parsedTag := parseEtag etagText in
      if negb (QStr.isEmpty parsedTag)
      then inl (etag ++ parsedTag, r1)
      else inl (etag ++ etagText, r1)
    else inl (etag, r)
  else inl (etag, r).

(** The value of [etag] after the loop. *)
Definition etagOfTokens (tokens : list Xml.token) : option string :=
  Xml.readerLoop etagIteration (fun etag _ => etag)
    (S (length tokens)) EmptyString (Xml.mkReader tokens).

(** [RequestEtagJob::finished] *)
Definition RequestEtagJob_finished (reply : EtagReply)
    : option (list EtagSignal) :=
  if (etag_httpCode reply =? 207)%Z then
    match etagOfTokens (etag_body reply) with
    | Some etag =>
        Some [etagRetreived etag (etag_responseTimestamp reply);
              finishedWithEtag etag]
    | None => None
    end
  else
    Some [finishedWithHttpError (etag_httpCode reply)
            (etag_errorString reply)].

(** ** LsColXMLParser *)

(** [readContentsAsString]: the loop body runs once before [atEnd()] is
    looked at; [level] is the [int] of the source. *)
Fixpoint readContentsAsStringGo (level : Z) (result : string)
    (ts : list Xml.token) : string * Xml.reader :=
  match ts with
  | [] => (result, Xml.Reader Xml.Invalid [])
  | t :: ts' =>
      let r := Xml.Reader t ts' in
      match t with
      | Xml.StartElement _ n =>
          readContentsAsStringGo (level + 1)
            (result ++ "<" ++ n ++ ">") ts'
      | Xml.Characters s => readContentsAsStringGo level (result ++ s) ts'
      | Xml.EndElement _ n =>
          if (level - 1 <? 0)%Z then (result, r)
          else
            readContentsAsStringGo (level - 1)
              (result ++ "</" ++ n ++ ">") ts'
      | _ =>
          if Xml.atEnd r then (result, r)
          else readContentsAsStringGo level result ts'
      end
  end.

Definition readContentsAsString (r : Xml.reader) : string * Xml.reader :=
  match Xml.cur r with
  | Xml.Invalid => (EmptyString, r)
  | _ => readContentsAsStringGo 0 EmptyString (Xml.rest r)
  end.

(** The signals of the parser. *)
Inductive LsColSignal : Type :=
| directoryListingIterated (href : string) (properties : gmap string string)
| directoryListingSubfolders (folders : list string)
| finishedWithoutError.

(** The local variables of [LsColXMLParser::parse], the hash [sizes] points
    to ([None] for a null pointer) and the signals emitted so far. *)
Record ParseState : Type := {
  folders : list string;
  currentHref : string;
  currentTmpProperties : gmap string string;
  currentHttp200Properties : gmap string string;
  currentPropsHaveHttp200 : bool;
  insidePropstat : bool;
  insideProp : bool;
  insideMultiStatus : bool;
  sizes : option (gmap string Z);
  emitted : list LsColSignal
}.

Definition initialParseState (sizes : option (gmap string Z)) : ParseState :=
  {| folders := []; currentHref := EmptyString;
     currentTmpProperties := ∅; currentHttp200Properties := ∅;
     currentPropsHaveHttp200 := false; insidePropstat := false;
     insideProp := false; insideMultiStatus := false;
     sizes := sizes; emitted := [] |}.

Definition set_folders (st : ParseState) (v : list string) : ParseState :=
  {| folders := v; currentHref := currentHref st;
     currentTmpProperties := currentTmpProperties st;
     currentHttp200Properties := currentHttp200Properties st;
     currentPropsHaveHttp200 := currentPropsHaveHttp200 st;
     insidePropstat := insidePropstat st; insideProp := insideProp st;
     insideMultiStatus := insideMultiStatus st;
     sizes := sizes st; emitted := emitted st |}.

Definition set_currentHref (st : ParseState) (v : string) : ParseState :=
  {| folders := folders st; currentHref := v;
     currentTmpProperties := currentTmpProperties st;
     currentHttp200Properties := currentHttp200Properties st;
     currentPropsHaveHttp200 := currentPropsHaveHttp200 st;
     insidePropstat := insidePropstat st; insideProp := insideProp st;
     insideMultiStatus := insideMultiStatus st;
     sizes := sizes st; emitted := emitted st |}.

Definition set_currentTmpProperties (st : ParseState)
    (v : gmap string string) : ParseState :=
  {| folders := folders st; currentHref := currentHref st;
     currentTmpProperties := v;
     currentHttp200Properties := currentHttp200Properties st;
     currentPropsHaveHttp200 := currentPropsHaveHttp200 st;
     insidePropstat := insidePropstat st; insideProp := insideProp st;
     insideMultiStatus := insideMultiStatus st;
     sizes := sizes st; emitted := emitted st |}.

Definition set_currentHttp200Properties (st : ParseState)
    (v : gmap string string) : ParseState :=
  {| folders := folders st; currentHref := currentHref st;
     currentTmpProperties := currentTmpProperties st;
     currentHttp200Properties := v;
     currentPropsHaveHttp200 := currentPropsHaveHttp200 st;
     insidePropstat := insidePropstat st; insideProp := insideProp st;
     insideMultiStatus := insideMultiStatus st;
     sizes := sizes st; emitted := emitted st |}.

Definition set_currentPropsHaveHttp200 (st : ParseState) (v : bool)
    : ParseState :=
  {| folders := folders st; currentHref := currentHref st;
     currentTmpProperties := currentTmpProperties st;
     currentHttp200Properties := currentHttp200Properties st;
     currentPropsHaveHttp200 := v;
     insidePropstat := insidePropstat st; insideProp := insideProp st;
     insideMultiStatus := insideMultiStatus st;
     sizes := sizes st; emitted := emitted st |}.

Definition set_insidePropstat (st : ParseState) (v : bool) : ParseState :=
  {| folders := folders st; currentHref := currentHref st;
     currentTmpProperties := currentTmpProperties st;
     currentHttp200Properties := currentHttp200Properties st;
     currentPropsHaveHttp200 := currentPropsHaveHttp200 st;
     insidePropstat := v; insideProp := insideProp st;
     insideMultiStatus := insideMultiStatus st;
     sizes := sizes st; emitted := emitted st |}.

Definition set_insideProp (st : ParseState) (v : bool) : ParseState :=
  {| folders := folders st; currentHref := currentHref st;
     currentTmpProperties := currentTmpProperties st;
     currentHttp200Properties := currentHttp200Properties st;
     currentPropsHaveHttp200 := currentPropsHaveHttp200 st;
     insidePropstat := insidePropstat st; insideProp := v;
     insideMultiStatus := insideMultiStatus st;
     sizes := sizes st; emitted := emitted st |}.

Definition set_insideMultiStatus (st : ParseState) (v : bool) : ParseState :=
  {| folders := folders st; currentHref := currentHref st;
     currentTmpProperties := currentTmpProperties st;
     currentHttp200Properties := currentHttp200Properties st;
     currentPropsHaveHttp200 := currentPropsHaveHttp200 st;
     insidePropstat := insidePropstat st; insideProp := insideProp st;
     insideMultiStatus := v;
     sizes := sizes st; emitted := emitted st |}.

Definition set_sizes (st : ParseState) (v : option (gmap string Z))
    : ParseState :=
  {| folders := folders st; currentHref := currentHref st;
     currentTmpProperties := currentTmpProperties st;
     currentHttp200Properties := currentHttp200Properties st;
     currentPropsHaveHttp200 := currentPropsHaveHttp200 st;
     insidePropstat := insidePropstat st; insideProp := insideProp st;
     insideMultiStatus := insideMultiStatus st;
     sizes := v; emitted := emitted st |}.

Definition emit (st : ParseState) (sig : LsColSignal) : ParseState :=
  {| folders := folders st; currentHref := currentHref st;
     currentTmpProperties := currentTmpProperties st;
     currentHttp200Properties := currentHttp200Properties st;
     currentPropsHaveHttp200 := currentPropsHaveHttp200 st;
     insidePropstat := insidePropstat st; insideProp := insideProp st;
     insideMultiStatus := insideMultiStatus st;
     sizes := sizes st; emitted := (emitted st ++ [sig])%list |}.

(** What [parse] leaves behind: the value it returns, the signals it
    emitted and the hash behind [sizes]. *)
Record ParseResult : Type := {
  returned : bool;
  signals : list LsColSignal;
  sizesAfter : option (gmap string Z)
}.

Definition parseReturn (b : bool) (st : ParseState) : ParseResult :=
  {| returned := b; signals := emitted st; sizesAfter := sizes st |}.

(** The first [if] of the loop body, on a start element in the DAV
    namespace.  [PhaseReturnFalse] is the [return false] of a rejected
    href, [PhaseContinue] a [continue]. *)
Inductive PhaseOutcome : Type :=
| PhaseReturnFalse
| PhaseContinue (st : ParseState) (r : Xml.reader)
| PhaseNext (st : ParseState) (r : Xml.reader).

Definition davStartElement (expectedPath : string) (name : string)
    (st : ParseState) (r : Xml.reader) : PhaseOutcome :=
  if String.eqb name "href" then
    let '(text, r1) := Xml.readElementText Xml.ErrorOnUnexpectedElement r in
    let hrefString := QStr.fromPercentEncoding text in
    if negb (QStr.startsWith hrefString expectedPath) then PhaseReturnFalse
    else PhaseNext (set_currentHref st hrefString) r1
  else if String.eqb name "response" then PhaseNext st r
  else if String.eqb name "propstat" then
    PhaseNext (set_insidePropstat st true) r
  else if String.eqb name "status" && insidePropstat st then
    let '(httpStatus, r1) :=
      Xml.readElementText Xml.ErrorOnUnexpectedElement r in
    if QStr.startsWith httpStatus "HTTP/1.1 200"
    then PhaseNext (set_currentPropsHaveHttp200 st true) r1
    else PhaseNext (set_currentPropsHaveHttp200 st false) r1
  else if String.eqb name "prop" then PhaseContinue (set_insideProp st true) r
  else if String.eqb name "multistatus" then
    PhaseContinue (set_insideMultiStatus st true) r
  else PhaseNext st r.

(** The second [if]: inside [propstat] and [prop] every start element is a
    property. *)
Definition propertyElement (name : string) (st : ParseState) (r : Xml.reader)
    : ParseState * Xml.reader :=
  let '(propertyContent, r1) := readContentsAsString r in
  let st1 :=
    if String.eqb name "resourcetype"
       && QStr.contains propertyContent "collection"
    then set_folders st (folders st ++ [currentHref st])%list
    else if String.eqb name "size" then
      match QStr.toLongLong propertyContent, sizes st with
      | Some s, Some h => set_sizes st (Some (<[currentHref st := s]> h))
      | _, _ => st
      end
    else st in
  (set_currentTmpProperties st1
     (<[Xml.name r1 := propertyContent]> (currentTmpProperties st1)), r1).

(** The third [if], on an end element in the DAV namespace. *)
Definition davEndElement (st : ParseState) (r : Xml.reader) : ParseState :=
  if String.eqb (Xml.name r) "response" then
    let href :=
      if QStr.endsWithChar (currentHref st) "/"
      then QStr.chop1 (currentHref st) else currentHref st in
    let st1 :=
      emit st (directoryListingIterated href (currentHttp200Properties st)) in
    set_currentHttp200Properties (set_currentHref st1 EmptyString) ∅
  else if String.eqb (Xml.name r) "propstat" then
    let st1 := set_insidePropstat st false in
    let st2 :=
      if currentPropsHaveHttp200 st1
      then set_currentHttp200Properties st1 (currentTmpProperties st1)
      else st1 in
    set_currentPropsHaveHttp200 (set_currentTmpProperties st2 ∅) false
  else if String.eqb (Xml.name r) "prop" then set_insideProp st false
  else st.

(** One iteration of the loop of [parse]; [inr] is a [return] from inside
    the loop. *)
Definition parseIteration (expectedPath : string) (st : ParseState)
    (r0 : Xml.reader) : ParseState * Xml.reader + ParseResult :=
  let r := Xml.readNext r0 in
  let type := Xml.cur r in
  let name := Xml.name r in
  let first :=
    if Xml.isStartElement type && String.eqb (Xml.namespaceUri r) DAV
    then davStartElement expectedPath name st r
    else PhaseNext st r in
  match first with
  | PhaseReturnFalse => inr (parseReturn false st)
  | PhaseContinue st1 r1 => inl (st1, r1)
  | PhaseNext st1 r1 =>
      let '(st2, r2) :=
        if Xml.isStartElement type && insidePropstat st1 && insideProp st1
        then propertyElement name st1 r1
        else (st1, r1) in
      let st3 :=
        if Xml.isEndElement type then
          if String.eqb (Xml.namespaceUri r2) DAV
          then davEndElement st2 r2
          else st2
        else st2 in
      inl (st3, r2)
  end.

(** What follows the loop. *)
Definition parseFinish (st : ParseState) (r : Xml.reader) : ParseResult :=
  if Xml.hasError r then parseReturn false st
  else if negb (insideMultiStatus st) then parseReturn false st
  else
    parseReturn true
      (emit (emit st (directoryListingSubfolders (folders st)))
         finishedWithoutError).

(** [LsColXMLParser::parse] on the tokens of the document. *)
Definition parseTokens (tokens : list Xml.token)
    (sizes : option (gmap string Z)) (expectedPath : string)
    : option ParseResult :=
  Xml.readerLoop (parseIteration expectedPath) parseFinish
    (S (length tokens)) (initialParseState sizes) (Xml.mkReader tokens).

(** [LsColXMLParser::parse] on the text of a document that [Xml.tokenize]
    answers for. *)
Definition LsColXMLParser_parse (xml : string)
    (sizes : option (gmap string Z)) (expectedPath : string)
    : option ParseResult :=
  match Xml.tokenize extraNamespaces xml with
  | Some tokens => parseTokens tokens sizes expectedPath
  | None => None
  end.

(** [LsColJob::finished]: the reply is parsed only when it is a 207 with the
    XML content type; the signals of the parser are forwarded.  [body] is
    the body of the reply as the tokens the reader yields on it. *)
Inductive LsColJobSignal : Type :=
| forwarded (sig : LsColSignal)
| finishedWithError.

Definition LsColJob_finished (httpCode : Z) (contentType : string)
    (body : list Xml.token) (sizes : gmap string Z) (expectedPath : string)
    : option (list LsColJobSignal * gmap string Z) :=
  if (httpCode =? 207)%Z
     && QStr.contains contentType "application/xml; charset=utf-8"
  then
    match parseTokens body (Some sizes) expectedPath with
    | Some res =>
        let sizes' := default sizes (sizesAfter res) in
        if negb (returned res)
        then Some ((map forwarded (signals res) ++ [finishedWithError])%list,
                   sizes')
        else Some (map forwarded (signals res), sizes')
    | None => None
    end
  else Some ([finishedWithError], sizes).

(** ** PropfindJob and ProppatchJob *)

Inductive PropfindSignal : Type :=
| result (items : gmap string string)
| propfindFinishedWithError.

(** The variables [items] and [curElement] of [PropfindJob::finished]; the
    top of the stack is the head of the list. *)
Record PropfindState : Type := {
  items : gmap string string;
  curElement : list string
}.

(** One iteration of the loop of [PropfindJob::finished].  The name handed
    to [insert] is the one of the start element.  [top()] of an empty stack
    is not defined by Qt; the well-nested tokens of a reader never reach it,
    and the model leaves the stack alone there. *)
Definition propfindIteration (st : PropfindState) (r0 : Xml.reader)
    : PropfindState * Xml.reader + list PropfindSignal :=
  let r := Xml.readNext r0 in
  let type := Xml.cur r in
  let '(st1, r1) :=
    if Xml.isStartElement type then
      match curElement st with
      | top :: _ =>
          if String.eqb top "prop" then
            let '(text, r1) :=
              Xml.readElementText Xml.SkipChildElements r in
            ({| items := <[Xml.name r := text]> (items st);
                curElement := curElement st |}, r1)
          else
            ({| items := items st;
                curElement := Xml.name r :: curElement st |}, r)
      | [] =>
          ({| items := items st;
              curElement := Xml.name r :: curElement st |}, r)
      end
    else (st, r) in
  let st2 :=
    if Xml.isEndElement type then
      match curElement st1 with
      | top :: below =>
          if String.eqb top (Xml.name r1)
          then {| items := items st1; curElement := below |}
          else st1
      | [] => st1
      end
    else st1 in
  inl (st2, r1).

Definition propfindFinish (st : PropfindState) (r : Xml.reader)
    : list PropfindSignal :=
  if Xml.hasError r then [propfindFinishedWithError]
  else [result (items st)].

(** [PropfindJob::finished] on the status code of the reply and on its
    body, as the tokens the reader yields on it. *)
Definition PropfindJob_finished (http_result_code : Z)
    (body : list Xml.token) : option (list PropfindSignal) :=
  if (http_result_code =? 207)%Z then
    Xml.readerLoop propfindIteration propfindFinish (S (length body))
      {| items := ∅; curElement := [] |} (Xml.mkReader body)
  else Some [propfindFinishedWithError].

(** The same on a body given as text, for a text that [Xml.tokenize]
    answers for. *)
Definition PropfindJob_finishedOn (http_result_code : Z) (xml : string)
    : option (list PropfindSignal) :=
  match Xml.tokenize extraNamespaces xml with
  | Some tokens => PropfindJob_finished http_result_code tokens
  | None => None
  end.

(** The line feed of the request bodies. *)
Definition nl : string := String (ascii_of_nat 10) EmptyString.

(** The body of the loop of [ProppatchJob::start]: the element written for
    one entry of [_properties], whose key is cut at its last colon into
    [keyNs] and [keyName]. *)
Definition keyNsOf (key : string) : string :=
  match QStr.lastIndexOfChar ":" key with
  | Some colIdx => QStr.left colIdx key
  | None => EmptyString
  end.

Definition keyNameOf (key : string) : string :=
  match QStr.lastIndexOfChar ":" key with
  | Some colIdx => QStr.midFrom (colIdx + 1) key
  | None => key
  end.

Definition proppatchProperty (key value : string) : string :=
  let keyNs := keyNsOf key in
  let keyName := keyNameOf key in
  "    <" ++ keyName
  ++ (if negb (QStr.isEmpty keyNs)
      then " xmlns=" ++ QStr.dq ++ keyNs ++ QStr.dq ++ " "
      else EmptyString)
  ++ ">" ++ value ++ "</" ++ keyName ++ ">" ++ nl.

Fixpoint proppatchPropStr (properties : list (string * string)) : string :=
  match properties with
  | [] => EmptyString
  | (key, value) :: properties' =>
      proppatchProperty key value ++ proppatchPropStr properties'
  end.

(** The request body [ProppatchJob::start] sends for [_properties], given
    by its entries in the order the [QMap] is iterated. *)
Definition ProppatchJob_xml (properties : list (string * string)) : string :=
  "<?xml version=" ++ QStr.dq ++ "1.0" ++ QStr.dq ++ " ?>" ++ nl
  ++ "<d:propertyupdate xmlns:d=" ++ QStr.dq ++ "DAV:" ++ QStr.dq ++ ">" ++ nl
  ++ "  <d:set><d:prop>" ++ nl
  ++ proppatchPropStr properties
  ++ "  </d:prop></d:set>" ++ nl
  ++ "</d:propertyupdate>" ++ nl.

(** [ProppatchJob::finished] *)
Inductive ProppatchSignal : Type :=
| success
| proppatchFinishedWithError.

Definition ProppatchJob_finished (http_result_code : Z) : ProppatchSignal :=
  if (http_result_code =? 207)%Z then success else proppatchFinishedWithError.

(** ** JSON documents *)

Module Json.

#[local] Unset Elimination Schemes.

Inductive value : Type :=
| Null
| Bool (b : bool)
| Number (literal : string)
| Str (s : string)
| Array (elements : list value)
| Object (members : list (string * value)).

#[local] Set Elimination Schemes.

Definition isWs (c : ascii) : bool := Xml.isXmlSpace c.

Fixpoint skipWs (s : string) : string :=
  match s with
  | EmptyString => EmptyString
  | String c s' => if isWs c then skipWs s' else s
  end.

Definition isHex (c : ascii) : bool :=
  let n := nat_of_ascii c in
  ((48 <=? n)%nat && (n <=? 57)%nat) || ((97 <=? n)%nat && (n <=? 102)%nat)
  || ((65 <=? n)%nat && (n <=? 70)%nat).

(** The UTF-8 bytes of a code point of the basic plane. *)
Definition utf8 (n : N) (s : string) : string :=
  if (n <? 128)%N then String (ascii_of_N n) s
  else if (n <? 2048)%N then
    String (ascii_of_N (192 + n / 64))
      (String (ascii_of_N (128 + n mod 64)) s)
  else
    String (ascii_of_N (224 + n / 4096))
      (String (ascii_of_N (128 + (n / 64) mod 64))
         (String (ascii_of_N (128 + n mod 64)) s)).

Inductive stringState : Type :=
| Plain
| Escaped
| Unicode (left : nat) (acc : N).

Definition consResult (f : string -> string) (x : option (string * string))
    : option (string * string) :=
  match x with
  | Some (str, r) => Some (f str, r)
  | None => None
  end.

(** A string literal after its opening quote: the string and what follows
    the closing quote. *)
Fixpoint stringBody (st : stringState) (s : string)
    : option (string * string) :=
  match s with
  | EmptyString => None
  | String c s' =>
      let n := nat_of_ascii c in
      match st with
      | Plain =>
          if (n =? 34)%nat then Some (EmptyString, s')
          else if (n =? 92)%nat then stringBody Escaped s'
          else if (n <? 32)%nat then None
          else consResult (String c) (stringBody Plain s')
      | Escaped =>
          if (n =? 34)%nat || (n =? 92)%nat || (n =? 47)%nat
          then consResult (String c) (stringBody Plain s')
          else if Ascii.eqb c "b"
          then consResult (String (ascii_of_nat 8)) (stringBody Plain s')
          else if Ascii.eqb c "f"
          then consResult (String (ascii_of_nat 12)) (stringBody Plain s')
          else if Ascii.eqb c "n"
          then consResult (String (ascii_of_nat 10)) (stringBody Plain s')
          else if Ascii.eqb c "r"
          then consResult (String (ascii_of_nat 13)) (stringBody Plain s')
          else if Ascii.eqb c "t"
          then consResult (String (ascii_of_nat 9)) (stringBody Plain s')
          else if Ascii.eqb c "u" then stringBody (Unicode 4 0) s'
          else None
      | Unicode k acc =>
          if isHex c then
            let acc' := (16 * acc + QStr.hexNibble c)%N in
            match k with
            | 0%nat | 1%nat => consResult (utf8 acc') (stringBody Plain s')
            | S k' => stringBody (Unicode k' acc') s'
            end
          else None
      end
  end.

(** A number literal: its text and what follows it. *)
Definition digits (s : string) : string * string := Xml.span QStr.isDigit s.

Definition numberLiteral (s : string) : option (string * string) :=
  let '(sign, s1) :=
    match s with
    | String c s' =>
        if Ascii.eqb c "-" then ("-", s') else (EmptyString, s)
    | EmptyString => (EmptyString, s)
    end in
  let '(int, s2) := digits s1 in
  if QStr.isEmpty int
     || (QStr.startsWithChar int "0" && (2 <=? String.length int)%nat)
  then None
  else
    let frac :=
      match s2 with
      | String c s' =>
          if Ascii.eqb c "." then
            let '(f, s3) := digits s' in
            if QStr.isEmpty f then None else Some ("." ++ f, s3)
          else Some (EmptyString, s2)
      | EmptyString => Some (EmptyString, s2)
      end in
    match frac with
    | None => None
    | Some (f, s3) =>
        match s3 with
        | String c s' =>
            if Ascii.eqb c "e" || Ascii.eqb c "E" then
              let '(esign, s4) :=
                match s' with
                | String c' s'' =>
                    if Ascii.eqb c' "+" || Ascii.eqb c' "-"
                    then (String c' EmptyString, s'')
                    else (EmptyString, s')
                | EmptyString => (EmptyString, s')
                end in
              let '(e, s5) := digits s4 in
              if QStr.isEmpty e then None
              else Some (sign ++ int ++ f ++ String c esign ++ e, s5)
            else Some (sign ++ int ++ f, s3)
        | EmptyString => Some (sign ++ int ++ f, s3)
        end
    end.

Definition literal (word : string) (v : value) (s : string)
    : option (value * string) :=
  if QStr.startsWith s word
  then Some (v, QStr.midFrom (String.length word) s)
  else None.

(** A value, the elements of an array after its opening bracket, and the
    members of an object after its opening brace; each with what follows. *)
Fixpoint parseValue (fuel : nat) (s : string) : option (value * string) :=
  match fuel with
  | O => None
  | S fuel' =>
      match skipWs s with
      | EmptyString => None
      | String c r =>
          if Ascii.eqb c "{" then
            match skipWs r with
            | String c' r' =>
                if Ascii.eqb c' "}" then Some (Object [], r')
                else
                  match parseMembers fuel' r with
                  | Some (ms, r'') => Some (Object ms, r'')
                  | None => None
                  end
            | EmptyString => None
            end
          else if Ascii.eqb c "[" then
            match skipWs r with
            | String c' r' =>
                if Ascii.eqb c' "]" then Some (Array [], r')
                else
                  match parseElements fuel' r with
                  | Some (vs, r'') => Some (Array vs, r'')
                  | None => None
                  end
            | EmptyString => None
            end
          else if (nat_of_ascii c =? 34)%nat then
            match stringBody Plain r with
            | Some (str, r') => Some (Str str, r')
            | None => None
            end
          else if Ascii.eqb c "t" then literal "true" (Bool true) (String c r)
          else if Ascii.eqb c "f" then literal "false" (Bool false) (String c r)
          else if Ascii.eqb c "n" then literal "null" Null (String c r)
          else
            match numberLiteral (String c r) with
            | Some (lit, r') => Some (Number lit, r')
            | None => None
            end
      end
  end
with parseElements (fuel : nat) (s : string)
    : option (list value * string) :=
  match fuel with
  | O => None
  | S fuel' =>
      match parseValue fuel' s with
      | Some (v, r) =>
          match skipWs r with
          | String c r' =>
              if Ascii.eqb c "]" then Some ([v], r')
              else if Ascii.eqb c "," then
                match parseElements fuel' r' with
                | Some (vs, r'') => Some (v :: vs, r'')
                | None => None
                end
              else None
          | EmptyString => None
          end
      | None => None
      end
  end
with parseMembers (fuel : nat) (s : string)
    : option (list (string * value) * string) :=
  match fuel with
  | O => None
  | S fuel' =>
      match skipWs s with
      | String q r =>
          if (nat_of_ascii q =? 34)%nat then
            match stringBody Plain r with
            | Some (key, r1) =>
                match skipWs r1 with
                | String colon r2 =>
                    if Ascii.eqb colon ":" then
                      match parseValue fuel' r2 with
                      | Some (v, r3) =>
                          match skipWs r3 with
                          | String c r4 =>
                              if Ascii.eqb c "}" then Some ([(key, v)], r4)
                              else if Ascii.eqb c "," then
                                match parseMembers fuel' r4 with
                                | Some (ms, r5) => Some ((key, v) :: ms, r5)
                                | None => None
                                end
                              else None
                          | EmptyString => None
                          end
                      | None => None
                      end
                    else None
                | EmptyString => None
                end
            | None => None
            end
          else None
      | EmptyString => None
      end
  end.

(** [QJsonDocument::fromJson]: the document is an array or an object,
    followed by white space only; [None] is the null document of a parse
    error. *)
Definition fromJson (json : string) : option value :=
  match parseValue (2 * String.length json + 2) json with
  | Some (v, r) =>
      if QStr.isEmpty (skipWs r) then
        match v with
        | Array _ | Object _ => Some v
        | _ => None
        end
      else None
  | None => None
  end.

(** [QJsonDocument::object()]: empty unless the document is an object. *)
Definition object (doc : option value) : list (string * value) :=
  match doc with
  | Some (Object ms) => ms
  | _ => []
  end.

(** [QJsonObject::contains(key)] *)
Definition contains (o : list (string * value)) (key : string) : bool :=
  existsb (fun m => String.eqb (fst m) key) o.

End Json.

(** ** CheckServerJob *)

(** The parts of a [QUrl] the job looks at.  [resolved] follows RFC 3986
    without the removal of dot segments. *)
Record QUrl : Type := {
  scheme : string;
  authority : string;
  urlPath : string
}.

Definition urlEqb (a b : QUrl) : bool :=
  String.eqb (scheme a) (scheme b)
  && String.eqb (authority a) (authority b)
  && String.eqb (urlPath a) (urlPath b).

Definition isRelative (u : QUrl) : bool := QStr.isEmpty (scheme u).

Definition mergePaths (base rel : string) : string :=
  match QStr.lastIndexOfChar "/" base with
  | Some i => QStr.left (i + 1) base ++ rel
  | None => rel
  end.

Definition resolved (base rel : QUrl) : QUrl :=
  if negb (QStr.isEmpty (scheme rel)) then rel
  else if negb (QStr.isEmpty (authority rel)) then
    {| scheme := scheme base; authority := authority rel;
       urlPath := urlPath rel |}
  else
    {| scheme := scheme base; authority := authority base;
       urlPath :=
         if QStr.isEmpty (urlPath rel) then urlPath base
         else if QStr.startsWithChar (urlPath rel) "/" then urlPath rel
         else mergePaths (urlPath base) (urlPath rel) |}.

Definition setPath (u : QUrl) (p : string) : QUrl :=
  {| scheme := scheme u; authority := authority u; urlPath := p |}.

(** The values of [QNetworkReply::NetworkError] the job tells apart. *)
Inductive NetworkError : Type :=
| NoError
| ContentNotFoundError
| TooManyRedirectsError
| OtherError (code : Z).

Definition isContentNotFound (e : NetworkError) : bool :=
  match e with
  | ContentNotFoundError => true
  | _ => false
  end.

Definition isTooManyRedirects (e : NetworkError) : bool :=
  match e with
  | TooManyRedirectsError => true
  | _ => false
  end.

(** What the job keeps of a [QSslConfiguration]. *)
Record SslConfiguration : Type := {
  peerCertificateChain : list string;
  sessionCipher : option string;
  sessionTicket : string
}.

Record Account : Type := {
  accountUrl : QUrl;
  account_peerCertificateChain : list string;
  account_sessionCipher : option string;
  account_sessionTicket : string
}.

(** [mergeSslConfigurationForSslButton] *)
Definition mergeSslConfigurationForSslButton (config : SslConfiguration)
    (account : Account) : Account :=
  {| accountUrl := accountUrl account;
     account_peerCertificateChain :=
       if (0 <? length (peerCertificateChain config))%nat
       then peerCertificateChain config
       else account_peerCertificateChain account;
     account_sessionCipher :=
       match sessionCipher config with
       | Some c => Some c
       | None => account_sessionCipher account
       end;
     account_sessionTicket :=
       if (0 <? String.length (sessionTicket config))%nat
       then sessionTicket config
       else account_sessionTicket account |}.

Record CheckServerReply : Type := {
  replyUrl : QUrl;
  replyError : NetworkError;
  replySslConfiguration : SslConfiguration;
  replyBody : string;
  replyHttpStatus : Z
}.

Record CheckServerJob : Type := {
  jobPath : string;
  subdirFallback : bool;
  serverUrl : QUrl;
  maxRedirectsAllowed : Z;
  jobAccount : Account
}.

Definition statusphpC : string := "status.php".
Definition owncloudDirC : string := "owncloud/".

(** The constructor: the path is [status.php] and no fallback was tried. *)
Definition newCheckServerJob (account : Account) (maxRedirects : Z)
    : CheckServerJob :=
  {| jobPath := statusphpC; subdirFallback := false;
     serverUrl := accountUrl account;
     maxRedirectsAllowed := maxRedirects; jobAccount := account |}.

(** What the job does that others see: the request [start] sends, given by
    the two arguments of [Utility::concatUrlPath], and the signals. *)
Inductive CheckServerEvent : Type :=
| requestSent (verb : string) (url : QUrl) (path : string)
| redirectDetected (serverUrl targetUrl : QUrl)
| instanceFound (url : QUrl) (info : list (string * Json.value))
| instanceNotFound.

(** [CheckServerJob::start] *)
Definition CheckServerJob_start (job : CheckServerJob)
    : CheckServerJob * list CheckServerEvent :=
  let job' :=
    {| jobPath := jobPath job; subdirFallback := subdirFallback job;
       serverUrl := accountUrl (jobAccount job);
       maxRedirectsAllowed := maxRedirectsAllowed job;
       jobAccount := jobAccount job |} in
  (job', [requestSent "GET" (serverUrl job') (jobPath job')]).

(** [CheckServerJob::finished]: the job afterwards, what it did, and the
    value returned ([false] when the job goes on with another request). *)
Definition CheckServerJob_finished (job : CheckServerJob)
    (reply : CheckServerReply)
    : CheckServerJob * list CheckServerEvent * bool :=
  let targetUrl :=
    let redirectUrl := replyUrl reply in
    let redirectUrl :=
      if isRelative redirectUrl
      then resolved (serverUrl job) redirectUrl else redirectUrl in
    setPath redirectUrl
      (QStr.replace "/status.php" EmptyString (urlPath redirectUrl)) in
  let redirect :=
    if negb (urlEqb (serverUrl job) targetUrl)
    then [redirectDetected (serverUrl job) targetUrl] else [] in
  let job1 :=
    {| jobPath := jobPath job; subdirFallback := subdirFallback job;
       serverUrl := serverUrl job;
       maxRedirectsAllowed := maxRedirectsAllowed job;
       jobAccount :=
         mergeSslConfigurationForSslButton (replySslConfiguration reply)
           (jobAccount job) |} in
  (* The server installs to /owncloud. Let's try that if the file wasn't
     found at the original location *)
  if isContentNotFound (replyError reply) && negb (subdirFallback job1) then
    let job2 :=
      {| jobPath := owncloudDirC ++ statusphpC; subdirFallback := true;
         serverUrl := serverUrl job1;
         maxRedirectsAllowed := maxRedirectsAllowed job1;
         jobAccount := jobAccount job1 |} in
    let '(job3, sent) := CheckServerJob_start job2 in
    (job3, (redirect ++ sent)%list, false)
  else
    let body := QStr.left (4 * 1024) (replyBody reply) in
    let httpStatus := replyHttpStatus reply in
    if isTooManyRedirects (replyError reply) then
      (job1, (redirect ++ [instanceNotFound])%list, true)
    else if QStr.isEmpty body || negb (httpStatus =? 200)%Z then
      (job1, (redirect ++ [instanceNotFound])%list, true)
    else
      let status := Json.fromJson body in
      if Json.contains (Json.object status) "installed" then
        (job1, (redirect ++ [instanceFound targetUrl (Json.object status)])%list,
         true)
      else (job1, (redirect ++ [instanceNotFound])%list, true).

(** The completions of the requests of one job, in order: the job is
    started, and every reply is handed to [finished]. *)
Fixpoint completions (job : CheckServerJob) (replies : list CheckServerReply)
    : list CheckServerEvent :=
  match replies with
  | [] => []
  | reply :: replies' =>
      let '(job', events, _) := CheckServerJob_finished job reply in
      (events ++ completions job' replies')%list
  end.

Definition isRequestSent (e : CheckServerEvent) : bool :=
  match e with
  | requestSent _ _ _ => true
  | _ => false
  end.

(** ** DetermineAuthTypeJob *)

Inductive AuthType : Type := Basic | OAuth.

(** [reply->rawHeader(name)]: header names compare without case; a header
    the reply does not have is the empty byte array. *)
Fixpoint rawHeader (headers : list (string * string)) (name : string)
    : string :=
  match headers with
  | [] => EmptyString
  | (n, v) :: headers' =>
      if String.eqb (QStr.toLower n) (QStr.toLower name) then v
      else rawHeader headers' name
  end.

(** The request of [DetermineAuthTypeJob::start]. *)
Record AuthProbeRequest : Type := {
  probeVerb : string;
  dontAddCredentials : bool;
  authenticationReuseManual : bool;
  probeTimeout : Z;
  ignoreCredentialFailure : bool
}.

Definition DetermineAuthTypeJob_start : AuthProbeRequest :=
  {| probeVerb := "PROPFIND"; dontAddCredentials := true;
     authenticationReuseManual := true; probeTimeout := 30 * 1000;
     ignoreCredentialFailure := true |}.

Inductive AuthProbeEvent : Type :=
| warningNoChallenge
| authType (result : AuthType)
| deleteLater.

(** The slot [DetermineAuthTypeJob::start] connects to the end of the
    request, on the raw headers of the reply. *)
Definition DetermineAuthTypeJob_finished (headers : list (string * string))
    : list AuthProbeEvent :=
  let authChallenge := QStr.toLower (rawHeader headers "WWW-Authenticate") in
  let basic := Basic in
  let outcome :=
    if QStr.contains authChallenge "bearer " then (OAuth, [])
    else if QStr.isEmpty authChallenge then (basic, [warningNoChallenge])
    else (basic, []) in
  (snd outcome ++ [authType (fst outcome); deleteLater])%list.

(** ** Documents

    The documents the properties below are stated over: XML as a tree, and
    the multistatus bodies of RFC 4918 with the tokens a reader yields for
    them. *)

#[local] Unset Elimination Schemes.

Inductive node : Type :=
| Element (namespaceUri name : string) (children : list node)
| Text (text : string)
| CommentNode (text : string)
| Instruction (target : string).

#[local] Set Elimination Schemes.

Fixpoint tokensOf (n : node) : list Xml.token :=
  match n with
  | Element ns name children =>
      (Xml.StartElement ns name :: flat_map tokensOf children
       ++ [Xml.EndElement ns name])%list
  | Text s => [Xml.Characters s]
  | CommentNode s => [Xml.Comment s]
  | Instruction target => [Xml.ProcessingInstruction target]
  end.

Definition tokensOfNodes (ns : list node) : list Xml.token :=
  flat_map tokensOf ns.


(** The content of an element written back as text: tags by their local
    names, character data as it is. *)
Fixpoint contentOf (n : node) : string :=
  match n with
  | Element _ name children =>
      "<" ++ name ++ ">"
      ++ fold_right (fun c acc => contentOf c ++ acc) EmptyString children
      ++ "</" ++ name ++ ">"
  | Text s => s
  | CommentNode _ | Instruction _ => EmptyString
  end.

Definition contentOfNodes (ns : list node) : string :=
  fold_right (fun c acc => contentOf c ++ acc) EmptyString ns.

(** The character data directly inside an element. *)
Definition textOf (n : node) : string :=
  match n with
  | Text s => s
  | _ => EmptyString
  end.

Definition textOfNodes (ns : list node) : string :=
  fold_right (fun c acc => textOf c ++ acc) EmptyString ns.


(** A multistatus body: responses, each with its href and its propstat
    blocks; a block has properties and, possibly, a status line. *)
Record Property : Type := {
  prop_ns : string;
  prop_name : string;
  prop_content : list node
}.

Record Propstat : Type := {
  ps_props : list Property;
  ps_status : option string
}.

Record Response : Type := {
  resp_href : string;
  resp_propstats : list Propstat
}.

(** Tokens the loop of [parse] passes over wherever they stand between two
    elements: white space and other character data, comments, processing
    instructions. *)
Definition ignorable (t : Xml.token) : bool :=
  match t with
  | Xml.Characters _ | Xml.Comment _ | Xml.ProcessingInstruction _ => true
  | _ => false
  end.

(** The character data of a text as the reader reports it: no token for
    the empty text. *)
Definition charactersOf (s : string) : list Xml.token :=
  if QStr.isEmpty s then [] else [Xml.Characters s].

Definition tokensOfProperty (p : Property) : list Xml.token :=
  (Xml.StartElement (prop_ns p) (prop_name p)
   :: tokensOfNodes (prop_content p)
   ++ [Xml.EndElement (prop_ns p) (prop_name p)])%list.

(** What may stand between two elements of the body. *)
Definition isGap (g : list Xml.token) : Prop := forallb ignorable g = true.

(** The tokens of a sequence of items, each followed by a gap. *)
Inductive sequenceTokens {A : Type} (one : A -> list Xml.token -> Prop)
    : list A -> list Xml.token -> Prop :=
| sequence_nil : sequenceTokens one [] []
| sequence_cons a l t g ts :
    one a t -> isGap g -> sequenceTokens one l ts ->
    sequenceTokens one (a :: l) (t ++ g ++ ts)%list.

Definition propertyTokens (p : Property) (toks : list Xml.token) : Prop :=
  toks = tokensOfProperty p.

Definition statusTokens (status : option string) (g : list Xml.token)
    : list Xml.token :=
  match status with
  | Some s =>
      ([Xml.StartElement DAV "status"] ++ charactersOf s
       ++ [Xml.EndElement DAV "status"] ++ g)%list
  | None => []
  end.

(** The tokens of a propstat block, of a response and of a whole body:
    the elements of RFC 4918 in their order, with gaps between them. *)
Inductive propstatTokens : Propstat -> list Xml.token -> Prop :=
| propstat_tokens ps g1 g2 g3 g4 toks :
    isGap g1 -> isGap g2 -> isGap g3 -> isGap g4 ->
    sequenceTokens propertyTokens (ps_props ps) toks ->
    propstatTokens ps
      ([Xml.StartElement DAV "propstat"] ++ g1
       ++ [Xml.StartElement DAV "prop"] ++ g2
       ++ toks
       ++ [Xml.EndElement DAV "prop"] ++ g3
       ++ statusTokens (ps_status ps) g4
       ++ [Xml.EndElement DAV "propstat"])%list.

Inductive responseTokens : Response -> list Xml.token -> Prop :=
| response_tokens r g1 g2 toks :
    isGap g1 -> isGap g2 ->
    sequenceTokens propstatTokens (resp_propstats r) toks ->
    responseTokens r
      ([Xml.StartElement DAV "response"] ++ g1
       ++ [Xml.StartElement DAV "href"] ++ charactersOf (resp_href r)
       ++ [Xml.EndElement DAV "href"] ++ g2
       ++ toks
       ++ [Xml.EndElement DAV "response"])%list.

Inductive multistatusTokens : list Response -> list Xml.token -> Prop :=
| multistatus_tokens doc g0 g1 g2 toks :
    isGap g0 -> isGap g1 -> isGap g2 ->
    sequenceTokens responseTokens doc toks ->
    multistatusTokens doc
      ([Xml.StartDocument] ++ g0
       ++ [Xml.StartElement DAV "multistatus"] ++ g1
       ++ toks
       ++ [Xml.EndElement DAV "multistatus"] ++ g2
       ++ [Xml.EndDocument])%list.

Section Multistatus.

(** The tokens of a body with the same gap between all its elements. *)
Variable gap : list Xml.token.

Definition tokensOfPropstat (ps : Propstat) : list Xml.token :=
  ([Xml.StartElement DAV "propstat"] ++ gap
   ++ [Xml.StartElement DAV "prop"] ++ gap
   ++ flat_map (fun p => tokensOfProperty p ++ gap) (ps_props ps)
   ++ [Xml.EndElement DAV "prop"] ++ gap
   ++ statusTokens (ps_status ps) gap
   ++ [Xml.EndElement DAV "propstat"])%list.

Definition tokensOfResponse (r : Response) : list Xml.token :=
  ([Xml.StartElement DAV "response"] ++ gap
   ++ [Xml.StartElement DAV "href"] ++ charactersOf (resp_href r)
   ++ [Xml.EndElement DAV "href"] ++ gap
   ++ flat_map (fun ps => tokensOfPropstat ps ++ gap) (resp_propstats r)
   ++ [Xml.EndElement DAV "response"])%list.

Definition tokensOfMultistatus (doc : list Response) : list Xml.token :=
  ([Xml.StartDocument] ++ []
   ++ [Xml.StartElement DAV "multistatus"] ++ gap
   ++ flat_map (fun r => tokensOfResponse r ++ gap) doc
   ++ [Xml.EndElement DAV "multistatus"] ++ []
   ++ [Xml.EndDocument])%list.

End Multistatus.

(** A property is an element of its own: in the DAV namespace it bears none
    of the names of the multistatus grammar that the parser reads as
    structure. *)
Definition plainProperty (p : Property) : bool :=
  negb (String.eqb (prop_ns p) DAV
        && (String.eqb (prop_name p) "href"
            || String.eqb (prop_name p) "status"
            || String.eqb (prop_name p) "prop"
            || String.eqb (prop_name p) "multistatus")).

(** The href of a response as the parser sees it, and as it is published. *)
Definition decodedHref (r : Response) : string :=
  QStr.fromPercentEncoding (resp_href r).

Definition publishedHref (r : Response) : string :=
  if QStr.endsWithChar (decodedHref r) "/"
  then QStr.chop1 (decodedHref r) else decodedHref r.

(** A well-formed multistatus body for the request path [expectedPath]. *)
Definition wellFormedResponse (expectedPath : string) (r : Response) : bool :=
  QStr.startsWith (decodedHref r) expectedPath
  && forallb (fun ps => forallb plainProperty (ps_props ps))
       (resp_propstats r).

Definition wellFormed (expectedPath : string) (doc : list Response) : bool :=
  forallb (wellFormedResponse expectedPath) doc.

(** The status line of the block starts with [HTTP/1.1 200]. *)
Definition is200 (ps : Propstat) : bool :=
  match ps_status ps with
  | Some s => QStr.startsWith s "HTTP/1.1 200"
  | None => false
  end.

(** The properties of a block as a mapping from local name to content; of
    two properties of one name the later one stays. *)
Definition propertiesOf (ps : Propstat) : gmap string string :=
  fold_left
    (fun m p => <[prop_name p := contentOfNodes (prop_content p)]> m)
    (ps_props ps) ∅.

(** The last block of the response with a 200 status, if there is one. *)
Definition last200 (r : Response) : option Propstat :=
  find is200 (rev (resp_propstats r)).

Definition publishedProperties (r : Response) : gmap string string :=
  match last200 r with
  | Some ps => propertiesOf ps
  | None => ∅
  end.

(** The entry published for a response. *)
Definition entryOf (r : Response) : LsColSignal :=
  directoryListingIterated (publishedHref r) (publishedProperties r).

(** A [resourcetype] property whose content mentions [collection]. *)
Definition isCollectionProperty (p : Property) : bool :=
  String.eqb (prop_name p) "resourcetype"
  && QStr.contains (contentOfNodes (prop_content p)) "collection".

(** The size a [size] property gives, if its content is a number. *)
Definition sizeOfProperty (p : Property) : option Z :=
  if isCollectionProperty p then None
  else if String.eqb (prop_name p) "size"
  then QStr.toLongLong (contentOfNodes (prop_content p))
  else None.

(** All properties of a response, whatever the status of their block. *)
Definition allProperties (r : Response) : list Property :=
  flat_map ps_props (resp_propstats r).

Definition foldersOfResponse (r : Response) : list string :=
  flat_map
    (fun p => if isCollectionProperty p then [decodedHref r] else [])
    (allProperties r).

Definition foldersOf (doc : list Response) : list string :=
  flat_map foldersOfResponse doc.

Definition recordSize (href : string) (h : gmap string Z) (p : Property)
    : gmap string Z :=
  match sizeOfProperty p with
  | Some s => <[href := s]> h
  | None => h
  end.

Definition sizesOfResponse (h : gmap string Z) (r : Response)
    : gmap string Z :=
  fold_left (recordSize (decodedHref r)) (allProperties r) h.

Definition sizesOf (h : gmap string Z) (doc : list Response)
    : gmap string Z :=
  fold_left sizesOfResponse doc h.







(** What a completion of the discovery reports. *)
Definition reportsInstanceFound (events : list CheckServerEvent) : bool :=
  existsb
    (fun e => match e with instanceFound _ _ => true | _ => false end)
    events.

Definition reportsInstanceNotFound (events : list CheckServerEvent) : bool :=
  existsb
    (fun e => match e with instanceNotFound => true | _ => false end)
    events.

(** The completion is the one that starts the fallback request. *)
Definition isFallbackRetry (job : CheckServerJob) (reply : CheckServerReply)
    : bool :=
  isContentNotFound (replyError reply) && negb (subdirFallback job).

(** The conditions of a successful discovery, on the first 4096 bytes of
    the body, which is what [finished] looks at. *)
Definition discoverySucceeds (reply : CheckServerReply) : bool :=
  let body := QStr.left 4096 (replyBody reply) in
  negb (isTooManyRedirects (replyError reply))
  && negb (QStr.isEmpty body)
  && (replyHttpStatus reply =? 200)%Z
  && match Json.fromJson body with
     | Some (Json.Object members) => Json.contains members "installed"
     | _ => false
     end.

(** The same conditions on the whole body of the reply. *)
Definition discoveryConditionsOnBody (reply : CheckServerReply) : bool :=
  negb (QStr.isEmpty (replyBody reply))
  && (replyHttpStatus reply =? 200)%Z
  && match Json.fromJson (replyBody reply) with
     | Some (Json.Object members) => Json.contains members "installed"
     | _ => false
     end.

(** [n] copies of the character [c]. *)
Fixpoint padding (n : nat) (c : ascii) : string :=
  match n with
  | O => EmptyString
  | S n' => String c (padding n' c)
  end.

(** The entries of a property map that the body of a PROPPATCH carries as
    they are: the name after the last colon of the key is a name of ASCII
    letters, digits, [-], [_] and [.]; the namespace before the colon and
    the value are UTF-8 text of tabs, line feeds and the characters from
    the space on, without [<] and [&]; the namespace has no double quote
    and is none of the two namespaces XML reserves, the value has no
    []]>]. *)
Definition isPlainChar (c : ascii) : bool :=
  Xml.isModelByte c && negb (Ascii.eqb c "<").

Definition isPlainAttributeChar (c : ascii) : bool :=
  isPlainChar c && negb (Ascii.eqb c (ascii_of_nat 34)).

Definition plainName (s : string) : bool :=
  match s with
  | EmptyString => false
  | String c _ =>
      Xml.isNameStartChar c && isAscii c
      && forallChars (fun c => Xml.isNameChar c && isAscii c) s
  end.

Definition plainValue (value : string) : bool :=
  forallChars isPlainChar value && Xml.isUtf8 value
  && negb (QStr.contains value "]]>").

Definition plainNamespace (ns : string) : bool :=
  forallChars isPlainAttributeChar ns && Xml.isUtf8 ns
  && negb (Xml.isReservedNamespace ns).

Definition plainEntry (entry : string * string) : bool :=
  plainName (keyNameOf (fst entry))
  && plainNamespace (keyNsOf (fst entry))
  && plainValue (snd entry).

(** What the reader of [PropfindJob::finished] has in [items] after the
    elements of the entries: each value under the name of its key. *)
Definition itemsOf (properties : list (string * string))
    : gmap string string :=
  fold_left (fun m entry => <[keyNameOf (fst entry) := snd entry]> m)
    properties ∅.

(** The entries as a mapping from key to value. *)
Definition mapOf (properties : list (string * string)) : gmap string string :=
  fold_left (fun m entry => <[fst entry := snd entry]> m) properties ∅.

(** ** Entity tags, piece by piece *)

(** A character that does not continue an occurrence of [-gzip]. *)
Definition gzipBreak (s : string) : bool :=
  match s with
  | EmptyString => true
  | String c _ =>
      negb (Ascii.eqb c "g" || Ascii.eqb c "z" || Ascii.eqb c "i" || Ascii.eqb c "p")
  end.

(** A header read as the pieces [parts] with [-gzip] between each two of
    them, after the prefix [W/] when [weak]: no piece has a [-gzip] of its
    own, and a header read as not weak does not start with [W/]. *)
Definition gzipFree (p : string) : bool := negb (QStr.contains p "-gzip").

Definition etagReading (header : string) (weak : bool) (parts : list string)
    : Prop :=
  header = (if weak then "W/" else EmptyString) ++ String.concat "-gzip" parts
  /\ forallb gzipFree parts = true
  /\ (weak = false -> QStr.startsWith header "W/" = false).

(** ** Reading loops, as relations *)

Section ReaderLoopDefinitions.

Context {S R : Type}.
Variable body : S -> Xml.reader -> S * Xml.reader + R.

(** An iteration that goes on leaves fewer tokens to read, or the reader at
    its end. *)
Definition progresses : Prop :=
  forall st r st' r',
    Xml.atEnd r = false ->
    body st r = inl (st', r') ->
    Xml.atEnd r' = true
    \/ (length (Xml.rest r') < length (Xml.rest r))%nat.

(** The loop goes through the tokens [toks], wherever they stand, from
    state [st] to state [st'], when the token the reader is on neither ends
    the document nor is an error ([live]). *)
Definition live (c : Xml.token) : Prop := Xml.atEnd (Xml.Reader c []) = false.

Definition runs (st : S) (toks : list Xml.token) (st' : S) : Prop :=
  forall c rest, live c ->
    exists c', live c'
      /\ Xml.iterates body (st, Xml.Reader c (toks ++ rest)%list)
           (st', Xml.Reader c' rest).

End ReaderLoopDefinitions.

(** ** The states of the multistatus parser *)

(** The state after a property was read. *)
Definition afterProperty (st : ParseState) (p : Property) : ParseState :=
  fst (propertyElement (prop_name p) st
         (Xml.Reader (Xml.StartElement (prop_ns p) (prop_name p))
            (tokensOfNodes (prop_content p)
             ++ [Xml.EndElement (prop_ns p) (prop_name p)])%list)).

(** The folder a property adds for the response with href [href], the sizes
    hash after the properties [ps], and the mapping after them. *)
Definition collected (href : string) (p : Property) : list string :=
  if isCollectionProperty p then [href] else [].

Definition recorded (href : string) (sizes : option (gmap string Z))
    (ps : list Property) : option (gmap string Z) :=
  match sizes with
  | Some h => Some (fold_left (recordSize href) ps h)
  | None => None
  end.

Definition inserted (m : gmap string string) (ps : list Property)
    : gmap string string :=
  fold_left
    (fun m p => <[prop_name p := contentOfNodes (prop_content p)]> m) ps m.

(** The state after a propstat block. *)
Definition afterPropstat (st : ParseState) (ps : Propstat) : ParseState :=
  {| folders := folders st ++ flat_map (collected (currentHref st)) (ps_props ps);
     currentHref := currentHref st;
     currentTmpProperties := ∅;
     currentHttp200Properties :=
       if is200 ps then propertiesOf ps else currentHttp200Properties st;
     currentPropsHaveHttp200 := false;
     insidePropstat := false;
     insideProp := false;
     insideMultiStatus := insideMultiStatus st;
     sizes := recorded (currentHref st) (sizes st) (ps_props ps);
     emitted := emitted st |}.

(** Between two blocks nothing is pending. *)
Definition idle (st : ParseState) : Prop :=
  currentTmpProperties st = ∅
  /\ currentPropsHaveHttp200 st = false
  /\ insidePropstat st = false
  /\ insideProp st = false.

(** The properties that stand as published after the blocks [pss]. *)
Definition publishedAfter (m : gmap string string) (pss : list Propstat)
    : gmap string string :=
  fold_left (fun acc ps => if is200 ps then propertiesOf ps else acc) pss m.

(** The state a response is read in, and the state after it. *)
Definition ready (st : ParseState) : Prop :=
  idle st /\ currentHttp200Properties st = ∅.

Definition afterResponse (st : ParseState) (r : Response) : ParseState :=
  {| folders := folders st ++ foldersOfResponse r;
     currentHref := EmptyString;
     currentTmpProperties := ∅;
     currentHttp200Properties := ∅;
     currentPropsHaveHttp200 := false;
     insidePropstat := false;
     insideProp := false;
     insideMultiStatus := insideMultiStatus st;
     sizes :=
       match sizes st with
       | Some h => Some (sizesOfResponse h r)
       | None => None
       end;
     emitted := emitted st ++ [entryOf r] |}.

(** What [parse] leaves behind for a well-formed body. *)
Definition parsed (sizes : option (gmap string Z)) (doc : list Response)
    : ParseResult :=
  {| returned := true;
     signals :=
       map entryOf doc
       ++ [directoryListingSubfolders (foldersOf doc); finishedWithoutError];
     sizesAfter :=
       match sizes with
       | Some h => Some (sizesOf h doc)
       | None => None
       end |}.

(** The body [doc] with the status line of every block replaced. *)
Definition withStatus (status : Propstat -> option string) (r : Response)
    : Response :=
  {| resp_href := resp_href r;
     resp_propstats :=
       map (fun ps => {| ps_props := ps_props ps; ps_status := status ps |})
         (resp_propstats r) |}.

(** ** Lexing and reading the body of a PROPPATCH *)

(** The mode of the first pass after the characters of [s], read inside a
    tag; [None] when the tag ends or breaks within [s]. *)
Fixpoint tagScan (m : Xml.lexMode) (s : string) : option Xml.lexMode :=
  match s with
  | EmptyString => Some m
  | String c s' =>
      match m with
      | Xml.MText => None
      | Xml.MTag =>
          if Ascii.eqb c ">" then None
          else if Ascii.eqb c "<" then None
          else if Xml.isQuote c
          then tagScan (Xml.MQuote c) s'
          else tagScan Xml.MTag s'
      | Xml.MQuote q =>
          if Ascii.eqb c q then tagScan Xml.MTag s'
          else if Ascii.eqb c "<" then None
          else tagScan (Xml.MQuote q) s'
      end
  end.

(** Characters that are no markup: outside a tag, and inside one. *)
Definition notLt (c : ascii) : bool := negb (Ascii.eqb c "<").

Definition tagPlain (c : ascii) : bool :=
  negb (Ascii.eqb c ">") && negb (Ascii.eqb c "<")
  && negb (Ascii.eqb c (ascii_of_nat 34)) && negb (Ascii.eqb c "'").

(** The tags [ProppatchJob::start] writes for a key. *)
Definition attributeOf (key : string) : string :=
  if negb (QStr.isEmpty (keyNsOf key))
  then " xmlns=" ++ QStr.dq ++ keyNsOf key ++ QStr.dq ++ " "
  else EmptyString.

Definition openTagOf (key : string) : string :=
  keyNameOf key ++ attributeOf key.

Definition closeTagOf (key : string) : string := "/" ++ keyNameOf key.

(** What the first pass makes of the element of one entry; the text before
    its start tag begins with the line feed that ends the line before. *)
Definition chunksOfEntry (entry : string * string) : list Xml.chunk :=
  ([Xml.CText (nl ++ "    "); Xml.CTag (openTagOf (fst entry))]
   ++ (if QStr.isEmpty (snd entry) then [] else [Xml.CText (snd entry)])
   ++ [Xml.CTag (closeTagOf (fst entry))])%list.

(** The body of a PROPPATCH after its XML declaration. *)
Definition proppatchRoot (properties : list (string * string)) : string :=
  nl ++ "<d:propertyupdate xmlns:d=" ++ QStr.dq ++ "DAV:" ++ QStr.dq ++ ">"
  ++ nl ++ "  <d:set><d:prop>" ++ nl
  ++ proppatchPropStr properties
  ++ "  </d:prop></d:set>" ++ nl
  ++ "</d:propertyupdate>" ++ nl.

(** The tag before the entries. *)
Definition propertyupdateTag : string :=
  "d:propertyupdate xmlns:d=" ++ QStr.dq ++ "DAV:" ++ QStr.dq.

(** [s] is empty or starts with a character that [p] rejects, or that
    cannot go on a name. *)
Definition stops (p : ascii -> bool) (s : string) : bool :=
  match s with
  | EmptyString => true
  | String c _ => negb (p c)
  end.

Definition endsName (s : string) : bool :=
  match s with
  | EmptyString => true
  | String c _ => negb (Xml.isNameChar c) && negb (Ascii.eqb c ":")
  end.

(** The attributes and the tokens of the element of one entry. *)
Definition attributesOf (key : string) : list Xml.attribute :=
  if negb (QStr.isEmpty (keyNsOf key))
  then [((EmptyString, "xmlns"), Xml.normalized (keyNsOf key))]
  else [].

Definition tokensOfEntry (entry : string * string) : list Xml.token :=
  let ns := Xml.normalized (keyNsOf (fst entry)) in
  ([Xml.Characters (nl ++ "    ");
    Xml.StartElement ns (keyNameOf (fst entry))]
   ++ (if QStr.isEmpty (snd entry) then []
       else [Xml.Characters (snd entry)])
   ++ [Xml.EndElement ns (keyNameOf (fst entry))])%list.

(** The tokens of the body of a PROPPATCH. *)
Definition tokensOfProppatch (properties : list (string * string))
    : list Xml.token :=
  ([Xml.StartDocument; Xml.StartElement DAV "propertyupdate";
    Xml.Characters (nl ++ "  "); Xml.StartElement DAV "set";
    Xml.StartElement DAV "prop"]
   ++ flat_map tokensOfEntry properties
   ++ [Xml.Characters (nl ++ "  "); Xml.EndElement DAV "prop";
       Xml.EndElement DAV "set"; Xml.Characters nl;
       Xml.EndElement DAV "propertyupdate"; Xml.EndDocument])%list.

(** ** Samples *)

(** Bodies, replies and maps the properties below are shown on. *)
Definition sampleBody : list Response :=
  [ {| resp_href := "/dav/folder/";
       resp_propstats :=
         [ {| ps_props :=
                [ {| prop_ns := DAV; prop_name := "getetag";
                     prop_content := [Text "abc"] |};
                  {| prop_ns := DAV; prop_name := "resourcetype";
                     prop_content := [Element DAV "collection" []] |} ];
              ps_status := Some "HTTP/1.1 200 OK" |};
           {| ps_props :=
                [ {| prop_ns := "http://owncloud.org/ns"; prop_name := "size";
                     prop_content := [Text "12"] |};
                  {| prop_ns := DAV; prop_name := "getcontentlength";
                     prop_content := [] |} ];
              ps_status := Some "HTTP/1.1 404 Not Found" |} ] |};
    {| resp_href := "/dav/folder/a%20b.txt";
       resp_propstats :=
         [ {| ps_props :=
                [ {| prop_ns := DAV; prop_name := "resourcetype";
                     prop_content := [Element DAV "collection" []] |} ];
              ps_status := Some "HTTP/1.1 404 Not Found" |} ] |} ].

(** The body [sampleBody] as a text, with a space between its elements. *)
Definition sampleBodyText : string :=
  "<?xml version='1.0'?>"
  ++ "<d:multistatus xmlns:d='DAV:' xmlns:oc='http://owncloud.org/ns'> "
  ++ "<d:response> <d:href>/dav/folder/</d:href> "
  ++ "<d:propstat> <d:prop> <d:getetag>abc</d:getetag> "
  ++ "<d:resourcetype><d:collection/></d:resourcetype> </d:prop> "
  ++ "<d:status>HTTP/1.1 200 OK</d:status> </d:propstat> "
  ++ "<d:propstat> <d:prop> <oc:size>12</oc:size> "
  ++ "<d:getcontentlength></d:getcontentlength> </d:prop> "
  ++ "<d:status>HTTP/1.1 404 Not Found</d:status> </d:propstat> "
  ++ "</d:response> "
  ++ "<d:response> <d:href>/dav/folder/a%20b.txt</d:href> "
  ++ "<d:propstat> <d:prop> "
  ++ "<d:resourcetype><d:collection/></d:resourcetype> </d:prop> "
  ++ "<d:status>HTTP/1.1 404 Not Found</d:status> </d:propstat> "
  ++ "</d:response> "
  ++ "</d:multistatus>".

Definition sizeProperty (content : string) : Property :=
  {| prop_ns := "http://owncloud.org/ns"; prop_name := "size";
     prop_content := [Text content] |}.

Definition bodyWithBadSize : string :=
  "<?xml version='1.0'?>"
  ++ "<d:multistatus xmlns:d='DAV:' xmlns:oc='http://owncloud.org/ns'>"
  ++ "<d:response><d:href>/dav/file.txt</d:href>"
  ++ "<d:propstat><d:prop><oc:size>abc</oc:size></d:prop>"
  ++ "<d:status>HTTP/1.1 200 OK</d:status></d:propstat>"
  ++ "</d:response></d:multistatus>".

Definition bodyWithForeignHref : list Response :=
  [ {| resp_href := "/dav/folder/";
       resp_propstats :=
         [ {| ps_props :=
                [ {| prop_ns := DAV; prop_name := "getetag";
                     prop_content := [Text "abc"] |} ];
              ps_status := Some "HTTP/1.1 200 OK" |} ] |};
    {| resp_href := "/elsewhere/file";
       resp_propstats :=
         [ {| ps_props :=
                [ {| prop_ns := DAV; prop_name := "getetag";
                     prop_content := [Text "def"] |} ];
              ps_status := Some "HTTP/1.1 200 OK" |} ] |} ].

Definition bodyWithOwnerHref : string :=
  "<?xml version='1.0'?>"
  ++ "<d:multistatus xmlns:d='DAV:'>"
  ++ "<d:response><d:href>/dav/file.txt</d:href>"
  ++ "<d:propstat><d:prop>"
  ++ "<d:owner><d:href>/elsewhere/principal</d:href></d:owner>"
  ++ "</d:prop><d:status>HTTP/1.1 200 OK</d:status></d:propstat>"
  ++ "</d:response></d:multistatus>".



Definition plainUrl : QUrl :=
  {| scheme := "https"; authority := "cloud.example.org";
     urlPath := EmptyString |}.

Definition noSsl : SslConfiguration :=
  {| peerCertificateChain := []; sessionCipher := None;
     sessionTicket := EmptyString |}.

Definition plainAccount : Account :=
  {| accountUrl := plainUrl; account_peerCertificateChain := [];
     account_sessionCipher := None; account_sessionTicket := EmptyString |}.

Definition startedJob : CheckServerJob :=
  fst (CheckServerJob_start (newCheckServerJob plainAccount 10)).

Definition statusReply (body : string) : CheckServerReply :=
  {| replyUrl :=
       {| scheme := "https"; authority := "cloud.example.org";
          urlPath := "/status.php" |};
     replyError := NoError; replySslConfiguration := noSsl;
     replyBody := body; replyHttpStatus := 200 |}.

Definition installedMember : string :=
  "{" ++ QStr.dq ++ "installed" ++ QStr.dq ++ ":true,".

Definition smallStatus : string :=
  installedMember ++ QStr.dq ++ "version" ++ QStr.dq ++ ":"
  ++ QStr.dq ++ "10.11.0" ++ QStr.dq ++ "}".

Definition longStatus : string :=
  installedMember ++ QStr.dq ++ "motd" ++ QStr.dq ++ ":"
  ++ QStr.dq ++ padding 5000 "x" ++ QStr.dq ++ "}".

Definition notFoundReply : CheckServerReply :=
  {| replyUrl :=
       {| scheme := "https"; authority := "cloud.example.org";
          urlPath := "/status.php" |};
     replyError := ContentNotFoundError; replySslConfiguration := noSsl;
     replyBody := "<html>404</html>"; replyHttpStatus := 404 |}.

Definition realm (schemeName : string) : string :=
  schemeName ++ " realm=" ++ QStr.dq ++ "x" ++ QStr.dq.

(** A value of several lines, with accents, a tab and a [>]. *)
Definition sampleComment : string :=
  "d" ++ String (ascii_of_nat 195) (String (ascii_of_nat 169) "j")
  ++ String (ascii_of_nat 195) (String (ascii_of_nat 160) " vu,")
  ++ nl ++ String (ascii_of_nat 9) "a > b".

Definition sampleProperties : list (string * string) :=
  [("comment", sampleComment);
   ("displayname", "Quarterly report");
   ("http://owncloud.org/ns:favorite", "1");
   ("http://owncloud.org/ns:tags", EmptyString)].

(** ** Definitions for the further properties *)

(** ** Readers that go on, and bodies that break off *)

(** [advances r r']: the reader [r'] is [r] after some calls of [readNext],
    [readElementText] and [readContentsAsString]. *)
Inductive advances : Xml.reader -> Xml.reader -> Prop :=
| advances_refl r : advances r r
| advances_readNext r r' : advances (Xml.readNext r) r' -> advances r r'
| advances_readElementText b r r' :
    advances (snd (Xml.readElementText b r)) r' -> advances r r'
| advances_readContentsAsString r r' :
    advances (snd (readContentsAsString r)) r' -> advances r r'.

(** The tokens of a body that is no whole XML document: they come to an
    error, or to their end, before the end of a document. *)
Fixpoint breaksOff (tokens : list Xml.token) : bool :=
  match tokens with
  | [] => true
  | Xml.Invalid :: _ => true
  | Xml.EndDocument :: _ => false
  | _ :: tokens' => breaksOff tokens'
  end.

Definition isEndDocument (t : Xml.token) : bool :=
  match t with
  | Xml.EndDocument => true
  | _ => false
  end.

(** A reader over such tokens: in an error already, or before one. *)
Definition brokenOff (r : Xml.reader) : bool :=
  Xml.hasError r
  || (negb (isEndDocument (Xml.cur r)) && breaksOff (Xml.rest r)).

(** The start tag of a [multistatus] element of the DAV namespace. *)
Definition isMultistatusStart (t : Xml.token) : bool :=
  Xml.isStartElement t
  && String.eqb (Xml.tokenNamespaceUri t) DAV
  && String.eqb (Xml.tokenName t) "multistatus".

(** The signal of one entry. *)
Definition isIterated (sig : LsColSignal) : bool :=
  match sig with
  | directoryListingIterated _ _ => true
  | _ => false
  end.

(** Bodies that are no listing: the error document of the server, and a
    listing that stops in the middle. *)
Definition errorBody : string :=
  "<?xml version='1.0' encoding='utf-8'?>"
  ++ "<d:error xmlns:d='DAV:' xmlns:s='http://sabredav.org/ns'>"
  ++ "<s:exception>Sabre\DAV\Exception\NotFound</s:exception>"
  ++ "<s:message>File not found</s:message>"
  ++ "</d:error>".

Definition truncatedBody : string :=
  "<?xml version='1.0'?>"
  ++ "<d:multistatus xmlns:d='DAV:'>"
  ++ "<d:response><d:href>/dav/a.txt</d:href>"
  ++ "<d:propstat><d:prop><d:getetag>x</d:getetag></d:prop>"
  ++ "<d:status>HTTP/1.1 200 OK</d:status></d:propstat></d:response>"
  ++ "<d:response><d:href>/dav/b.txt</d:hr".

(** The result of [parse] with the hash of sizes left out. *)
Definition withoutSizes (res : ParseResult) : ParseResult :=
  {| returned := returned res; signals := signals res; sizesAfter := None |}.

(** The state of [parse] when [sizes] is a null pointer. *)
Definition eraseSizes (st : ParseState) : ParseState := set_sizes st None.

(** What [PropfindJob::finished] has in [items] after the properties [ps]:
    each under its local name, with the character data directly inside
    it. *)
Definition itemsAfter (ps : list Property) (m : gmap string string)
    : gmap string string :=
  fold_left (fun m p => <[prop_name p := textOfNodes (prop_content p)]> m)
    ps m.

(** The items of a multistatus body: the properties of all blocks of all
    responses, in document order. *)
Definition propfindItems (doc : list Response) : gmap string string :=
  itemsAfter (flat_map allProperties doc) ∅.

(** The top of the stack [curElement] is not [prop]. *)
Definition offProp (stack : list string) : bool :=
  match stack with
  | top :: _ => negb (String.eqb top "prop")
  | [] => true
  end.

(** A signal that tells the outcome of the discovery. *)
Definition isOutcome (e : CheckServerEvent) : bool :=
  match e with
  | instanceFound _ _ | instanceNotFound => true
  | _ => false
  end.

(** ** fetchPrivateLinkUrl *)

(** The properties [fetchPrivateLinkUrl] asks for. *)
Definition fetchPrivateLinkUrl_properties : list string :=
  ["http://owncloud.org/ns:fileid"; "http://owncloud.org/ns:privatelink"].

(** The slot [fetchPrivateLinkUrl] connects to [PropfindJob::result]: the
    calls of [targetFun] it makes.  A key the map does not have gives the
    empty string. *)
Definition fetchPrivateLinkUrl_result (result : gmap string string)
    : list string :=
  let privateLinkUrl := default EmptyString (result !! "privatelink") in
  let numericFileId := default EmptyString (result !! "fileid") in
  if negb (QStr.isEmpty privateLinkUrl) then [privateLinkUrl] else [].

(** The calls of [targetFun] when the job of [fetchPrivateLinkUrl] has
    finished with the given reply: the slot runs once for each [result]
    signal. *)
Definition fetchPrivateLinkUrl_calls (signals : list PropfindSignal)
    : list string :=
  flat_map
    (fun sig =>
       match sig with
       | result items => fetchPrivateLinkUrl_result items
       | propfindFinishedWithError => []
       end)
    signals.

(** A reply to the request of [fetchPrivateLinkUrl]. *)
Definition privateLinkDocument : list Response :=
  [ {| resp_href := "/dav/a.txt";
       resp_propstats :=
         [ {| ps_props :=
                [ {| prop_ns := "http://owncloud.org/ns";
                     prop_name := "fileid"; prop_content := [Text "42"] |};
                  {| prop_ns := "http://owncloud.org/ns";
                     prop_name := "privatelink";
                     prop_content := [Text "https://cloud.example/f/42"] |} ];
              ps_status := Some "HTTP/1.1 200 OK" |} ] |} ].

Definition privateLinkBody : string :=
  "<?xml version='1.0'?>"
  ++ "<d:multistatus xmlns:d='DAV:' xmlns:oc='http://owncloud.org/ns'>"
  ++ "<d:response><d:href>/dav/a.txt</d:href>"
  ++ "<d:propstat><d:prop><oc:fileid>42</oc:fileid>"
  ++ "<oc:privatelink>https://cloud.example/f/42</oc:privatelink></d:prop>"
  ++ "<d:status>HTTP/1.1 200 OK</d:status></d:propstat>"
  ++ "</d:response></d:multistatus>".

Definition isRedirectDetected (e : CheckServerEvent) : bool :=
  match e with
  | redirectDetected _ _ => true
  | _ => false
  end.

(** A reply that comes from the directory [/cloud] of the server. *)
Definition movedReply : CheckServerReply :=
  {| replyUrl :=
       {| scheme := "https"; authority := "cloud.example.org";
          urlPath := "/cloud/status.php" |};
     replyError := NoError; replySslConfiguration := noSsl;
     replyBody := smallStatus; replyHttpStatus := 200 |}.

(** ** JsonApiJob *)

(** [QString::toInt()]: the number the string spells in base 10, and 0
    when it spells none or one that does not fit an [int]. *)
Definition toInt (s : string) : Z :=
  match QStr.toLongLong s with
  | Some v => if ((- 2 ^ 31 <=? v) && (v <? 2 ^ 31))%Z then v else 0%Z
  | None => 0%Z
  end.

(** The two patterns of [JsonApiJob::finished] have the form
    [before(\d+)after], read here over ASCII text.  Such a pattern matches
    at the start of [s] when [before] stands there, followed by digits, at
    least one, and [after] follows the last of them; the digits are what it
    captures.  [firstMatch] is the match [contains(rex)] finds, the one
    that starts first, whose capture [rex.cap(1)] returns. *)
Definition matchHere (before after s : string) : option string :=
  if QStr.startsWith s before then
    let '(ds, r) :=
      Xml.span QStr.isDigit (QStr.midFrom (String.length before) s) in
    if negb (QStr.isEmpty ds) && QStr.startsWith r after then Some ds
    else None
  else None.

Fixpoint firstMatch (before after s : string) : option string :=
  match matchHere before after s with
  | Some ds => Some ds
  | None =>
      match s with
      | EmptyString => None
      | String _ s' => firstMatch before after s'
      end
  end.

Inductive JsonApiSignal : Type :=
| jsonReceived (json : option Json.value) (statusCode : Z).

Definition isNoError (e : NetworkError) : bool :=
  match e with
  | NoError => true
  | _ => false
  end.

Definition xmlDeclaration : string :=
  "<?xml version=" ++ QStr.dq ++ "1.0" ++ QStr.dq ++ "?>".

Definition statuscodeKey : string :=
  QStr.dq ++ "statuscode" ++ QStr.dq ++ ":".

(** [JsonApiJob::finished] on the error and the body of the reply; the null
    [QJsonDocument] is [None]. *)
Definition JsonApiJob_finished (error : NetworkError) (body : string)
    : list JsonApiSignal :=
  let statusCode := 0%Z in
  if negb (isNoError error) then [jsonReceived None statusCode]
  else
    let jsonStr := body in
    let statusCode :=
      if QStr.contains jsonStr xmlDeclaration then
        match firstMatch "<statuscode>" "</statuscode>" jsonStr with
        | Some cap => toInt cap
        | None => statusCode
        end
      else
        match firstMatch statuscodeKey "," jsonStr with
        | Some cap => toInt cap
        | None => statusCode
        end in
    let json := Json.fromJson jsonStr in
    [jsonReceived json statusCode].

(** The number a string of digits spells. *)
Fixpoint decimalGo (acc : Z) (s : string) : Z :=
  match s with
  | EmptyString => acc
  | String c s' =>
      decimalGo (10 * acc + Z.of_nat (nat_of_ascii c - 48))%Z s'
  end.

Definition decimalValue (s : string) : Z := decimalGo 0 s.

(** A reply of the OCS API, and one with a status code beyond [int]. *)
Definition ocsBody : string :=
  "{" ++ QStr.dq ++ "ocs" ++ QStr.dq ++ ":{"
  ++ QStr.dq ++ "meta" ++ QStr.dq ++ ":{"
  ++ QStr.dq ++ "status" ++ QStr.dq ++ ":"
  ++ QStr.dq ++ "ok" ++ QStr.dq ++ ",".

Definition ocsRest : string :=
  QStr.dq ++ "message" ++ QStr.dq ++ ":null},"
  ++ QStr.dq ++ "data" ++ QStr.dq ++ ":[]}}".

(** * Properties *)

(** ** Strings *)

Lemma append_assoc (a b c : string) : (a ++ b) ++ c = a ++ (b ++ c).
Proof. induction a; simpl; congruence. Qed.

Lemma append_empty_r (a : string) : a ++ "" = a.
Proof. induction a; simpl; congruence. Qed.

Lemma length_append (a b : string) :
  String.length (a ++ b) = (String.length a + String.length b)%nat.
Proof. induction a; simpl; congruence. Qed.

Lemma startsWith_empty (s : string) : QStr.startsWith s "" = true.
Proof. destruct s; reflexivity. Qed.

Lemma startsWith_gzip_app (a : ascii) (t rest : string) :
  gzipBreak rest = true ->
  QStr.startsWith (String a t ++ rest) "-gzip" = QStr.startsWith (String a t) "-gzip".
Proof.
  intros Hb. destruct rest as [|c r].
  - now rewrite append_empty_r.
  - simpl in Hb. apply negb_true_iff in Hb.
    repeat (apply orb_false_iff in Hb; destruct Hb as [Hb ?]).
    rewrite (Ascii.eqb_sym c) in *.
    destruct t as [|a2 [|a3 [|a4 [|a5 t]]]];
      cbn [QStr.startsWith String.append];
      rewrite ?Hb, ?H, ?H0, ?H1, ?andb_false_r, ?startsWith_empty; reflexivity.
Qed.

Lemma replace_gzip_free (t rest : string) :
  QStr.contains t "-gzip" = false ->
  gzipBreak rest = true ->
  QStr.replaceGo "-gzip" "" 0 (t ++ rest) = t ++ QStr.replaceGo "-gzip" "" 0 rest.
Proof.
  intros Hfree Hb. induction t as [|a t IH]; [reflexivity|].
  cbn [QStr.contains] in Hfree. apply orb_false_iff in Hfree as [Hs Hfree].
  change (String a t ++ rest) with (String a (t ++ rest)).
  cbn [QStr.replaceGo].
  change (String a (t ++ rest)) with (String a t ++ rest).
  rewrite startsWith_gzip_app, Hs by assumption.
  simpl. f_equal. apply IH, Hfree.
Qed.

Lemma endsWithChar_snoc (s : string) (c : ascii) :
  QStr.endsWithChar (s ++ String c "") c = true.
Proof.
  induction s as [|a s IH]; simpl.
  - apply Ascii.eqb_refl.
  - destruct (s ++ String c "") eqn:E; [destruct s; discriminate|exact IH].
Qed.

Lemma left_app (t rest : string) : QStr.left (String.length t) (t ++ rest) = t.
Proof. induction t; simpl; [destruct rest; reflexivity|congruence]. Qed.

Lemma endsWithChar_cons (a c : ascii) (s : string) :
  QStr.endsWithChar (String a (s ++ String c "")) c = true.
Proof.
  change (String a (s ++ String c "")) with (String a s ++ String c "").
  apply endsWithChar_snoc.
Qed.

Lemma unquote (t : string) :
  let arr := QStr.dq ++ t ++ QStr.dq in
  ((2 <=? String.length arr)%nat
   && QStr.startsWithChar arr (ascii_of_nat 34)
   && QStr.endsWithChar arr (ascii_of_nat 34)) = true
  /\ QStr.mid 1 (String.length arr - 2) arr = t.
Proof.
  intros arr.
  assert (Harr : arr = String (ascii_of_nat 34) (t ++ String (ascii_of_nat 34) "")) by reflexivity.
  assert (Hlen : String.length arr = S (S (String.length t))).
  { rewrite Harr. cbn [String.length]. rewrite length_append. cbn [String.length]. lia. }
  split.
  - rewrite Hlen, Harr, endsWithChar_cons.
    cbn [QStr.startsWithChar]. rewrite Ascii.eqb_refl. reflexivity.
  - rewrite Hlen, Harr. unfold QStr.mid.
    replace (S (S (String.length t)) - 2)%nat with (String.length t) by lia.
    cbn [QStr.midFrom]. apply left_app.
Qed.

Lemma replace_gzip_plain (t : string) :
  QStr.contains t "-gzip" = false -> QStr.replace "-gzip" "" t = t.
Proof.
  intros H. unfold QStr.replace.
  rewrite <- (append_empty_r t) at 1.
  rewrite replace_gzip_free by (assumption || reflexivity).
  apply append_empty_r.
Qed.

Lemma replace_gzip_suffix (t rest : string) :
  QStr.contains t "-gzip" = false ->
  QStr.replaceGo "-gzip" "" 0 (t ++ "-gzip" ++ rest)
  = t ++ QStr.replaceGo "-gzip" "" 0 rest.
Proof.
  intros H. rewrite replace_gzip_free by (assumption || reflexivity).
  f_equal.
  cbn [String.append QStr.replaceGo QStr.startsWith].
  rewrite !Ascii.eqb_refl, startsWith_empty. reflexivity.
Qed.

Lemma startsWith_weak (s : string) : QStr.startsWith ("W/" ++ s) "W/" = true.
Proof.
  cbn [String.append QStr.startsWith].
  now rewrite !Ascii.eqb_refl, startsWith_empty.
Qed.

(** [parseEtag] on a header that is not empty, by what follows the removal
    of the weak prefix. *)
Lemma parseEtag_weak (s : string) :
  parseEtag ("W/" ++ s) =
  let arr := QStr.replace "-gzip" "" s in
  if (2 <=? String.length arr)%nat
     && QStr.startsWithChar arr (ascii_of_nat 34)
     && QStr.endsWithChar arr (ascii_of_nat 34)
  then QStr.mid 1 (String.length arr - 2) arr
  else arr.
Proof.
  unfold parseEtag. rewrite startsWith_weak. reflexivity.
Qed.

Lemma parseEtag_strong (s : string) :
  QStr.isEmpty s = false ->
  QStr.startsWith s "W/" = false ->
  parseEtag s =
  let arr := QStr.replace "-gzip" "" s in
  if (2 <=? String.length arr)%nat
     && QStr.startsWithChar arr (ascii_of_nat 34)
     && QStr.endsWithChar arr (ascii_of_nat 34)
  then QStr.mid 1 (String.length arr - 2) arr
  else arr.
Proof.
  intros He Hw. unfold parseEtag. rewrite He, Hw. reflexivity.
Qed.

Lemma contains_tail (c : ascii) (s sub : string) :
  QStr.contains (String c s) sub = false -> QStr.contains s sub = false.
Proof.
  cbn [QStr.contains]. intros H. now apply orb_false_iff in H as [_ H].
Qed.

Lemma contains_suffix (a b sub : string) :
  QStr.contains (a ++ b) sub = false -> QStr.contains b sub = false.
Proof.
  induction a as [|c a IH]; [easy|].
  change (String c a ++ b) with (String c (a ++ b)).
  intros H. apply IH. now apply contains_tail in H.
Qed.

Lemma startsWith_split (s p : string) :
  QStr.startsWith s p = true -> s = p ++ QStr.midFrom (String.length p) s.
Proof.
  revert s. induction p as [|a p IH]; intros s H; [reflexivity|].
  destruct s as [|b s]; [discriminate|].
  cbn [QStr.startsWith] in H. apply andb_true_iff in H as [Hab H].
  apply Ascii.eqb_eq in Hab. subst b.
  cbn [String.length QStr.midFrom String.append]. f_equal. now apply IH.
Qed.

(** Every text is pieces without [-gzip] with [-gzip] between them. *)
Lemma gzip_pieces (s : string) :
  exists p ps,
    String.concat "-gzip" (p :: ps) = s /\ forallb gzipFree (p :: ps) = true.
Proof.
  induction s as [|c s (p & ps & Hs & Hfree)].
  - now exists EmptyString, [].
  - cbn [forallb] in Hfree. apply andb_true_iff in Hfree as [Hp Hps].
    assert (Hcons : forall q, String.concat "-gzip" (String c q :: ps)
                              = String c (String.concat "-gzip" (q :: ps))).
    { intros q. now destruct ps. }
    destruct (QStr.startsWith (String c p) "-gzip") eqn:Hstart.
    + apply startsWith_split in Hstart.
      set (q := QStr.midFrom (String.length "-gzip") (String c p)) in *.
      exists EmptyString, (q :: ps). split.
      * rewrite <- Hs, <- Hcons, Hstart.
        change (String.concat "-gzip" ("" :: q :: ps))
          with ("-gzip" ++ String.concat "-gzip" (q :: ps)).
        destruct ps; [reflexivity|].
        cbn [String.concat]. now rewrite append_assoc.
      * cbn [forallb]. rewrite Hps, andb_true_r.
        change (gzipFree "") with true. cbn [andb].
        unfold gzipFree in *. apply negb_true_iff. apply negb_true_iff in Hp.
        injection Hstart as _ Hq.
        rewrite Hq in Hp. now apply (contains_suffix "gzip") in Hp.
    + exists (String c p), ps. split.
      * now rewrite Hcons, Hs.
      * cbn [forallb]. rewrite Hps, andb_true_r.
        unfold gzipFree in *. cbn [QStr.contains]. rewrite Hstart.
        exact Hp.
Qed.

(** [replace] takes the [-gzip] between the pieces away and nothing else. *)
Lemma replace_gzip_pieces (parts : list string) :
  forallb gzipFree parts = true ->
  QStr.replace "-gzip" "" (String.concat "-gzip" parts)
  = String.concat "" parts.
Proof.
  unfold QStr.replace.
  induction parts as [|p [|q ps] IH]; intros Hfree; [reflexivity| |].
  - cbn [forallb] in Hfree. apply andb_true_iff in Hfree as [Hp _].
    apply negb_true_iff in Hp. now apply replace_gzip_plain.
  - cbn [forallb] in Hfree, IH. apply andb_true_iff in Hfree as [Hp Hps].
    apply negb_true_iff in Hp.
    change (String.concat "-gzip" (p :: q :: ps))
      with (p ++ "-gzip" ++ String.concat "-gzip" (q :: ps)).
    rewrite replace_gzip_suffix by assumption.
    rewrite IH by assumption. reflexivity.
Qed.

Lemma endsWithChar_chop (s : string) (c : ascii) :
  QStr.endsWithChar s c = true -> s = QStr.chop1 s ++ String c "".
Proof.
  induction s as [|a s IH]; [discriminate|].
  destruct s as [|b s].
  - cbn. intros H. apply Ascii.eqb_eq in H. now subst.
  - intros H. change (QStr.endsWithChar (String a (String b s)) c)
      with (QStr.endsWithChar (String b s) c) in H.
    change (QStr.chop1 (String a (String b s)))
      with (String a (QStr.chop1 (String b s))).
    cbn [String.append]. f_equal. now apply IH.
Qed.

(** The test of [parseEtag] holds for a text in a pair of quotes only. *)
Lemma quoted_inversion (arr : string) :
  ((2 <=? String.length arr)%nat
   && QStr.startsWithChar arr (ascii_of_nat 34)
   && QStr.endsWithChar arr (ascii_of_nat 34)) = true ->
  exists inner, arr = QStr.dq ++ inner ++ QStr.dq.
Proof.
  intros H. apply andb_true_iff in H as [H Hend].
  apply andb_true_iff in H as [Hlen Hstart].
  destruct arr as [|a [|b s]]; [discriminate..|].
  cbn [QStr.startsWithChar] in Hstart. apply Ascii.eqb_eq in Hstart. subst a.
  change (QStr.endsWithChar (String (ascii_of_nat 34) (String b s))
            (ascii_of_nat 34))
    with (QStr.endsWithChar (String b s) (ascii_of_nat 34)) in Hend.
  apply endsWithChar_chop in Hend.
  exists (QStr.chop1 (String b s)). rewrite Hend at 1. reflexivity.
Qed.

Lemma parseEtag_unwraps (arr : string) :
  (forall inner, arr = QStr.dq ++ inner ++ QStr.dq ->
     (if (2 <=? String.length arr)%nat
         && QStr.startsWithChar arr (ascii_of_nat 34)
         && QStr.endsWithChar arr (ascii_of_nat 34)
      then QStr.mid 1 (String.length arr - 2) arr
      else arr) = inner)
  /\ ((forall inner, arr <> QStr.dq ++ inner ++ QStr.dq) ->
     (if (2 <=? String.length arr)%nat
         && QStr.startsWithChar arr (ascii_of_nat 34)
         && QStr.endsWithChar arr (ascii_of_nat 34)
      then QStr.mid 1 (String.length arr - 2) arr
      else arr) = arr).
Proof.
  split.
  - intros inner ->. destruct (unquote inner) as [Hq1 Hq2].
    cbv zeta in Hq1, Hq2. now rewrite Hq1.
  - intros Hno.
    destruct ((2 <=? String.length arr)%nat
              && QStr.startsWithChar arr (ascii_of_nat 34)
              && QStr.endsWithChar arr (ascii_of_nat 34)) eqn:Htest;
      [|reflexivity].
    destruct (quoted_inversion arr Htest) as [inner Hinner].
    now destruct (Hno inner).
Qed.

(** [-gzip] goes wherever it stands, not only at the end of the tag: the
    tag [a-gzipb] in quotes comes out as [ab]. *)
Lemma gzip_inside_the_tag_is_removed :
  parseEtag (QStr.dq ++ "a-gzipb" ++ QStr.dq) = "ab"
  /\ parseEtag (QStr.dq ++ "a-gzipb" ++ QStr.dq) <> "a-gzipb".
Proof. split; [reflexivity|discriminate]. Qed.

(** C6, amended.  Every header reads as pieces that have no [-gzip], with
    [-gzip] between each two of them, after one [W/] when the header starts
    with it.  Under every such reading the entity tag is the pieces put
    together, every [-gzip] between them gone: without the first and the
    last character when these are a pair of double quotes, and as they are
    otherwise, so that a lone quote, a quote on one side only and a second
    pair of quotes stay.  The three headers of the specification give
    [abc] ([parseEtag_examples]). *)
Theorem parseEtag_normalizes (header : string) :
  (exists weak parts, etagReading header weak parts)
  /\ forall weak parts,
       etagReading header weak parts ->
       (forall inner,
          String.concat "" parts = QStr.dq ++ inner ++ QStr.dq ->
          parseEtag header = inner)
       /\ ((forall inner,
              String.concat "" parts <> QStr.dq ++ inner ++ QStr.dq) ->
           parseEtag header = String.concat "" parts).
Proof.
  split.
  - destruct (QStr.startsWith header "W/") eqn:Hweak.
    + destruct (gzip_pieces (QStr.midFrom 2 header)) as (p & ps & Hs & Hfree).
      exists true, (p :: ps). split; [|split; [exact Hfree|discriminate]].
      rewrite Hs. now apply startsWith_split in Hweak.
    + destruct (gzip_pieces header) as (p & ps & Hs & Hfree).
      exists false, (p :: ps). split; [|split; [exact Hfree|easy]].
      now rewrite Hs.
  - intros weak parts (Hheader & Hfree & Hweak).
    pose proof (replace_gzip_pieces parts Hfree) as Hreplace.
    assert (Hparse : parseEtag header =
              if (2 <=? String.length (String.concat "" parts))%nat
                 && QStr.startsWithChar (String.concat "" parts)
                      (ascii_of_nat 34)
                 && QStr.endsWithChar (String.concat "" parts)
                      (ascii_of_nat 34)
              then QStr.mid 1 (String.length (String.concat "" parts) - 2)
                     (String.concat "" parts)
              else String.concat "" parts).
    { destruct weak.
      - rewrite Hheader, parseEtag_weak. cbv zeta. now rewrite Hreplace.
      - specialize (Hweak eq_refl). cbn [String.append] in Hheader.
        destruct (QStr.isEmpty header) eqn:Hempty.
        + destruct header; [|discriminate].
          rewrite <- Hheader in Hreplace. rewrite <- Hreplace. reflexivity.
        + rewrite parseEtag_strong by assumption. cbv zeta.
          subst header. now rewrite Hreplace. }
    rewrite Hparse. apply parseEtag_unwraps.
Qed.

Lemma parseEtag_examples :
  parseEtag ("W/" ++ QStr.dq ++ "abc-gzip" ++ QStr.dq) = "abc"
  /\ parseEtag (QStr.dq ++ "abc" ++ QStr.dq) = "abc"
  /\ parseEtag "abc" = "abc".
Proof.
  split; [|split].
  - apply (proj2 (parseEtag_normalizes _) true [QStr.dq ++ "abc"; QStr.dq]).
    + split; [reflexivity|split; [reflexivity|discriminate]].
    + reflexivity.
  - apply (proj2 (parseEtag_normalizes _) false [QStr.dq ++ "abc" ++ QStr.dq]).
    + split; [reflexivity|split; reflexivity].
    + reflexivity.
  - apply (proj2 (parseEtag_normalizes _) false ["abc"]).
    + split; [reflexivity|split; reflexivity].
    + intros inner H. discriminate H.
Defined.

(** ** Reading loops *)

Section ReaderLoop.

Context {S R : Type}.
Variable body : S -> Xml.reader -> S * Xml.reader + R.
Variable finish : S -> Xml.reader -> R.

Lemma readerLoop_atEnd fuel st r :
  Xml.atEnd r = true ->
  Xml.readerLoop body finish fuel st r = Some (finish st r).
Proof. intros H. destruct fuel; simpl; now rewrite H. Qed.

Lemma readerLoop_step fuel st r :
  Xml.atEnd r = false ->
  Xml.readerLoop body finish (Datatypes.S fuel) st r =
  match body st r with
  | inl (st', r') => Xml.readerLoop body finish fuel st' r'
  | inr x => Some x
  end.
Proof. intros H. simpl. now rewrite H. Qed.

Lemma readerLoop_more fuel : forall st r x,
  Xml.readerLoop body finish fuel st r = Some x ->
  Xml.readerLoop body finish (Datatypes.S fuel) st r = Some x.
Proof.
  induction fuel as [|fuel IH]; intros st r x H.
  - simpl in H. destruct (Xml.atEnd r) eqn:E; [|discriminate].
    now rewrite readerLoop_atEnd.
  - destruct (Xml.atEnd r) eqn:E.
    + rewrite readerLoop_atEnd in H |- * by assumption. exact H.
    + rewrite readerLoop_step in H |- * by assumption.
      destruct (body st r) as [[st' r']|y]; [now apply IH|exact H].
Qed.

Lemma readerLoop_fuel fuel fuel' st r x :
  Xml.readerLoop body finish fuel st r = Some x ->
  (fuel <= fuel')%nat ->
  Xml.readerLoop body finish fuel' st r = Some x.
Proof.
  intros H Hle. induction Hle; [exact H|now apply readerLoop_more].
Qed.

(** The loop returns: as many iterations as there are tokens, and one, are
    enough. *)
Lemma readerLoop_total (Hp : progresses body) fuel : forall st r,
  (length (Xml.rest r) < fuel)%nat ->
  exists x, Xml.readerLoop body finish fuel st r = Some x.
Proof.
  induction fuel as [|fuel IH]; intros st r Hlen; [lia|].
  destruct (Xml.atEnd r) eqn:E.
  - rewrite readerLoop_atEnd by assumption. eauto.
  - rewrite readerLoop_step by assumption.
    destruct (body st r) as [[st' r']|y] eqn:Eb; [|eauto].
    destruct (Hp _ _ _ _ E Eb) as [He|Hlt].
    + rewrite readerLoop_atEnd by assumption. eauto.
    + apply IH. lia.
Qed.

Lemma readerLoop_iterates c c' :
  Xml.iterates body c c' ->
  forall fuel x,
    Xml.readerLoop body finish fuel (fst c') (snd c') = Some x ->
    exists fuel', Xml.readerLoop body finish fuel' (fst c) (snd c) = Some x.
Proof.
  induction 1 as [c|st r st' r' c Hend Hbody Hit IH]; intros fuel x Hx.
  - eauto.
  - destruct (IH _ _ Hx) as [fuel' Hf]. exists (Datatypes.S fuel').
    cbn [fst snd] in *. rewrite readerLoop_step, Hbody by assumption.
    exact Hf.
Qed.

(** What the loop returns, from the iterations it goes through. *)
Lemma readerLoop_finishes (Hp : progresses body) tokens st st' r' :
  Xml.iterates body (st, Xml.mkReader tokens) (st', r') ->
  Xml.atEnd r' = true ->
  Xml.readerLoop body finish (Datatypes.S (length tokens)) st
    (Xml.mkReader tokens) = Some (finish st' r').
Proof.
  intros Hit Hend.
  destruct (readerLoop_iterates _ _ Hit 0%nat (finish st' r')) as [f Hf].
  { now apply readerLoop_atEnd. }
  destruct (readerLoop_total Hp (Datatypes.S (length tokens)) st
              (Xml.mkReader tokens)) as [y Hy]; [simpl; lia|].
  cbn [fst snd] in Hf. rewrite Hy. f_equal.
  pose proof (readerLoop_fuel _ (f + Datatypes.S (length tokens)) _ _ _ Hf ltac:(lia)) as H1.
  pose proof (readerLoop_fuel _ (f + Datatypes.S (length tokens)) _ _ _ Hy ltac:(lia)) as H2.
  congruence.
Qed.

Lemma readerLoop_returns (Hp : progresses body) tokens st st' r' x :
  Xml.iterates body (st, Xml.mkReader tokens) (st', r') ->
  Xml.atEnd r' = false ->
  body st' r' = inr x ->
  Xml.readerLoop body finish (Datatypes.S (length tokens)) st
    (Xml.mkReader tokens) = Some x.
Proof.
  intros Hit Hend Hb.
  destruct (readerLoop_iterates _ _ Hit 1%nat x) as [f Hf].
  { cbn [fst snd]. now rewrite readerLoop_step, Hb. }
  destruct (readerLoop_total Hp (Datatypes.S (length tokens)) st
              (Xml.mkReader tokens)) as [y Hy]; [simpl; lia|].
  cbn [fst snd] in Hf. rewrite Hy. f_equal.
  pose proof (readerLoop_fuel _ (f + Datatypes.S (length tokens)) _ _ _ Hf ltac:(lia)) as H1.
  pose proof (readerLoop_fuel _ (f + Datatypes.S (length tokens)) _ _ _ Hy ltac:(lia)) as H2.
  congruence.
Qed.

Lemma iterates_trans c1 c2 c3 :
  Xml.iterates body c1 c2 -> Xml.iterates body c2 c3 ->
  Xml.iterates body c1 c3.
Proof.
  induction 1; [auto|]. intros H3. eapply Xml.iterates_step; eauto.
Qed.

Lemma iterates_one st r st' r' :
  Xml.atEnd r = false -> body st r = inl (st', r') ->
  Xml.iterates body (st, r) (st', r').
Proof.
  intros. eapply Xml.iterates_step; eauto. apply Xml.iterates_refl.
Qed.

Lemma runs_nil st : runs body st [] st.
Proof. intros c rest Hc. exists c. split; [exact Hc|apply Xml.iterates_refl]. Qed.

Lemma runs_app st1 st2 st3 t1 t2 :
  runs body st1 t1 st2 -> runs body st2 t2 st3 -> runs body st1 (t1 ++ t2)%list st3.
Proof.
  intros H1 H2 c rest Hc.
  destruct (H1 c (t2 ++ rest)%list Hc) as (c1 & Hc1 & Hi1).
  destruct (H2 c1 rest Hc1) as (c2 & Hc2 & Hi2).
  exists c2. split; [exact Hc2|].
  rewrite <- app_assoc. eapply iterates_trans; eauto.
Qed.

Lemma runs_cons st1 st2 st3 t toks :
  runs body st1 [t] st2 -> runs body st2 toks st3 -> runs body st1 (t :: toks) st3.
Proof. intros H1 H2. exact (runs_app _ _ _ [t] toks H1 H2). Qed.

(** One iteration that reads the tokens [toks] and stops on a [last] one. *)
Lemma runs_iteration st st' toks last :
  live last ->
  (forall c rest, live c ->
     body st (Xml.Reader c (toks ++ rest)%list)
     = inl (st', Xml.Reader last rest)) ->
  runs body st toks st'.
Proof.
  intros Hl H c rest Hc. exists last. split; [exact Hl|].
  apply iterates_one; [exact Hc|now apply H].
Qed.

Lemma runs_flat_map {A : Type} (f : A -> list Xml.token)
    (step : S -> A -> S) (l : list A) : forall st,
  (forall a st, In a l -> runs body st (f a) (step st a)) ->
  runs body st (flat_map f l) (fold_left step l st).
Proof.
  induction l as [|a l IH]; intros st H; [apply runs_nil|].
  cbn [flat_map fold_left]. eapply runs_app.
  - apply H. now left.
  - apply IH. intros b st' Hb. apply H. now right.
Qed.

(** The loop over a whole document that ends with [EndDocument]. *)
Lemma readerLoop_document (Hp : progresses body) toks st st' :
  runs body st toks st' ->
  (forall c, live c ->
     body st' (Xml.Reader c [Xml.EndDocument])
     = inl (st', Xml.Reader Xml.EndDocument [])) ->
  Xml.readerLoop body finish
    (Datatypes.S (length (toks ++ [Xml.EndDocument])%list)) st
    (Xml.mkReader (toks ++ [Xml.EndDocument])%list)
  = Some (finish st' (Xml.Reader Xml.EndDocument [])).
Proof.
  intros Hr Hlast.
  destruct (Hr Xml.NoToken [Xml.EndDocument] eq_refl) as (c & Hc & Hi).
  apply readerLoop_finishes with (r' := Xml.Reader Xml.EndDocument []);
    [exact Hp| |reflexivity].
  eapply iterates_trans; [exact Hi|].
  apply iterates_one; [exact Hc|now apply Hlast].
Qed.

End ReaderLoop.

(** The readers of an element's text and of its contents never give tokens
    back. *)
Lemma readElementTextGo_rest b : forall ts depth acc,
  (length (Xml.rest (snd (Xml.readElementTextGo b depth acc ts)))
   <= length ts)%nat.
Proof.
  induction ts as [|t ts IH]; intros depth acc; [simpl; lia|].
  cbn [Xml.readElementTextGo].
  destruct depth; destruct t; destruct b; cbn [snd Xml.rest length];
    try lia; try (etransitivity; [apply IH|lia]).
Qed.

Lemma readElementText_rest b r :
  (length (Xml.rest (snd (Xml.readElementText b r)))
   <= length (Xml.rest r))%nat.
Proof.
  unfold Xml.readElementText.
  destruct (Xml.cur r); cbn [snd]; try lia. apply readElementTextGo_rest.
Qed.

Lemma readContentsAsStringGo_rest : forall ts level acc,
  (length (Xml.rest (snd (readContentsAsStringGo level acc ts)))
   <= length ts)%nat.
Proof.
  induction ts as [|t ts IH]; intros level acc; [simpl; lia|].
  cbn [readContentsAsStringGo].
  destruct t; cbn [Xml.atEnd Xml.cur snd Xml.rest length];
    try lia; try (etransitivity; [apply IH|lia]).
  destruct (level - 1 <? 0)%Z; cbn [snd Xml.rest length];
    [lia|etransitivity; [apply IH|lia]].
Qed.

Lemma readContentsAsString_rest r :
  (length (Xml.rest (snd (readContentsAsString r)))
   <= length (Xml.rest r))%nat.
Proof.
  unfold readContentsAsString.
  destruct (Xml.cur r); cbn [snd]; try lia;
    apply readContentsAsStringGo_rest.
Qed.

Lemma readNext_progress r :
  Xml.atEnd r = false ->
  Xml.atEnd (Xml.readNext r) = true
  \/ (length (Xml.rest (Xml.readNext r)) < length (Xml.rest r))%nat.
Proof.
  unfold Xml.readNext, Xml.atEnd. destruct r as [c ts]. cbn [Xml.cur Xml.rest].
  destruct c; try discriminate; intros _;
    (destruct ts; [left; reflexivity|right; simpl; lia]).
Qed.

(** ** The loops of the jobs go on *)

Lemma live_not_end c ts : live c -> Xml.atEnd (Xml.Reader c ts) = false.
Proof. intros H. exact H. Qed.

Lemma readNext_live c t ts :
  live c -> Xml.readNext (Xml.Reader c (t :: ts)) = Xml.Reader t ts.
Proof. unfold live, Xml.atEnd, Xml.readNext. cbn. destruct c; intros; try discriminate; reflexivity. Qed.

Lemma etagIteration_progresses : progresses etagIteration.
Proof.
  intros st r st' r' Hend H. unfold etagIteration in H.
  pose proof (readNext_progress r Hend) as Hn.
  set (r1 := Xml.readNext r) in *.
  destruct (Xml.isStartElement (Xml.cur r1) && _) eqn:E1.
  - destruct (String.eqb (Xml.name r1) "getetag").
    + pose proof (readElementText_rest Xml.ErrorOnUnexpectedElement r1) as Hr.
      destruct (Xml.readElementText _ r1) as [txt r2].
      cbn [snd] in Hr. cbv beta iota in H.
      assert (r' = r2) as -> by (destruct (negb _); congruence).
      destruct Hn as [Hn|Hn]; [|right; lia].
      apply andb_true_iff in E1 as [E1 _]. unfold Xml.atEnd in Hn.
      destruct (Xml.cur r1); discriminate.
    + injection H as _ <-. destruct Hn; [now left|now right].
  - injection H as _ <-. destruct Hn; [now left|now right].
Qed.

Lemma parseIteration_progresses expectedPath :
  progresses (parseIteration expectedPath).
Proof.
  intros st r st' r' Hend H. unfold parseIteration in H.
  pose proof (readNext_progress r Hend) as Hn.
  set (r1 := Xml.readNext r) in *.
  assert (Hstart : Xml.isStartElement (Xml.cur r1) = true ->
                   (length (Xml.rest r1) < length (Xml.rest r))%nat).
  { intros Hs. destruct Hn as [Hn|Hn]; [|exact Hn].
    unfold Xml.atEnd in Hn. destruct (Xml.cur r1); discriminate. }
  assert (Hfirst : forall st1 r2,
     (if Xml.isStartElement (Xml.cur r1)
         && String.eqb (Xml.namespaceUri r1) DAV
      then davStartElement expectedPath (Xml.name r1) st r1
      else PhaseNext st r1) = PhaseNext st1 r2
     \/ (if Xml.isStartElement (Xml.cur r1)
         && String.eqb (Xml.namespaceUri r1) DAV
      then davStartElement expectedPath (Xml.name r1) st r1
      else PhaseNext st r1) = PhaseContinue st1 r2 ->
     (length (Xml.rest r2) <= length (Xml.rest r1))%nat
     /\ (Xml.isStartElement (Xml.cur r1) = false -> r2 = r1)).
  { intros st1 r2 Hx.
    destruct (Xml.isStartElement (Xml.cur r1)) eqn:Es; cbn [andb] in Hx.
    2:{ destruct Hx as [Hx|Hx]; inversion Hx; subst. split; [lia|auto]. }
    split; [|discriminate].
    destruct (String.eqb (Xml.namespaceUri r1) DAV).
    2:{ destruct Hx as [Hx|Hx]; inversion Hx; subst. lia. }
    unfold davStartElement in Hx.
    pose proof (readElementText_rest Xml.ErrorOnUnexpectedElement r1) as Hr.
    destruct (Xml.readElementText _ r1) as [txt r3]. cbn [snd] in Hr.
    repeat match type of Hx with
           | context [if ?b then _ else _] => destruct b
           end;
      destruct Hx as [Hx|Hx]; inversion Hx; subst; lia. }
  destruct (if Xml.isStartElement (Xml.cur r1) && _ then _ else _)
    as [|st1 r2|st1 r2] eqn:E1; [discriminate| |].
  - injection H as <- <-.
    destruct (Hfirst st1 r2 (or_intror eq_refl)) as [Hle Hsame].
    destruct (Xml.isStartElement (Xml.cur r1)) eqn:Es.
    + right. specialize (Hstart eq_refl). lia.
    + rewrite (Hsame eq_refl). destruct Hn; [now left|now right].
  - destruct (Hfirst st1 r2 (or_introl eq_refl)) as [Hle Hsame].
    destruct (Xml.isStartElement (Xml.cur r1)) eqn:Es.
    + specialize (Hstart eq_refl). right. cbn [andb] in H.
      destruct (insidePropstat st1 && insideProp st1).
      * unfold propertyElement in H.
        pose proof (readContentsAsString_rest r2) as Hr.
        destruct (readContentsAsString r2) as [content r3]. cbn [snd] in Hr.
        cbv beta iota zeta in H. injection H as _ <-. lia.
      * cbv beta iota zeta in H. injection H as _ <-. lia.
    + cbn [andb] in H. cbv beta iota zeta in H. injection H as _ <-. rewrite (Hsame eq_refl).
      destruct Hn; [now left|now right].
Qed.

Lemma propfindIteration_progresses : progresses propfindIteration.
Proof.
  intros st r st' r' Hend H. unfold propfindIteration in H.
  pose proof (readNext_progress r Hend) as Hn.
  set (r1 := Xml.readNext r) in *.
  destruct (Xml.isStartElement (Xml.cur r1)) eqn:Es.
  - right.
    assert (Hlt : (length (Xml.rest r1) < length (Xml.rest r))%nat).
    { destruct Hn as [Hn|Hn]; [|exact Hn].
      unfold Xml.atEnd in Hn. destruct (Xml.cur r1); discriminate. }
    pose proof (readElementText_rest Xml.SkipChildElements r1) as Hr.
    destruct (Xml.readElementText _ r1) as [txt r3]. cbn [snd] in Hr.
    destruct (curElement st) as [|top below];
      [|destruct (String.eqb top "prop")];
      cbv beta iota zeta in H; injection H as _ <-; lia.
  - cbv beta iota zeta in H. injection H as _ <-. destruct Hn; [now left|now right].
Qed.

(** The jobs return, whatever the tokens of the reply are. *)
Lemma etagOfTokens_returns tokens :
  exists etag, etagOfTokens tokens = Some etag.
Proof.
  apply readerLoop_total; [apply etagIteration_progresses|simpl; lia].
Qed.

Lemma RequestEtagJob_finished_returns reply :
  exists signals, RequestEtagJob_finished reply = Some signals.
Proof.
  unfold RequestEtagJob_finished.
  destruct (etag_httpCode reply =? 207)%Z; [|eauto].
  destruct (etagOfTokens_returns (etag_body reply)) as [etag ->]. eauto.
Qed.

Lemma parseTokens_returns tokens sizes0 expectedPath :
  exists res, parseTokens tokens sizes0 expectedPath = Some res.
Proof.
  apply readerLoop_total; [apply parseIteration_progresses|simpl; lia].
Qed.

Lemma LsColJob_finished_returns httpCode contentType body sizes0 path :
  exists out, LsColJob_finished httpCode contentType body sizes0 path
              = Some out.
Proof.
  unfold LsColJob_finished.
  destruct (_ && _); [|eauto].
  destruct (parseTokens_returns body (Some sizes0) path) as [res ->].
  destruct (negb (returned res)); eauto.
Qed.

Lemma PropfindJob_finished_returns http_result_code body :
  exists signals, PropfindJob_finished http_result_code body = Some signals.
Proof.
  unfold PropfindJob_finished.
  destruct (http_result_code =? 207)%Z; [|eauto]. cbv zeta.
  apply readerLoop_total; [apply propfindIteration_progresses|simpl; lia].
Qed.

(** ** Trees *)

Lemma node_ind (P : node -> Prop)
    (HE : forall ns name children,
        Forall P children -> P (Element ns name children))
    (HT : forall s, P (Text s))
    (HC : forall s, P (CommentNode s))
    (HI : forall t, P (Instruction t)) :
  forall n, P n.
Proof.
  fix IH 1. intros [ns name children|s|s|t]; [|apply HT|apply HC|apply HI].
  apply HE. induction children as [|c cs IHc]; constructor; [apply IH|exact IHc].
Qed.

Lemma readContents_nodes_of (P := fun n => forall level acc rest,
    (0 <= level)%Z ->
    readContentsAsStringGo level acc (tokensOf n ++ rest)%list
    = readContentsAsStringGo level (acc ++ contentOf n) rest) :
  forall ns, Forall P ns -> forall level acc rest, (0 <= level)%Z ->
    readContentsAsStringGo level acc (tokensOfNodes ns ++ rest)%list
    = readContentsAsStringGo level (acc ++ contentOfNodes ns) rest.
Proof.
  induction 1 as [|n ns Hn _ IH]; intros level acc rest Hl.
  - cbn. now rewrite append_empty_r.
  - unfold tokensOfNodes, contentOfNodes in *. cbn [flat_map fold_right].
    rewrite <- app_assoc, Hn, IH by assumption.
    now rewrite append_assoc.
Qed.

Lemma readContents_node n : forall level acc rest,
  (0 <= level)%Z ->
  readContentsAsStringGo level acc (tokensOf n ++ rest)%list
  = readContentsAsStringGo level (acc ++ contentOf n) rest.
Proof.
  induction n as [ns name children IH|s|s|t] using node_ind;
    intros level acc rest Hl.
  - cbn [tokensOf contentOf]. rewrite <- app_comm_cons.
    cbn [readContentsAsStringGo].
    rewrite <- app_assoc.
    change (flat_map tokensOf children) with (tokensOfNodes children).
    rewrite (readContents_nodes_of children IH) by lia.
    cbn [app readContentsAsStringGo].
    replace (level + 1 - 1 <? 0)%Z with false by lia.
    replace (level + 1 - 1)%Z with level by lia.
    f_equal. fold (contentOfNodes children).
    now rewrite !append_assoc.
  - cbn. reflexivity.
  - cbn. now rewrite append_empty_r.
  - cbn. now rewrite append_empty_r.
Qed.

Lemma readContents_nodes ns : forall level acc rest,
  (0 <= level)%Z ->
  readContentsAsStringGo level acc (tokensOfNodes ns ++ rest)%list
  = readContentsAsStringGo level (acc ++ contentOfNodes ns) rest.
Proof.
  apply readContents_nodes_of.
  induction ns; constructor; [intros; now apply readContents_node|assumption].
Qed.

(** The content of a property, read from its start element on. *)
Lemma readContentsAsString_property ns name children ns' name' rest :
  readContentsAsString
    (Xml.Reader (Xml.StartElement ns name)
       (tokensOfNodes children ++ Xml.EndElement ns' name' :: rest)%list)
  = (contentOfNodes children, Xml.Reader (Xml.EndElement ns' name') rest).
Proof.
  unfold readContentsAsString. cbn [Xml.cur Xml.rest].
  rewrite readContents_nodes by lia. reflexivity.
Qed.

(** ** The iterations of [parse] over a multistatus body *)

Section ParseSteps.

Variable expectedPath : string.

#[local] Abbreviation iteration := (parseIteration expectedPath).

(** A token that is neither a start nor an end element changes nothing. *)
Lemma parseIteration_other st c t rest :
  live c ->
  Xml.isStartElement t = false -> Xml.isEndElement t = false ->
  iteration st (Xml.Reader c (t :: rest)) = inl (st, Xml.Reader t rest).
Proof.
  intros Hc Hs He. unfold parseIteration. rewrite readNext_live by exact Hc.
  cbn [Xml.cur]. rewrite Hs, He. reflexivity.
Qed.

Lemma runs_ignorable st t :
  ignorable t = true -> runs iteration st [t] st.
Proof.
  intros Ht. apply runs_iteration with (last := t).
  - destruct t; try discriminate; reflexivity.
  - intros c rest Hc. cbn [app]. apply parseIteration_other; [exact Hc| |];
      destruct t; try discriminate; reflexivity.
Qed.

Lemma runs_gap st gap : isGap gap -> runs iteration st gap st.
Proof.
  induction gap as [|t gap IH]; intros H; [apply runs_nil|].
  cbn in H. apply andb_true_iff in H as [Ht Hg].
  eapply runs_cons; [now apply runs_ignorable|now apply IH].
Qed.

Lemma runs_startDocument st : runs iteration st [Xml.StartDocument] st.
Proof.
  apply runs_iteration with (last := Xml.StartDocument); [reflexivity|].
  intros c rest Hc. cbn [app]. now apply parseIteration_other.
Qed.

Lemma runs_multistatus_start st :
  runs iteration st [Xml.StartElement DAV "multistatus"]
    (set_insideMultiStatus st true).
Proof.
  apply runs_iteration with (last := Xml.StartElement DAV "multistatus");
    [reflexivity|].
  intros c rest Hc. cbn [app]. unfold parseIteration.
  rewrite readNext_live by exact Hc.
  reflexivity.
Qed.

Lemma runs_multistatus_end st :
  runs iteration st [Xml.EndElement DAV "multistatus"] st.
Proof.
  apply runs_iteration with (last := Xml.EndElement DAV "multistatus");
    [reflexivity|].
  intros c rest Hc. cbn [app]. unfold parseIteration.
  rewrite readNext_live by exact Hc.
  reflexivity.
Qed.

Lemma runs_response_start st :
  insidePropstat st && insideProp st = false ->
  runs iteration st [Xml.StartElement DAV "response"] st.
Proof.
  intros Hf.
  apply runs_iteration with (last := Xml.StartElement DAV "response");
    [reflexivity|].
  intros c rest Hc. cbn [app]. unfold parseIteration.
  rewrite readNext_live by exact Hc.
  cbn. rewrite Hf. reflexivity.
Qed.

Lemma runs_href st text :
  insidePropstat st && insideProp st = false ->
  QStr.startsWith (QStr.fromPercentEncoding text) expectedPath = true ->
  runs iteration st
    ([Xml.StartElement DAV "href"] ++ charactersOf text
     ++ [Xml.EndElement DAV "href"])%list
    (set_currentHref st (QStr.fromPercentEncoding text)).
Proof.
  intros Hf Hp.
  apply runs_iteration with (last := Xml.EndElement DAV "href");
    [reflexivity|].
  intros c rest Hc. rewrite <- !app_assoc. cbn [app].
  unfold parseIteration. rewrite readNext_live by exact Hc.
  destruct text as [|a text]; [cbn; cbn in Hp; rewrite Hp; cbn; now rewrite Hf|].
  change (charactersOf (String a text)) with [Xml.Characters (String a text)].
  revert Hp. generalize (String a text) as t. intros t Hp.
  cbn. rewrite Hp. cbn. rewrite Hf. reflexivity.
Qed.

Lemma runs_propstat_start st :
  insideProp st = false ->
  runs iteration st [Xml.StartElement DAV "propstat"]
    (set_insidePropstat st true).
Proof.
  intros Hf.
  apply runs_iteration with (last := Xml.StartElement DAV "propstat");
    [reflexivity|].
  intros c rest Hc. cbn [app]. unfold parseIteration.
  rewrite readNext_live by exact Hc.
  cbn. rewrite Hf. reflexivity.
Qed.

Lemma runs_prop_start st :
  runs iteration st [Xml.StartElement DAV "prop"] (set_insideProp st true).
Proof.
  apply runs_iteration with (last := Xml.StartElement DAV "prop");
    [reflexivity|].
  intros c rest Hc. cbn [app]. unfold parseIteration.
  rewrite readNext_live by exact Hc.
  reflexivity.
Qed.

Lemma runs_prop_end st :
  runs iteration st [Xml.EndElement DAV "prop"] (set_insideProp st false).
Proof.
  apply runs_iteration with (last := Xml.EndElement DAV "prop");
    [reflexivity|].
  intros c rest Hc. cbn [app]. unfold parseIteration.
  rewrite readNext_live by exact Hc.
  reflexivity.
Qed.

Lemma runs_status st text :
  insidePropstat st = true -> insideProp st = false ->
  runs iteration st
    ([Xml.StartElement DAV "status"] ++ charactersOf text
     ++ [Xml.EndElement DAV "status"])%list
    (set_currentPropsHaveHttp200 st (QStr.startsWith text "HTTP/1.1 200")).
Proof.
  intros Hps Hp.
  apply runs_iteration with (last := Xml.EndElement DAV "status");
    [reflexivity|].
  intros c rest Hc. rewrite <- !app_assoc. cbn [app].
  unfold parseIteration. rewrite readNext_live by exact Hc.
  destruct text as [|a text]; [cbn; rewrite Hps; cbn; now rewrite Hps, Hp|].
  change (charactersOf (String a text)) with [Xml.Characters (String a text)].
  generalize (String a text) as t. intros t.
  cbn. rewrite Hps. cbn.
  destruct (QStr.startsWith t "HTTP/1.1 200"); cbn; rewrite Hps, Hp;
    reflexivity.
Qed.

Lemma runs_propstat_end st :
  runs iteration st [Xml.EndElement DAV "propstat"]
    (davEndElement st (Xml.Reader (Xml.EndElement DAV "propstat") [])).
Proof.
  apply runs_iteration with (last := Xml.EndElement DAV "propstat");
    [reflexivity|].
  intros c rest Hc. cbn [app]. unfold parseIteration.
  rewrite readNext_live by exact Hc.
  reflexivity.
Qed.

Lemma runs_response_end st :
  runs iteration st [Xml.EndElement DAV "response"]
    (davEndElement st (Xml.Reader (Xml.EndElement DAV "response") [])).
Proof.
  apply runs_iteration with (last := Xml.EndElement DAV "response");
    [reflexivity|].
  intros c rest Hc. cbn [app]. unfold parseIteration.
  rewrite readNext_live by exact Hc.
  reflexivity.
Qed.

Lemma propertyElement_property st p rest :
  propertyElement (prop_name p) st
    (Xml.Reader (Xml.StartElement (prop_ns p) (prop_name p))
       (tokensOfNodes (prop_content p)
        ++ Xml.EndElement (prop_ns p) (prop_name p) :: rest)%list)
  = (afterProperty st p,
     Xml.Reader (Xml.EndElement (prop_ns p) (prop_name p)) rest).
Proof.
  unfold afterProperty, propertyElement.
  rewrite !readContentsAsString_property. reflexivity.
Qed.

Lemma davStartElement_plain st p r :
  plainProperty p = true ->
  insidePropstat st = true ->
  (if String.eqb (prop_ns p) DAV
   then davStartElement expectedPath (prop_name p) st r
   else PhaseNext st r) = PhaseNext st r.
Proof.
  unfold plainProperty. intros Hp Hps.
  destruct (String.eqb (prop_ns p) DAV); [|reflexivity].
  cbn [andb] in Hp. apply negb_true_iff in Hp.
  repeat (apply orb_false_iff in Hp; destruct Hp as [Hp ?]).
  unfold davStartElement. rewrite Hp, H, H0, H1.
  destruct (String.eqb (prop_name p) "response"); [reflexivity|].
  destruct (String.eqb (prop_name p) "propstat"); [|reflexivity].
  destruct st; cbn in *; subst; reflexivity.
Qed.

Lemma runs_property st p :
  plainProperty p = true ->
  insidePropstat st = true -> insideProp st = true ->
  runs iteration st (tokensOfProperty p) (afterProperty st p).
Proof.
  intros Hplain Hps Hp.
  apply runs_iteration
    with (last := Xml.EndElement (prop_ns p) (prop_name p)); [reflexivity|].
  intros c rest Hc. unfold parseIteration, tokensOfProperty.
  rewrite <- app_comm_cons, readNext_live by exact Hc.
  cbn [Xml.cur Xml.isStartElement Xml.isEndElement Xml.name Xml.namespaceUri
       Xml.tokenName Xml.tokenNamespaceUri andb].
  rewrite davStartElement_plain by assumption.
  rewrite Hps, Hp. cbn [andb].
  rewrite <- app_assoc. cbn [app].
  rewrite propertyElement_property. reflexivity.
Qed.

End ParseSteps.

(** ** The states [parse] goes through *)

Lemma afterProperty_state st p :
  afterProperty st p =
  {| folders := folders st ++ collected (currentHref st) p;
     currentHref := currentHref st;
     currentTmpProperties := inserted (currentTmpProperties st) [p];
     currentHttp200Properties := currentHttp200Properties st;
     currentPropsHaveHttp200 := currentPropsHaveHttp200 st;
     insidePropstat := insidePropstat st;
     insideProp := insideProp st;
     insideMultiStatus := insideMultiStatus st;
     sizes := recorded (currentHref st) (sizes st) [p];
     emitted := emitted st |}.
Proof.
  unfold afterProperty, propertyElement.
  rewrite <- (app_nil_r [Xml.EndElement _ _]).
  cbn [app]. rewrite readContentsAsString_property.
  unfold collected, recorded, recordSize, sizeOfProperty, isCollectionProperty,
    inserted.
  cbn [fst fold_left Xml.name Xml.cur Xml.tokenName].
  destruct (String.eqb (prop_name p) "resourcetype"
            && QStr.contains (contentOfNodes (prop_content p)) "collection").
  - destruct st as [? ? ? ? ? ? ? ? [h|] ?]; reflexivity.
  - destruct (String.eqb (prop_name p) "size").
    + destruct (QStr.toLongLong _);
        destruct st as [? ? ? ? ? ? ? ? [h|] ?]; cbn;
        rewrite ?app_nil_r; reflexivity.
    + destruct st as [? ? ? ? ? ? ? ? [h|] ?]; cbn;
        rewrite ?app_nil_r; reflexivity.
Qed.

Lemma afterProperties_state ps : forall st,
  fold_left afterProperty ps st =
  {| folders := folders st ++ flat_map (collected (currentHref st)) ps;
     currentHref := currentHref st;
     currentTmpProperties := inserted (currentTmpProperties st) ps;
     currentHttp200Properties := currentHttp200Properties st;
     currentPropsHaveHttp200 := currentPropsHaveHttp200 st;
     insidePropstat := insidePropstat st;
     insideProp := insideProp st;
     insideMultiStatus := insideMultiStatus st;
     sizes := recorded (currentHref st) (sizes st) ps;
     emitted := emitted st |}.
Proof.
  induction ps as [|p ps IH]; intros st.
  - destruct st as [? ? ? ? ? ? ? ? [h|] ?]; cbn; rewrite app_nil_r;
      reflexivity.
  - cbn [fold_left]. rewrite IH, afterProperty_state.
    cbn [folders currentHref currentTmpProperties currentHttp200Properties
         currentPropsHaveHttp200 insidePropstat insideProp insideMultiStatus
         sizes emitted flat_map].
    rewrite <- app_assoc. f_equal.
    destruct (sizes st); reflexivity.
Qed.

Section ParseRuns.

Variable expectedPath : string.

#[local] Abbreviation iteration := (parseIteration expectedPath).

(** The loop over a sequence of items, when it reads each item [a] that is
    [ok] from a state that is [inv], and ends in [step st a]. *)
Lemma runs_sequence {A : Type} (one : A -> list Xml.token -> Prop)
    (ok : A -> bool) (inv : ParseState -> Prop)
    (step : ParseState -> A -> ParseState) :
  (forall a t st, one a t -> ok a = true -> inv st ->
     runs iteration st t (step st a)) ->
  (forall a st, inv st -> inv (step st a)) ->
  forall l toks, sequenceTokens one l toks ->
  forall st, forallb ok l = true -> inv st ->
  runs iteration st toks (fold_left step l st).
Proof.
  intros Hone Hinv l toks Hseq.
  induction Hseq as [|a l t g ts Ha Hg _ IH]; intros st Hok Hst;
    [apply runs_nil|].
  cbn in Hok. apply andb_true_iff in Hok as [Hok1 Hok2]. cbn [fold_left].
  eapply runs_app; [apply (Hone a); assumption|].
  eapply runs_app; [now apply runs_gap|].
  apply IH; [exact Hok2|now apply Hinv].
Qed.

Lemma runs_properties ps toks st :
  sequenceTokens propertyTokens ps toks ->
  forallb plainProperty ps = true ->
  insidePropstat st = true -> insideProp st = true ->
  runs iteration st toks (fold_left afterProperty ps st).
Proof.
  intros Hseq Hplain Hps Hp.
  apply runs_sequence
    with (one := propertyTokens) (ok := plainProperty)
         (inv := fun st => insidePropstat st = true /\ insideProp st = true);
    [| |exact Hseq|exact Hplain|now split].
  - intros p t st' -> Hok [H1 H2]. now apply runs_property.
  - intros p st' [H1 H2]. rewrite afterProperty_state. now split.
Qed.

Lemma runs_propstat st ps toks :
  propstatTokens ps toks ->
  forallb plainProperty (ps_props ps) = true ->
  idle st ->
  runs iteration st toks (afterPropstat st ps).
Proof.
  intros Htoks Hplain (Htmp & H200 & Hps & Hp).
  destruct Htoks as [ps g1 g2 g3 g4 toks Hg1 Hg2 Hg3 Hg4 Hseq].
  eapply runs_app; [now apply runs_propstat_start|].
  eapply runs_app; [now apply runs_gap|].
  eapply runs_app; [apply runs_prop_start|].
  eapply runs_app; [now apply runs_gap|].
  eapply runs_app;
    [apply (runs_properties (ps_props ps)); [exact Hseq|exact Hplain| |];
     reflexivity|].
  eapply runs_app; [apply runs_prop_end|].
  eapply runs_app; [now apply runs_gap|].
  rewrite afterProperties_state.
  destruct ps as [props [status|]]; cbn [statusTokens ps_status ps_props].
  - match goal with
    | |- runs _ _ ?t _ =>
        replace t with
          (([Xml.StartElement DAV "status"] ++ charactersOf status
            ++ [Xml.EndElement DAV "status"])
           ++ g4 ++ [Xml.EndElement DAV "propstat"])%list
          by (now rewrite <- !app_assoc)
    end.
    eapply runs_app; [now apply runs_status|].
    eapply runs_app; [now apply runs_gap|].
    match goal with
    | |- runs _ ?s _ ?s' =>
        replace s' with
          (davEndElement s (Xml.Reader (Xml.EndElement DAV "propstat") []));
          [apply runs_propstat_end|]
    end.
    unfold afterPropstat, is200, propertiesOf. cbn.
    destruct (QStr.startsWith status "HTTP/1.1 200"); cbn;
      rewrite ?Htmp; reflexivity.
  - cbn [app].
    match goal with
    | |- runs _ ?s _ ?s' =>
        replace s' with
          (davEndElement s (Xml.Reader (Xml.EndElement DAV "propstat") []));
          [apply runs_propstat_end|]
    end.
    unfold afterPropstat, is200. cbn. rewrite H200. reflexivity.
Qed.

Lemma afterPropstat_idle st ps : idle (afterPropstat st ps).
Proof. repeat split. Qed.

Lemma runs_propstats pss toks st :
  sequenceTokens propstatTokens pss toks ->
  forallb (fun ps => forallb plainProperty (ps_props ps)) pss = true ->
  idle st ->
  runs iteration st toks (fold_left afterPropstat pss st).
Proof.
  intros Hseq Hplain Hidle.
  apply runs_sequence
    with (one := propstatTokens)
         (ok := fun ps => forallb plainProperty (ps_props ps)) (inv := idle);
    [| |exact Hseq|exact Hplain|exact Hidle].
  - intros ps t st' Ht Hok Hst. now apply runs_propstat.
  - intros ps st' _. apply afterPropstat_idle.
Qed.

Lemma afterPropstats_state pss : forall st,
  idle st ->
  fold_left afterPropstat pss st =
  {| folders :=
       folders st
       ++ flat_map (collected (currentHref st)) (flat_map ps_props pss);
     currentHref := currentHref st;
     currentTmpProperties := ∅;
     currentHttp200Properties :=
       publishedAfter (currentHttp200Properties st) pss;
     currentPropsHaveHttp200 := false;
     insidePropstat := false;
     insideProp := false;
     insideMultiStatus := insideMultiStatus st;
     sizes := recorded (currentHref st) (sizes st) (flat_map ps_props pss);
     emitted := emitted st |}.
Proof.
  induction pss as [|ps pss IH]; intros st Hidle.
  - destruct Hidle as (? & ? & ? & ?).
    destruct st as [? ? ? ? ? ? ? ? [h|] ?]; cbn in *; subst;
      rewrite app_nil_r; reflexivity.
  - cbn [fold_left]. rewrite IH by apply afterPropstat_idle.
    unfold afterPropstat at 1 2 3 4 5 6 7.
    cbn [folders currentHref currentTmpProperties currentHttp200Properties
         currentPropsHaveHttp200 insidePropstat insideProp insideMultiStatus
         sizes emitted flat_map].
    rewrite <- app_assoc, flat_map_app. f_equal.
    unfold recorded. destruct (sizes st); [|reflexivity].
    now rewrite fold_left_app.
Qed.

Lemma publishedAfter_last200 pss :
  publishedAfter ∅ pss =
  match find is200 (rev pss) with
  | Some ps => propertiesOf ps
  | None => ∅
  end.
Proof.
  induction pss as [|ps pss IH] using rev_ind; [reflexivity|].
  unfold publishedAfter in *. rewrite fold_left_app, rev_app_distr.
  cbn [fold_left rev app find]. destruct (is200 ps); [reflexivity|exact IH].
Qed.

Lemma afterResponse_ready st r : ready (afterResponse st r).
Proof. repeat split. Qed.

Lemma runs_response st r toks :
  responseTokens r toks ->
  wellFormedResponse expectedPath r = true ->
  ready st ->
  runs iteration st toks (afterResponse st r).
Proof.
  intros Htoks Hwf [Hidle H200]. pose proof Hidle as (Htmp & Hh & Hps & Hp).
  apply andb_true_iff in Hwf as [Hhref Hplain].
  destruct Htoks as [r g1 g2 toks Hg1 Hg2 Hseq].
  eapply runs_app; [apply runs_response_start; now rewrite Hps|].
  eapply runs_app; [now apply runs_gap|].
  match goal with
  | |- runs _ _ ?t _ =>
      replace t with
        (([Xml.StartElement DAV "href"] ++ charactersOf (resp_href r)
          ++ [Xml.EndElement DAV "href"])
         ++ g2 ++ toks ++ [Xml.EndElement DAV "response"])%list
        by (now rewrite <- !app_assoc)
  end.
  eapply runs_app; [apply runs_href; [now rewrite Hps|exact Hhref]|].
  eapply runs_app; [now apply runs_gap|].
  eapply runs_app;
    [apply (runs_propstats (resp_propstats r));
     [exact Hseq|exact Hplain|repeat split; assumption]|].
  rewrite afterPropstats_state by (repeat split; assumption).
  match goal with
  | |- runs _ ?s _ ?s' =>
      replace s' with
        (davEndElement s (Xml.Reader (Xml.EndElement DAV "response") []));
        [apply runs_response_end|]
  end.
  unfold afterResponse, davEndElement, entryOf, publishedHref,
    publishedProperties, last200, foldersOfResponse, sizesOfResponse,
    allProperties, recorded.
  cbn. rewrite H200, publishedAfter_last200.
  fold (decodedHref r).
  destruct (QStr.endsWithChar (decodedHref r) "/");
    destruct (sizes st); reflexivity.
Qed.

Lemma runs_responses doc toks st :
  sequenceTokens responseTokens doc toks ->
  wellFormed expectedPath doc = true ->
  ready st ->
  runs iteration st toks (fold_left afterResponse doc st).
Proof.
  intros Hseq Hwf Hready.
  apply runs_sequence
    with (one := responseTokens) (ok := wellFormedResponse expectedPath)
         (inv := ready);
    [| |exact Hseq|exact Hwf|exact Hready].
  - intros r t st' Ht Hok Hst. now apply runs_response.
  - intros r st' _. apply afterResponse_ready.
Qed.

Lemma afterResponses_folders doc : forall st,
  folders (fold_left afterResponse doc st) = (folders st ++ foldersOf doc)%list.
Proof.
  induction doc as [|r doc IH]; intros st; cbn [fold_left].
  - cbn. now rewrite app_nil_r.
  - rewrite IH. cbn. now rewrite <- app_assoc.
Qed.

Lemma afterResponses_emitted doc : forall st,
  emitted (fold_left afterResponse doc st)
  = (emitted st ++ map entryOf doc)%list.
Proof.
  induction doc as [|r doc IH]; intros st; cbn [fold_left].
  - cbn. now rewrite app_nil_r.
  - rewrite IH. cbn. now rewrite <- app_assoc.
Qed.

Lemma afterResponses_sizes doc : forall st,
  sizes (fold_left afterResponse doc st)
  = match sizes st with
    | Some h => Some (sizesOf h doc)
    | None => None
    end.
Proof.
  induction doc as [|r doc IH]; intros st; cbn [fold_left].
  - destruct (sizes st); reflexivity.
  - rewrite IH. cbn. destruct (sizes st); reflexivity.
Qed.

Lemma afterResponses_insideMultiStatus doc : forall st,
  insideMultiStatus (fold_left afterResponse doc st) = insideMultiStatus st.
Proof.
  induction doc as [|r doc IH]; intros st; cbn [fold_left];
    [reflexivity|now rewrite IH].
Qed.

Lemma parseTokens_wellFormed sizes0 doc toks :
  multistatusTokens doc toks ->
  wellFormed expectedPath doc = true ->
  parseTokens toks sizes0 expectedPath = Some (parsed sizes0 doc).
Proof.
  intros Htoks Hwf. unfold parseTokens.
  destruct Htoks as [doc g0 g1 g2 toks Hg0 Hg1 Hg2 Hseq].
  set (st0 := initialParseState sizes0).
  set (st1 := fold_left afterResponse doc (set_insideMultiStatus st0 true)).
  match goal with
  | |- Xml.readerLoop _ _ _ _ (Xml.mkReader ?all) = _ =>
      replace all with
        (([Xml.StartDocument] ++ g0
          ++ [Xml.StartElement DAV "multistatus"] ++ g1
          ++ toks
          ++ [Xml.EndElement DAV "multistatus"] ++ g2)
         ++ [Xml.EndDocument])%list
        by (now rewrite <- !app_assoc)
  end.
  rewrite readerLoop_document with (st' := st1).
  - f_equal. unfold parseFinish, parsed, st1. cbn [Xml.hasError Xml.cur].
    rewrite afterResponses_insideMultiStatus.
    cbn [negb insideMultiStatus set_insideMultiStatus].
    unfold parseReturn, emit.
    cbn [emitted sizes folders].
    rewrite afterResponses_emitted, afterResponses_sizes,
      afterResponses_folders.
    cbn. rewrite <- app_assoc. reflexivity.
  - apply parseIteration_progresses.
  - eapply runs_app; [apply runs_startDocument|].
    eapply runs_app; [now apply runs_gap|].
    eapply runs_app; [apply runs_multistatus_start|].
    eapply runs_app; [now apply runs_gap|].
    eapply runs_app;
      [apply (runs_responses doc); [exact Hseq|exact Hwf|repeat split]|].
    eapply runs_app; [apply runs_multistatus_end|].
    now apply runs_gap.
  - intros c Hc. now apply parseIteration_other.
Qed.

(** A body with the same gap everywhere is one of the bodies above. *)
Lemma sequenceTokens_flat_map {A : Type} (one : A -> list Xml.token -> Prop)
    (f : A -> list Xml.token) (gap : list Xml.token) (l : list A) :
  isGap gap -> (forall a, one a (f a)) ->
  sequenceTokens one l (flat_map (fun a => f a ++ gap)%list l).
Proof.
  intros Hg Hf. induction l as [|a l IH]; [constructor|].
  cbn [flat_map]. rewrite <- app_assoc. now constructor.
Qed.

Lemma tokensOfMultistatus_tokens gap doc :
  isGap gap -> multistatusTokens doc (tokensOfMultistatus gap doc).
Proof.
  intros Hg. unfold tokensOfMultistatus.
  constructor; [reflexivity|exact Hg|reflexivity|].
  apply sequenceTokens_flat_map; [exact Hg|]. intros r.
  unfold tokensOfResponse. constructor; [exact Hg|exact Hg|].
  apply sequenceTokens_flat_map; [exact Hg|]. intros ps.
  unfold tokensOfPropstat. constructor; try exact Hg.
  apply sequenceTokens_flat_map; [exact Hg|]. intros p. reflexivity.
Qed.

End ParseRuns.

(** ** Properties of the multistatus parser *)

Lemma inserted_lookup ps : forall (m : gmap string string) k v,
  inserted m ps !! k = Some v ->
  m !! k = Some v
  \/ exists p, In p ps /\ prop_name p = k
               /\ contentOfNodes (prop_content p) = v.
Proof.
  induction ps as [|p ps IH]; intros m k v H; [now left|].
  cbn [inserted fold_left] in H. apply IH in H as [H|(q & Hq & Hk & Hv)].
  - destruct (decide (prop_name p = k)) as [<-|Hne].
    + rewrite lookup_insert_eq in H. injection H as <-.
      right. exists p. repeat split. now left.
    + rewrite lookup_insert_ne in H by exact Hne. now left.
  - right. exists q. repeat split; [now right|assumption|assumption].
Qed.

Lemma find_app {A : Type} (f : A -> bool) (l1 l2 : list A) :
  find f (l1 ++ l2)%list =
  match find f l1 with
  | Some x => Some x
  | None => find f l2
  end.
Proof.
  induction l1 as [|a l1 IH]; [reflexivity|].
  cbn. destruct (f a); [reflexivity|exact IH].
Qed.

Lemma find_none_forallb {A : Type} (f : A -> bool) (l : list A) :
  forallb (fun x => negb (f x)) l = true -> find f l = None.
Proof.
  induction l as [|a l IH]; [reflexivity|]. cbn. intros H.
  apply andb_true_iff in H as [Ha Hl]. apply negb_true_iff in Ha.
  rewrite Ha. now apply IH.
Qed.

Lemma forallb_rev {A : Type} (f : A -> bool) (l : list A) :
  forallb f (rev l) = forallb f l.
Proof.
  induction l as [|a l IH]; [reflexivity|].
  cbn. rewrite forallb_app, IH. cbn. rewrite andb_true_r. apply andb_comm.
Qed.

(** C1. For a well-formed multistatus body, that is the tokens of a
    sequence of responses with their href and propstat blocks, with any
    character data, comments and processing instructions between the
    elements, whose hrefs start with the expected path, the parser
    publishes one entry for each response, in order, and the mapping of an
    entry is the mapping of the properties of the last propstat block of
    the response whose status starts with [HTTP/1.1 200]: the blocks after
    it, which have another status, add nothing, a response without such a
    block has the empty mapping, and whatever is in a published mapping is
    a property of a block with a 200 status. *)
Theorem published_properties_of_last_200_block
    (expectedPath : string) (tokens : list Xml.token)
    (sizes0 : option (gmap string Z)) (doc : list Response) :
  multistatusTokens doc tokens ->
  wellFormed expectedPath doc = true ->
  (exists res,
      parseTokens tokens sizes0 expectedPath = Some res
      /\ returned res = true
      /\ signals res =
         (map entryOf doc
          ++ [directoryListingSubfolders (foldersOf doc);
              finishedWithoutError])%list)
  /\ (forall r before ps after,
         resp_propstats r = (before ++ ps :: after)%list ->
         is200 ps = true ->
         forallb (fun x => negb (is200 x)) after = true ->
         publishedProperties r = propertiesOf ps)
  /\ (forall r,
         forallb (fun x => negb (is200 x)) (resp_propstats r) = true ->
         publishedProperties r = ∅)
  /\ (forall r k v,
         publishedProperties r !! k = Some v ->
         exists ps p,
           In ps (resp_propstats r) /\ is200 ps = true
           /\ In p (ps_props ps) /\ prop_name p = k
           /\ contentOfNodes (prop_content p) = v).
Proof.
  intros Htokens Hwf. repeat split.
  - exists (parsed sizes0 doc). split; [|split; reflexivity].
    now apply parseTokens_wellFormed.
  - intros r before ps after Hr H200 Hafter.
    unfold publishedProperties, last200.
    rewrite Hr, rev_app_distr. cbn [rev]. rewrite <- app_assoc, find_app.
    rewrite find_none_forallb by now rewrite forallb_rev.
    cbn. now rewrite H200.
  - intros r Hnone. unfold publishedProperties, last200.
    now rewrite find_none_forallb by now rewrite forallb_rev.
  - intros r k v H. unfold publishedProperties, last200 in H.
    destruct (find is200 (rev (resp_propstats r))) as [ps|] eqn:Ef.
    + apply find_some in Ef as [Hin H200].
      apply in_rev in Hin.
      apply inserted_lookup in H as [H|(p & Hp & Hk & Hv)];
        [now rewrite lookup_empty in H|].
      exists ps, p. repeat split; assumption.
    + now rewrite lookup_empty in H.
Qed.

Lemma sampleBodyText_tokenize :
  Xml.tokenize extraNamespaces sampleBodyText
  = Some (tokensOfMultistatus [Xml.Characters " "] sampleBody).
Proof. vm_compute. reflexivity. Qed.

Lemma sampleBodyText_tokens :
  multistatusTokens sampleBody
    (tokensOfMultistatus [Xml.Characters " "] sampleBody).
Proof. now apply tokensOfMultistatus_tokens. Qed.

Lemma published_properties_sample :
  exists res,
    LsColXMLParser_parse sampleBodyText (Some ∅) "/dav/folder" = Some res
    /\ signals res =
       [directoryListingIterated "/dav/folder"
          (<["resourcetype" := "<collection></collection>"]>
             (<["getetag" := "abc"]> ∅));
        directoryListingIterated "/dav/folder/a b.txt" ∅;
        directoryListingSubfolders ["/dav/folder/"; "/dav/folder/a b.txt"];
        finishedWithoutError].
Proof.
  destruct (published_properties_of_last_200_block "/dav/folder"
              (tokensOfMultistatus [Xml.Characters " "] sampleBody)
              (Some ∅) sampleBody sampleBodyText_tokens eq_refl)
    as ((res & Hres & _ & Hsig) & _).
  exists res. split; [|rewrite Hsig; reflexivity].
  unfold LsColXMLParser_parse. rewrite sampleBodyText_tokenize. exact Hres.
Defined.

Lemma withStatus_allProperties status r :
  allProperties (withStatus status r) = allProperties r.
Proof.
  unfold allProperties, withStatus. cbn [resp_propstats].
  induction (resp_propstats r) as [|ps pss IH]; [reflexivity|].
  cbn. now rewrite IH.
Qed.

Lemma withStatus_folders status doc :
  foldersOf (map (withStatus status) doc) = foldersOf doc.
Proof.
  unfold foldersOf. induction doc as [|r doc IH]; [reflexivity|].
  cbn [map flat_map]. rewrite IH. f_equal.
  unfold foldersOfResponse. now rewrite withStatus_allProperties.
Qed.

Lemma withStatus_sizes status doc : forall h,
  sizesOf h (map (withStatus status) doc) = sizesOf h doc.
Proof.
  unfold sizesOf. induction doc as [|r doc IH]; intros h; [reflexivity|].
  cbn [map fold_left]. rewrite IH. f_equal.
  unfold sizesOfResponse. now rewrite withStatus_allProperties.
Qed.

Lemma withStatus_wellFormed expectedPath status doc :
  wellFormed expectedPath (map (withStatus status) doc)
  = wellFormed expectedPath doc.
Proof.
  unfold wellFormed. induction doc as [|r doc IH]; [reflexivity|].
  cbn [map forallb]. rewrite IH. f_equal.
  unfold wellFormedResponse, withStatus, decodedHref.
  cbn [resp_href resp_propstats]. f_equal.
  induction (resp_propstats r) as [|ps pss IHp]; [reflexivity|].
  cbn. now rewrite IHp.
Qed.

(** C9. Whatever the status lines of the propstat blocks of a well-formed
    body are, the folders reported at the end are the hrefs of all
    [resourcetype] properties whose content mentions [collection], and the
    sizes hash holds the value of every [size] property that is a number:
    both are taken over the properties of all blocks, so they are the same
    for the tokens of the body with every status replaced, also by a status
    other than 200, while the published mappings follow the status. *)
Theorem folders_and_sizes_whatever_the_status
    (expectedPath : string) (tokens : list Xml.token) (h : gmap string Z)
    (doc : list Response) (status : Propstat -> option string) :
  multistatusTokens (map (withStatus status) doc) tokens ->
  wellFormed expectedPath doc = true ->
  exists res,
    parseTokens tokens (Some h) expectedPath = Some res
    /\ returned res = true
    /\ signals res =
       (map entryOf (map (withStatus status) doc)
        ++ [directoryListingSubfolders (foldersOf doc);
            finishedWithoutError])%list
    /\ sizesAfter res = Some (sizesOf h doc).
Proof.
  intros Htokens Hwf.
  exists (parsed (Some h) (map (withStatus status) doc)).
  split; [|split; [reflexivity|split]].
  - apply parseTokens_wellFormed; [exact Htokens|].
    now rewrite withStatus_wellFormed.
  - cbn [signals parsed]. now rewrite withStatus_folders.
  - cbn [sizesAfter parsed]. now rewrite withStatus_sizes.
Qed.

Lemma folders_and_sizes_sample :
  exists res,
    parseTokens
      (tokensOfMultistatus []
         (map (withStatus (fun _ => Some "HTTP/1.1 404 Not Found"))
            sampleBody))
      (Some ∅) "/dav/folder" = Some res
    /\ signals res =
       [directoryListingIterated "/dav/folder" ∅;
        directoryListingIterated "/dav/folder/a b.txt" ∅;
        directoryListingSubfolders ["/dav/folder/"; "/dav/folder/a b.txt"];
        finishedWithoutError]
    /\ sizesAfter res = Some (<["/dav/folder/" := 12%Z]> ∅).
Proof.
  destruct (folders_and_sizes_whatever_the_status "/dav/folder"
              (tokensOfMultistatus []
                 (map (withStatus (fun _ => Some "HTTP/1.1 404 Not Found"))
                    sampleBody))
              ∅ sampleBody (fun _ => Some "HTTP/1.1 404 Not Found")
              (tokensOfMultistatus_tokens [] _ eq_refl) eq_refl)
    as (res & Hres & _ & Hsig & Hsizes).
  exists res. split; [exact Hres|]. rewrite Hsig, Hsizes.
  split; reflexivity.
Defined.

(** C7, as the code has it.  A [size] property whose content is no number
    does not end the parse: the iteration that reads it goes on, leaves the
    sizes hash as it was, and keeps the content as the text of the
    property. *)
Theorem size_that_is_no_number_is_kept_as_text
    (expectedPath : string) (st : ParseState) (c : Xml.token)
    (p : Property) (rest : list Xml.token) :
  Xml.atEnd (Xml.Reader c (tokensOfProperty p ++ rest)%list) = false ->
  insidePropstat st = true -> insideProp st = true ->
  plainProperty p = true ->
  prop_name p = "size" ->
  QStr.toLongLong (contentOfNodes (prop_content p)) = None ->
  parseIteration expectedPath st
    (Xml.Reader c (tokensOfProperty p ++ rest)%list)
  = inl (set_currentTmpProperties st
           (<["size" := contentOfNodes (prop_content p)]>
              (currentTmpProperties st)),
         Xml.Reader (Xml.EndElement (prop_ns p) "size") rest).
Proof.
  intros Hc Hps Hp Hplain Hname Hnum.
  unfold parseIteration, tokensOfProperty.
  rewrite <- app_comm_cons, readNext_live by exact Hc.
  cbn [Xml.cur Xml.isStartElement Xml.isEndElement Xml.name Xml.namespaceUri
       Xml.tokenName Xml.tokenNamespaceUri andb].
  rewrite davStartElement_plain by assumption.
  rewrite Hps, Hp. cbn [andb].
  rewrite <- app_assoc. cbn [app].
  unfold propertyElement. rewrite readContentsAsString_property.
  rewrite Hname, Hnum. reflexivity.
Qed.

Lemma size_that_is_no_number_sample :
  parseIteration "/dav"
    (set_insideProp (set_insidePropstat (initialParseState (Some ∅)) true)
       true)
    (Xml.Reader (Xml.StartElement DAV "prop")
       (tokensOfProperty (sizeProperty "12 KB")
        ++ [Xml.EndElement DAV "prop"])%list)
  = inl (set_currentTmpProperties
           (set_insideProp
              (set_insidePropstat (initialParseState (Some ∅)) true) true)
           (<["size" := "12 KB"]> ∅),
         Xml.Reader (Xml.EndElement "http://owncloud.org/ns" "size")
           [Xml.EndElement DAV "prop"]).
Proof.
  exact (size_that_is_no_number_is_kept_as_text "/dav"
           (set_insideProp
              (set_insidePropstat (initialParseState (Some ∅)) true) true)
           (Xml.StartElement DAV "prop") (sizeProperty "12 KB")
           [Xml.EndElement DAV "prop"]
           eq_refl eq_refl eq_refl eq_refl eq_refl eq_refl).
Defined.

(** C7, as the specification has it, fails: a body whose [size] property
    reads [abc] is parsed to the end, the parse returns [true], and the
    entry carries the text of the property. *)
Lemma size_that_is_no_number_does_not_fail :
  QStr.toLongLong "abc" = None
  /\ LsColXMLParser_parse bodyWithBadSize (Some ∅) "/dav"
     = Some {| returned := true;
               signals :=
                 [directoryListingIterated "/dav/file.txt"
                    (<["size" := "abc"]> ∅);
                  directoryListingSubfolders [];
                  finishedWithoutError];
               sizesAfter := Some ∅ |}.
Proof. split; vm_compute; reflexivity. Qed.

(** C2, as the code has it.  When the loop of [parse] comes to a [href]
    start element of the DAV namespace whose decoded text does not start
    with the expected path, [parse] returns [false] there: the signals are
    the ones emitted up to that point, none is added and none is taken
    back. *)
Theorem href_outside_expected_path_ends_parse
    (expectedPath : string) (tokens : list Xml.token)
    (sizes0 : option (gmap string Z)) (st : ParseState) (c : Xml.token)
    (rest : list Xml.token) :
  Xml.iterates (parseIteration expectedPath)
    (initialParseState sizes0, Xml.mkReader tokens)
    (st, Xml.Reader c (Xml.StartElement DAV "href" :: rest)) ->
  Xml.atEnd (Xml.Reader c (Xml.StartElement DAV "href" :: rest)) = false ->
  QStr.startsWith
    (QStr.fromPercentEncoding
       (fst (Xml.readElementText Xml.ErrorOnUnexpectedElement
               (Xml.Reader (Xml.StartElement DAV "href") rest))))
    expectedPath = false ->
  parseTokens tokens sizes0 expectedPath
  = Some {| returned := false; signals := emitted st;
            sizesAfter := sizes st |}.
Proof.
  intros Hit Hc Hbad. unfold parseTokens.
  eapply readerLoop_returns;
    [apply parseIteration_progresses|exact Hit|exact Hc|].
  unfold parseIteration. rewrite readNext_live by exact Hc.
  cbn [Xml.cur Xml.isStartElement Xml.name Xml.namespaceUri Xml.tokenName
       Xml.tokenNamespaceUri].
  change (String.eqb DAV DAV) with true. cbn [andb].
  unfold davStartElement. change (String.eqb "href" "href") with true.
  cbv iota.
  destruct (Xml.readElementText _ _) as [text r1]. cbn [fst] in Hbad.
  rewrite Hbad. reflexivity.
Qed.

(** The iterations of a loop over given tokens, one after the other. *)
Ltac iterate :=
  repeat first
    [ apply Xml.iterates_refl
    | eapply Xml.iterates_step; [reflexivity|vm_compute; reflexivity|] ].

Lemma href_outside_expected_path_sample :
  parseTokens (tokensOfMultistatus [] bodyWithForeignHref) (Some ∅) "/dav"
  = Some {| returned := false;
            signals :=
              [directoryListingIterated "/dav/folder"
                 (<["getetag" := "abc"]> ∅)];
            sizesAfter := Some ∅ |}.
Proof.
  refine (href_outside_expected_path_ends_parse "/dav"
            (tokensOfMultistatus [] bodyWithForeignHref) (Some ∅)
            {| folders := []; currentHref := EmptyString;
               currentTmpProperties := ∅; currentHttp200Properties := ∅;
               currentPropsHaveHttp200 := false; insidePropstat := false;
               insideProp := false; insideMultiStatus := true;
               sizes := Some ∅;
               emitted :=
                 [directoryListingIterated "/dav/folder"
                    (<["getetag" := "abc"]> ∅)] |}
            (Xml.StartElement DAV "response")
            (skipn 19 (tokensOfMultistatus [] bodyWithForeignHref))
            _ eq_refl eq_refl).
  iterate.
Defined.

(** C2, as the specification has it, fails: a [href] element inside the
    content of a property is part of that content and is not compared with
    the expected path.  The body below has such an element, with a text
    outside the expected path, and is parsed to the end. *)
Lemma href_inside_property_is_not_checked :
  (exists before after,
      Xml.tokenize extraNamespaces bodyWithOwnerHref
      = Some (before
              ++ [Xml.StartElement DAV "href";
                  Xml.Characters "/elsewhere/principal";
                  Xml.EndElement DAV "href"]
              ++ after)%list)
  /\ QStr.startsWith (QStr.fromPercentEncoding "/elsewhere/principal") "/dav"
     = false
  /\ LsColXMLParser_parse bodyWithOwnerHref (Some ∅) "/dav"
     = Some {| returned := true;
               signals :=
                 [directoryListingIterated "/dav/file.txt"
                    (<["owner" := "<href>/elsewhere/principal</href>"]> ∅);
                  directoryListingSubfolders [];
                  finishedWithoutError];
               sizesAfter := Some ∅ |}.
Proof.
  split; [|split; vm_compute; reflexivity].
  exists (firstn 9 (default []
                      (Xml.tokenize extraNamespaces bodyWithOwnerHref))),
    (skipn 12 (default []
                 (Xml.tokenize extraNamespaces bodyWithOwnerHref))).
  vm_compute. reflexivity.
Qed.

(** ** The ETag job *)

Section EtagRuns.

#[local] Abbreviation iteration := etagIteration.







End EtagRuns.





(** ** From the text of a PROPPATCH body to its tokens *)

Lemma forallChars_app p a b :
  forallChars p (a ++ b) = forallChars p a && forallChars p b.
Proof.
  induction a as [|c a IH]; [reflexivity|].
  cbn [String.append forallChars]. rewrite IH. apply andb_assoc.
Qed.

Lemma forallChars_impl (p q : ascii -> bool) s :
  (forall c, p c = true -> q c = true) ->
  forallChars p s = true -> forallChars q s = true.
Proof.
  intros Hpq. induction s as [|c s IH]; [reflexivity|].
  cbn [forallChars]. intros H. apply andb_true_iff in H as [Hc Hs].
  now rewrite (Hpq c Hc), IH.
Qed.

(** Text of the subset, piece by piece. *)
Lemma utf8From_app a : forall st b,
  Xml.utf8From st a = true ->
  Xml.utf8From st (a ++ b) = Xml.utf8From Xml.Utf8Start b.
Proof.
  induction a as [|c a IH]; intros st b H.
  - now destruct st.
  - cbn [String.append Xml.utf8From] in *.
    destruct (Xml.utf8Step st c); [now apply IH|discriminate].
Qed.

Lemma isModelText_app a b :
  Xml.isModelText a = true -> Xml.isModelText b = true ->
  Xml.isModelText (a ++ b) = true.
Proof.
  unfold Xml.isModelText, Xml.isUtf8. intros Ha Hb.
  apply andb_true_iff in Ha as [Ha1 Ha2].
  apply andb_true_iff in Hb as [Hb1 Hb2].
  now rewrite forallChars_app, Ha1, Hb1, (utf8From_app a _ b Ha2), Hb2.
Qed.

Lemma isUtf8_ascii s :
  forallChars isAscii s = true -> Xml.isUtf8 s = true.
Proof.
  unfold Xml.isUtf8. induction s as [|c s IH]; [reflexivity|].
  cbn [forallChars Xml.utf8From Xml.utf8Step]. intros H.
  apply andb_true_iff in H as [Hc Hs]. unfold isAscii in Hc.
  rewrite Hc. now apply IH.
Qed.

Lemma tagScan_app a : forall m b,
  tagScan m (a ++ b) =
  match tagScan m a with
  | Some m' => tagScan m' b
  | None => None
  end.
Proof.
  induction a as [|c a IH]; intros m b; [reflexivity|].
  cbn [String.append tagScan].
  destruct m as [| |q]; [reflexivity| |];
    repeat match goal with
           | |- context [if ?x then _ else _] => destruct x
           end; try reflexivity; apply IH.
Qed.

Lemma lex_tagScan body : forall m m' s b l,
  tagScan m body = Some m' ->
  Xml.lex m' s = Xml.CTag b :: l ->
  Xml.lex m (body ++ s) = Xml.CTag (body ++ b) :: l.
Proof.
  induction body as [|c body IH]; intros m m' s b l Hscan Hlex.
  - cbn in Hscan. injection Hscan as ->. exact Hlex.
  - cbn [String.append tagScan Xml.lex] in *.
    destruct m as [| |q]; [discriminate| |];
      repeat match type of Hscan with
             | context [if ?x then _ else _] => destruct x
             end; try discriminate;
      rewrite (IH _ _ _ _ _ Hscan Hlex); reflexivity.
Qed.

(** A tag, from after its opening bracket to its closing one. *)
Lemma lex_tag body rest :
  tagScan Xml.MTag body = Some Xml.MTag ->
  Xml.lex Xml.MTag (body ++ String ">" rest)
  = Xml.CTag body :: Xml.lex Xml.MText rest.
Proof.
  intros H.
  rewrite (lex_tagScan body Xml.MTag Xml.MTag (String ">" rest) EmptyString
             (Xml.lex Xml.MText rest) H eq_refl).
  now rewrite append_empty_r.
Qed.

Lemma lex_tag_head s :
  match Xml.lex Xml.MTag s with
  | Xml.CText _ :: _ => False
  | _ => True
  end.
Proof.
  destruct s as [|c s]; cbn [Xml.lex]; [exact I|].
  repeat match goal with
         | |- context [if ?x then _ else _] => destruct x
         end; try exact I;
    match goal with
    | |- context [Xml.pushTag _ ?l] => destruct l as [|[?|?| |] ?]; exact I
    end.
Qed.

(** Character data, up to the next tag. *)
Lemma lex_text t rest :
  forallChars notLt t = true ->
  Xml.otherMarkup rest = false ->
  Xml.lex Xml.MText (t ++ String "<" rest)
  = ((if QStr.isEmpty t then [] else [Xml.CText t])
     ++ Xml.lex Xml.MTag rest)%list.
Proof.
  intros H Hrest. induction t as [|c t IH].
  - cbn [String.append Xml.lex QStr.isEmpty app].
    now rewrite Ascii.eqb_refl, Hrest.
  - cbn [forallChars] in H. apply andb_true_iff in H as [Hc Ht].
    unfold notLt in Hc. apply negb_true_iff in Hc.
    cbn [String.append Xml.lex QStr.isEmpty]. rewrite Hc, (IH Ht).
    destruct t as [|c' t]; cbn [QStr.isEmpty app Xml.pushText];
      [|reflexivity].
    pose proof (lex_tag_head rest) as Hh.
    destruct (Xml.lex Xml.MTag rest) as [|[?|?| |] ?]; try reflexivity.
    contradiction.
Qed.

Lemma otherMarkup_app a b :
  QStr.isEmpty a = false -> Xml.otherMarkup (a ++ b) = Xml.otherMarkup a.
Proof. now destruct a. Qed.

(** An element tag with its text before it. *)
Lemma lex_text_tag t body rest :
  forallChars notLt t = true ->
  tagScan Xml.MTag body = Some Xml.MTag ->
  Xml.otherMarkup (body ++ ">") = false ->
  Xml.lex Xml.MText (t ++ "<" ++ body ++ ">" ++ rest)
  = ((if QStr.isEmpty t then [] else [Xml.CText t])
     ++ Xml.CTag body :: Xml.lex Xml.MText rest)%list.
Proof.
  intros Ht Hb Hm.
  change ("<" ++ body ++ ">" ++ rest)
    with (String "<" (body ++ String ">" rest)).
  rewrite lex_text, lex_tag; [reflexivity|assumption..|].
  change (String ">" rest) with (">" ++ rest).
  rewrite <- append_assoc, otherMarkup_app; [exact Hm|].
  now destruct body.
Qed.

(** The characters of names and of plain text are no markup. *)
Lemma nameChar_facts c :
  Xml.isNameChar c = true ->
  tagPlain c = true /\ Xml.isXmlSpace c = false
  /\ Ascii.eqb c ":" = false /\ Ascii.eqb c "/" = false
  /\ Ascii.eqb c "?" = false /\ Ascii.eqb c "=" = false
  /\ Ascii.eqb c "!" = false /\ Xml.isModelByte c = true
  /\ isAscii c = true.
Proof.
  destruct c as [[] [] [] [] [] [] [] []]; intros H;
    try discriminate H; repeat split.
Qed.

Lemma tagScan_plain s :
  forallChars tagPlain s = true -> tagScan Xml.MTag s = Some Xml.MTag.
Proof.
  induction s as [|c s IH]; [reflexivity|].
  cbn [forallChars tagScan]. intros H. apply andb_true_iff in H as [Hc Hs].
  unfold tagPlain in Hc.
  repeat (apply andb_true_iff in Hc; destruct Hc as [Hc ?]).
  apply negb_true_iff in Hc, H, H0, H1.
  unfold Xml.isQuote. rewrite Hc, H, H0, H1. cbn [orb]. now apply IH.
Qed.

Lemma tagScan_quoted q s :
  forallChars (fun c => negb (Ascii.eqb c q) && notLt c) s = true ->
  tagScan (Xml.MQuote q) s = Some (Xml.MQuote q).
Proof.
  induction s as [|c s IH]; [reflexivity|].
  cbn [forallChars tagScan]. intros H. apply andb_true_iff in H as [Hc Hs].
  apply andb_true_iff in Hc as [Hq Hl]. unfold notLt in Hl.
  apply negb_true_iff in Hq, Hl. rewrite Hq, Hl. now apply IH.
Qed.

Lemma plainChar_facts c :
  isPlainChar c = true ->
  Ascii.eqb c "<" = false /\ Xml.isModelByte c = true.
Proof.
  unfold isPlainChar. intros H. apply andb_true_iff in H as [H Hl].
  apply negb_true_iff in Hl. auto.
Qed.

Lemma plainAttributeChar_facts c :
  isPlainAttributeChar c = true ->
  Ascii.eqb c "<" = false /\ Xml.isModelByte c = true
  /\ Ascii.eqb c (ascii_of_nat 34) = false.
Proof.
  unfold isPlainAttributeChar. intros H.
  apply andb_true_iff in H as [H Hq]. apply negb_true_iff in Hq.
  destruct (plainChar_facts c H) as (? & ?). auto.
Qed.

(** The name and the namespace of a plain entry, and its value. *)
Lemma plainName_chars s :
  plainName s = true -> forallChars Xml.isNameChar s = true.
Proof.
  unfold plainName. destruct s as [|c s]; [discriminate|]. intros H.
  apply andb_true_iff in H as [_ H].
  revert H. apply forallChars_impl. intros c' Hc.
  now apply andb_true_iff in Hc as [Hc _].
Qed.

Lemma plainName_start s :
  plainName s = true ->
  exists c s', s = String c s' /\ Xml.isNameStartChar c = true.
Proof.
  unfold plainName. destruct s as [|c s]; [discriminate|]. intros H.
  apply andb_true_iff in H as [H _]. apply andb_true_iff in H as [H _].
  eauto.
Qed.

Lemma plainName_text s : plainName s = true -> Xml.isModelText s = true.
Proof.
  intros H. apply plainName_chars in H. unfold Xml.isModelText.
  apply andb_true_iff. split.
  - revert H. apply forallChars_impl. intros c Hc.
    now destruct (nameChar_facts c Hc) as (_ & _ & _ & _ & _ & _ & _ & ? & _).
  - apply isUtf8_ascii. revert H. apply forallChars_impl. intros c Hc.
    now destruct (nameChar_facts c Hc) as (_ & _ & _ & _ & _ & _ & _ & _ & ?).
Qed.

Lemma plainNamespace_text ns :
  plainNamespace ns = true -> Xml.isModelText ns = true.
Proof.
  unfold plainNamespace, Xml.isModelText. intros H.
  apply andb_true_iff in H as [H _]. apply andb_true_iff in H as [H Hu].
  rewrite Hu, andb_true_r. revert H. apply forallChars_impl. intros c Hc.
  now destruct (plainAttributeChar_facts c Hc) as (_ & ? & _).
Qed.

Lemma plainValue_text value :
  plainValue value = true -> Xml.isModelText value = true.
Proof.
  unfold plainValue, Xml.isModelText. intros H.
  apply andb_true_iff in H as [H _]. apply andb_true_iff in H as [H Hu].
  rewrite Hu, andb_true_r. revert H. apply forallChars_impl. intros c Hc.
  now destruct (plainChar_facts c Hc) as (_ & ?).
Qed.

Lemma tagScan_name s :
  forallChars Xml.isNameChar s = true -> tagScan Xml.MTag s = Some Xml.MTag.
Proof.
  intros H. apply tagScan_plain. revert H. apply forallChars_impl.
  intros c Hc. now destruct (nameChar_facts c Hc).
Qed.

Lemma proppatchProperty_tags key value :
  proppatchProperty key value
  = "    " ++ "<" ++ openTagOf key ++ ">"
    ++ value ++ "<" ++ closeTagOf key ++ ">" ++ nl.
Proof.
  unfold proppatchProperty, openTagOf, closeTagOf, attributeOf. cbv zeta.
  cbn [String.append]. now rewrite !append_assoc.
Qed.

Lemma tagScan_attribute key :
  forallChars isPlainAttributeChar (keyNsOf key) = true ->
  tagScan Xml.MTag (attributeOf key) = Some Xml.MTag.
Proof.
  intros H. unfold attributeOf.
  destruct (negb (QStr.isEmpty (keyNsOf key))); [|reflexivity].
  change (" xmlns=" ++ QStr.dq ++ keyNsOf key ++ QStr.dq ++ " ")
    with (" xmlns=" ++ (QStr.dq ++ (keyNsOf key ++ (QStr.dq ++ " ")))).
  rewrite tagScan_app. cbn [tagScan String.append].
  change (String (ascii_of_nat 34) (keyNsOf key ++ QStr.dq ++ " "))
    with (QStr.dq ++ (keyNsOf key ++ (QStr.dq ++ " "))).
  cbn [String.append QStr.dq tagScan].
  change (Ascii.eqb (ascii_of_nat 34) ">") with false.
  change (Ascii.eqb (ascii_of_nat 34) "<") with false.
  change (Xml.isQuote (ascii_of_nat 34)) with true. cbv iota.
  rewrite tagScan_app, tagScan_quoted; [reflexivity|].
  revert H. apply forallChars_impl. intros c Hc.
  destruct (plainAttributeChar_facts c Hc) as (Hl & _ & Hq).
  unfold notLt. now rewrite Hl, Hq.
Qed.

Lemma tagScan_openTag key :
  plainName (keyNameOf key) = true ->
  forallChars isPlainAttributeChar (keyNsOf key) = true ->
  tagScan Xml.MTag (openTagOf key) = Some Xml.MTag.
Proof.
  intros Hn Ha. unfold openTagOf.
  rewrite tagScan_app, tagScan_name by now apply plainName_chars.
  now apply tagScan_attribute.
Qed.

Lemma tagScan_closeTag key :
  plainName (keyNameOf key) = true ->
  tagScan Xml.MTag (closeTagOf key) = Some Xml.MTag.
Proof.
  intros Hn. unfold closeTagOf. cbn [String.append tagScan].
  change (Ascii.eqb "/" ">") with false.
  change (Ascii.eqb "/" "<") with false.
  change (Xml.isQuote "/") with false.
  cbv iota. apply tagScan_name. now apply plainName_chars.
Qed.

Lemma openTag_markup key :
  plainName (keyNameOf key) = true ->
  Xml.otherMarkup (openTagOf key ++ ">") = false.
Proof.
  intros Hn. unfold openTagOf.
  destruct (plainName_start _ Hn) as (c & s' & -> & Hc).
  assert (Hnc : Xml.isNameChar c = true).
  { unfold Xml.isNameChar. now rewrite Hc. }
  destruct (nameChar_facts c Hnc) as (_ & _ & _ & _ & Hq & _ & Hb & _).
  cbn [String.append]. unfold Xml.otherMarkup. cbn [QStr.startsWithChar].
  now rewrite Hq, Hb.
Qed.

(** The first pass over the element of one entry, and over all of them:
    the line feed that ends an element is the start of the text before the
    next tag. *)
Lemma lex_entry entry rest :
  plainEntry entry = true ->
  Xml.lex Xml.MText
    (nl ++ proppatchProperty (fst entry) (snd entry) ++ rest)
  = (chunksOfEntry entry ++ Xml.lex Xml.MText (nl ++ rest))%list.
Proof.
  destruct entry as [key value]. cbn [fst snd]. unfold plainEntry.
  cbn [fst snd]. intros H.
  apply andb_true_iff in H as [H Hv]. apply andb_true_iff in H as [Hn Ha].
  unfold plainNamespace in Ha. apply andb_true_iff in Ha as [Ha _].
  apply andb_true_iff in Ha as [Ha _].
  unfold plainValue in Hv. apply andb_true_iff in Hv as [Hv _].
  apply andb_true_iff in Hv as [Hv _].
  rewrite proppatchProperty_tags.
  replace (nl ++ ("    " ++ "<" ++ openTagOf key ++ ">" ++ value ++ "<"
                  ++ closeTagOf key ++ ">" ++ nl) ++ rest)
    with ((nl ++ "    ") ++ "<" ++ openTagOf key ++ ">"
          ++ (value ++ "<" ++ closeTagOf key ++ ">" ++ (nl ++ rest)))
    by (unfold nl; rewrite !append_assoc; cbn [String.append];
        rewrite ?append_assoc; reflexivity).
  rewrite lex_text_tag;
    [|reflexivity|now apply tagScan_openTag|now apply openTag_markup].
  rewrite lex_text_tag; [|
    revert Hv; apply forallChars_impl; intros c Hc;
    destruct (plainChar_facts c Hc) as (Hl & _);
    unfold notLt; now rewrite Hl
   |now apply tagScan_closeTag|reflexivity].
  unfold chunksOfEntry. cbn [fst snd].
  change (QStr.isEmpty (nl ++ "    ")) with false. cbv iota.
  now rewrite <- !app_assoc.
Qed.

Lemma lex_entries properties rest :
  forallb plainEntry properties = true ->
  Xml.lex Xml.MText (nl ++ proppatchPropStr properties ++ rest)
  = (flat_map chunksOfEntry properties
     ++ Xml.lex Xml.MText (nl ++ rest))%list.
Proof.
  induction properties as [|[key value] properties IH]; intros H;
    [reflexivity|].
  cbn [forallb] in H. apply andb_true_iff in H as [He Hp].
  cbn [proppatchPropStr flat_map]. rewrite append_assoc.
  rewrite (lex_entry (key, value)) by exact He.
  rewrite IH by exact Hp. now rewrite <- app_assoc.
Qed.

(** The declaration of the body, and the first pass over what follows. *)
Lemma declaration_ProppatchJob_xml properties :
  Xml.declaration (ProppatchJob_xml properties)
  = Some (proppatchRoot properties).
Proof.
  unfold ProppatchJob_xml, proppatchRoot.
  generalize (nl ++ "<d:propertyupdate xmlns:d=" ++ QStr.dq ++ "DAV:"
              ++ QStr.dq ++ ">" ++ nl ++ "  <d:set><d:prop>" ++ nl
              ++ proppatchPropStr properties ++ "  </d:prop></d:set>" ++ nl
              ++ "</d:propertyupdate>" ++ nl) as rest.
  intros rest. now destruct rest.
Qed.

Lemma lex_proppatchRoot properties :
  forallb plainEntry properties = true ->
  Xml.lex Xml.MText (proppatchRoot properties)
  = ([Xml.CText nl; Xml.CTag propertyupdateTag;
      Xml.CText (nl ++ "  "); Xml.CTag "d:set"; Xml.CTag "d:prop"]
     ++ flat_map chunksOfEntry properties
     ++ [Xml.CText (nl ++ "  "); Xml.CTag "/d:prop"; Xml.CTag "/d:set";
         Xml.CText nl; Xml.CTag "/d:propertyupdate"; Xml.CText nl])%list.
Proof.
  intros H. unfold proppatchRoot.
  replace (nl ++ "<d:propertyupdate xmlns:d=" ++ QStr.dq ++ "DAV:" ++ QStr.dq
           ++ ">" ++ nl ++ "  <d:set><d:prop>" ++ nl
           ++ proppatchPropStr properties ++ "  </d:prop></d:set>" ++ nl
           ++ "</d:propertyupdate>" ++ nl)
    with (nl ++ "<" ++ propertyupdateTag ++ ">"
          ++ ((nl ++ "  ") ++ "<" ++ "d:set" ++ ">"
              ++ ("" ++ "<" ++ "d:prop" ++ ">"
                  ++ (nl ++ proppatchPropStr properties
                      ++ ("  </d:prop></d:set>" ++ nl
                          ++ "</d:propertyupdate>" ++ nl)))))
    by reflexivity.
  rewrite !lex_text_tag by reflexivity.
  rewrite lex_entries by exact H.
  cbn [QStr.isEmpty app String.append nl]. reflexivity.
Qed.

Lemma isModelText_entry entry :
  plainEntry entry = true ->
  Xml.isModelText (proppatchProperty (fst entry) (snd entry)) = true.
Proof.
  destruct entry as [key value]. unfold plainEntry. cbn [fst snd].
  intros H.
  apply andb_true_iff in H as [H Hv]. apply andb_true_iff in H as [Hn Ha].
  apply plainName_text in Hn. apply plainNamespace_text in Ha.
  apply plainValue_text in Hv.
  unfold proppatchProperty. cbv zeta.
  repeat (apply isModelText_app; try assumption; try reflexivity).
  destruct (negb (QStr.isEmpty (keyNsOf key))); [|reflexivity].
  repeat (apply isModelText_app; try assumption; try reflexivity).
Qed.

Lemma isModelText_proppatchRoot properties :
  forallb plainEntry properties = true ->
  Xml.isModelText (proppatchRoot properties) = true.
Proof.
  intros H. unfold proppatchRoot.
  repeat (apply isModelText_app; try reflexivity).
  induction properties as [|[key value] properties IH]; [reflexivity|].
  cbn [forallb] in H. apply andb_true_iff in H as [He Hp].
  cbn [proppatchPropStr]. apply isModelText_app; [|now apply IH].
  now apply (isModelText_entry (key, value)).
Qed.

(** The second pass: names and attributes. *)
Lemma span_all p s rest :
  forallChars p s = true -> stops p rest = true ->
  Xml.span p (s ++ rest) = (s, rest).
Proof.
  intros Hs Hr. induction s as [|c s IH].
  - destruct rest as [|c r]; [reflexivity|].
    cbn in *. apply negb_true_iff in Hr. now rewrite Hr.
  - cbn [forallChars] in Hs. apply andb_true_iff in Hs as [Hc Hs].
    cbn [String.append Xml.span]. now rewrite Hc, (IH Hs).
Qed.

Lemma readQName_name name rest :
  plainName name = true -> endsName rest = true ->
  Xml.readQName (name ++ rest) = Some ((EmptyString, name), rest).
Proof.
  intros Hn Hr. unfold Xml.readQName.
  rewrite span_all;
    [|now apply plainName_chars
     |destruct rest; [reflexivity|];
      now apply andb_true_iff in Hr as [Hr _]].
  destruct (plainName_start name Hn) as (c & s' & -> & Hc). rewrite Hc.
  destruct rest as [|c' r]; [reflexivity|].
  cbn in Hr. apply andb_true_iff in Hr as [_ Hr].
  apply negb_true_iff in Hr. now rewrite Hr.
Qed.

Lemma readQuoted_quoted v rest :
  forallChars (fun c => negb (Ascii.eqb c (ascii_of_nat 34))) v = true ->
  Xml.readQuoted (QStr.dq ++ v ++ QStr.dq ++ rest) = Some (v, rest).
Proof.
  intros H. unfold Xml.readQuoted. cbn [QStr.dq String.append].
  change (Xml.isQuote (ascii_of_nat 34)) with true. cbv iota.
  change (String (ascii_of_nat 34) rest) with (QStr.dq ++ rest).
  now rewrite span_all.
Qed.

Lemma readAttributes_xmlns ns fuel :
  forallChars isPlainAttributeChar ns = true ->
  Xml.readAttributes (S (S fuel))
    (" xmlns=" ++ QStr.dq ++ ns ++ QStr.dq ++ " ")
  = Some ([((EmptyString, "xmlns"), Xml.normalized ns)], false).
Proof.
  intros H.
  assert (Hq : Xml.readQuoted (QStr.dq ++ ns ++ QStr.dq ++ " ")
               = Some (ns, " ")).
  { apply readQuoted_quoted. revert H. apply forallChars_impl. intros c Hc.
    destruct (plainAttributeChar_facts c Hc) as (_ & _ & Hq).
    now rewrite Hq. }
  cbn [Xml.readAttributes].
  change (Xml.skipXmlSpace (" xmlns=" ++ QStr.dq ++ ns ++ QStr.dq ++ " "))
    with ("xmlns=" ++ QStr.dq ++ ns ++ QStr.dq ++ " ").
  cbn [String.append QStr.dq] in Hq |- *.
  change (Xml.readQName
            (String "x" (String "m" (String "l" (String "n" (String "s"
               (String "=" (String (ascii_of_nat 34)
                  (ns ++ String (ascii_of_nat 34) " "))))))))) 
    with (Some ((EmptyString, "xmlns"),
                String "=" (String (ascii_of_nat 34)
                              (ns ++ String (ascii_of_nat 34) " ")))).
  cbv iota beta. cbn [Ascii.eqb Bool.eqb andb QStr.isEmpty negb
                      Xml.startsWithSpace].
  change (Xml.isXmlSpace " ") with true. cbn [negb].
  now rewrite Hq.
Qed.

(** A namespace that is not reserved is none after its white space is
    made spaces. *)
Lemma normalized_spaceless v u :
  forallChars (fun c => negb (Ascii.eqb c " ")) u = true ->
  Xml.normalized v = u -> v = u.
Proof.
  revert u. induction v as [|c v IH]; intros u Hu Hv; [exact Hv|].
  cbn [Xml.normalized] in Hv. destruct u as [|d u]; [discriminate|].
  injection Hv as Hc Hv. cbn [forallChars] in Hu.
  apply andb_true_iff in Hu as [Hd Hu]. apply negb_true_iff in Hd.
  f_equal; [|now apply IH].
  destruct (Xml.isXmlSpace c); [|exact Hc].
  subst d. discriminate.
Qed.

Lemma normalized_reserved ns :
  Xml.isReservedNamespace ns = false ->
  Xml.isReservedNamespace (Xml.normalized ns) = false.
Proof.
  intros H. destruct (Xml.isReservedNamespace (Xml.normalized ns)) eqn:E;
    [|reflexivity].
  unfold Xml.isReservedNamespace in E. apply orb_true_iff in E.
  destruct E as [E|E]; apply String.eqb_eq in E;
    apply normalized_spaceless in E; try reflexivity; now subst ns.
Qed.

(** The tags of an entry, read. *)
Lemma attributeOf_endsName key : endsName (attributeOf key) = true.
Proof.
  unfold attributeOf. now destruct (negb (QStr.isEmpty (keyNsOf key))).
Qed.

Lemma readTag_openTag key :
  plainName (keyNameOf key) = true ->
  plainNamespace (keyNsOf key) = true ->
  Xml.readTag (openTagOf key)
  = Some (Xml.TagStart (EmptyString, keyNameOf key) (attributesOf key)
            false).
Proof.
  intros Hn Ha. unfold plainNamespace in Ha.
  apply andb_true_iff in Ha as [Ha Hr]. apply andb_true_iff in Ha as [Ha _].
  apply negb_true_iff in Hr. apply normalized_reserved in Hr.
  unfold Xml.readTag, openTagOf.
  pose proof (readQName_name _ _ Hn (attributeOf_endsName key)) as Hq.
  destruct (plainName_start _ Hn) as (c & s' & Es & Hc).
  assert (Hnc : Xml.isNameChar c = true).
  { unfold Xml.isNameChar. now rewrite Hc. }
  destruct (nameChar_facts c Hnc) as (_ & _ & _ & Hslash & _).
  rewrite Es in Hq |- *. cbn [String.append] in Hq |- *.
  rewrite Hslash, Hq.
  unfold attributeOf, attributesOf.
  destruct (negb (QStr.isEmpty (keyNsOf key))); [|reflexivity].
  change (String.length
            (" xmlns=" ++ QStr.dq ++ keyNsOf key ++ QStr.dq ++ " "))
    with (S (String.length
               ("xmlns=" ++ QStr.dq ++ keyNsOf key ++ QStr.dq ++ " "))).
  rewrite readAttributes_xmlns by exact Ha.
  cbn [fst forallb Xml.attributeInSubset Xml.distinctNames existsb
       QStr.isEmpty].
  change (String.eqb "xmlns" "xmlns") with true. cbv iota.
  now rewrite Hr.
Qed.

Lemma readTag_closeTag key :
  plainName (keyNameOf key) = true ->
  Xml.readTag (closeTagOf key)
  = Some (Xml.TagEnd (EmptyString, keyNameOf key)).
Proof.
  intros Hn. unfold Xml.readTag, closeTagOf. cbn [String.append].
  rewrite Ascii.eqb_refl.
  rewrite <- (append_empty_r (keyNameOf key)) at 1.
  now rewrite readQName_name.
Qed.

(** The third pass over the element of one entry. *)
Lemma resolve_entry key bs :
  Xml.lookupPrefix EmptyString bs = None ->
  Xml.resolve EmptyString (Xml.declarations (attributesOf key) ++ bs)%list
  = Some (Xml.normalized (keyNsOf key)).
Proof.
  intros Hbs. unfold attributesOf, Xml.resolve.
  destruct (keyNsOf key) as [|c s]; cbn; [now rewrite Hbs|reflexivity].
Qed.

Lemma build_entry entry x stack bs cs :
  plainEntry entry = true ->
  Xml.lookupPrefix EmptyString bs = None ->
  Xml.build Xml.InRoot (x :: stack) bs (chunksOfEntry entry ++ cs)%list
  = option_map (app (tokensOfEntry entry))
      (Xml.build Xml.InRoot (x :: stack) bs cs).
Proof.
  destruct entry as [key value]. unfold plainEntry. cbn [fst snd].
  intros H Hbs.
  apply andb_true_iff in H as [H Hv]. apply andb_true_iff in H as [Hn Ha].
  unfold plainValue in Hv. apply andb_true_iff in Hv as [_ Hv].
  apply negb_true_iff in Hv.
  unfold chunksOfEntry, tokensOfEntry. cbn [fst snd app Xml.build]. cbv zeta.
  change (QStr.contains (nl ++ "    ") "]]>") with false. cbv iota.
  rewrite readTag_openTag by assumption.
  rewrite resolve_entry by assumption.
  assert (Hclose : forall cs',
    Xml.build Xml.InRoot
      ((EmptyString, keyNameOf key, Xml.normalized (keyNsOf key), bs)
         :: x :: stack)
      (Xml.declarations (attributesOf key) ++ bs)%list
      (Xml.CTag (closeTagOf key) :: cs')
    = option_map
        (cons (Xml.EndElement (Xml.normalized (keyNsOf key))
                 (keyNameOf key)))
        (Xml.build Xml.InRoot (x :: stack) bs cs')).
  { intros cs'. cbn [Xml.build]. rewrite readTag_closeTag by assumption.
    now rewrite !String.eqb_refl. }
  destruct value as [|c v]; cbn [QStr.isEmpty app].
  - etransitivity.
    { apply (f_equal (option_map _)), (f_equal (option_map _)), Hclose. }
    now destruct (Xml.build Xml.InRoot (x :: stack) bs cs).
  - cbn [Xml.build]. rewrite Hv.
    etransitivity.
    { apply (f_equal (option_map _)), (f_equal (option_map _)),
        (f_equal (option_map _)), Hclose. }
    now destruct (Xml.build Xml.InRoot (x :: stack) bs cs).
Qed.

Lemma build_entries properties x stack bs cs :
  forallb plainEntry properties = true ->
  Xml.lookupPrefix EmptyString bs = None ->
  Xml.build Xml.InRoot (x :: stack) bs
    (flat_map chunksOfEntry properties ++ cs)%list
  = option_map (app (flat_map tokensOfEntry properties))
      (Xml.build Xml.InRoot (x :: stack) bs cs).
Proof.
  intros H Hbs. induction properties as [|entry properties IH].
  - cbn [flat_map app].
    now destruct (Xml.build Xml.InRoot (x :: stack) bs cs).
  - cbn [forallb] in H. apply andb_true_iff in H as [He Hp].
    cbn [flat_map]. rewrite <- !app_assoc.
    rewrite build_entry by assumption. rewrite IH by assumption.
    destruct (Xml.build Xml.InRoot (x :: stack) bs cs); cbn [option_map];
      [now rewrite app_assoc|reflexivity].
Qed.

Lemma tokenize_ProppatchJob_xml properties :
  forallb plainEntry properties = true ->
  Xml.tokenize extraNamespaces (ProppatchJob_xml properties)
  = Some (tokensOfProppatch properties).
Proof.
  intros H. unfold Xml.tokenize.
  rewrite declaration_ProppatchJob_xml, isModelText_proppatchRoot by exact H.
  rewrite lex_proppatchRoot by exact H.
  cbn [app Xml.build].
  change (QStr.contains nl "]]>") with false.
  change (QStr.contains (nl ++ "  ") "]]>") with false. cbv iota.
  change (Xml.allXmlSpace nl) with true. cbv iota.
  change (Xml.readTag propertyupdateTag)
    with (Some (Xml.TagStart ("d", "propertyupdate")
                  [(("xmlns", "d"), "DAV:")] false)).
  cbv iota beta zeta.
  change (Xml.resolve "d" _) with (Some DAV).
  cbv iota.
  cbn [Xml.build].
  change (QStr.contains (nl ++ "  ") "]]>") with false. cbv iota.
  change (Xml.readTag "d:set")
    with (Some (Xml.TagStart ("d", "set") [] false)).
  cbv iota beta zeta.
  change (Xml.resolve "d" _) with (Some DAV). cbv iota.
  cbn [Xml.build].
  change (Xml.readTag "d:prop")
    with (Some (Xml.TagStart ("d", "prop") [] false)).
  cbv iota beta zeta.
  change (Xml.resolve "d" _) with (Some DAV). cbv iota.
  rewrite build_entries by (exact H || reflexivity).
  reflexivity.
Qed.

(** ** The reader of [PropfindJob::finished] over these tokens *)

Section PropfindRuns.

#[local] Abbreviation iteration := propfindIteration.

Lemma runs_propfind_other st t :
  live t -> Xml.isStartElement t = false -> Xml.isEndElement t = false ->
  runs iteration st [t] st.
Proof.
  intros Hl Hs He. apply runs_iteration with (last := t); [exact Hl|].
  intros c rest Hc. cbn [app]. unfold propfindIteration.
  rewrite readNext_live by exact Hc. cbn [Xml.cur]. now rewrite Hs, He.
Qed.

Lemma runs_propfind_push st ns name :
  match curElement st with
  | top :: _ => String.eqb top "prop"
  | [] => false
  end = false ->
  runs iteration st [Xml.StartElement ns name]
    {| items := items st; curElement := name :: curElement st |}.
Proof.
  intros Htop.
  apply runs_iteration with (last := Xml.StartElement ns name);
    [reflexivity|].
  intros c rest Hc. cbn [app]. unfold propfindIteration.
  rewrite readNext_live by exact Hc.
  cbn [Xml.cur Xml.isStartElement Xml.isEndElement Xml.name Xml.tokenName].
  destruct (curElement st) as [|top below]; [reflexivity|].
  now rewrite Htop.
Qed.

Lemma runs_propfind_pop items0 ns name below :
  runs iteration {| items := items0; curElement := name :: below |}
    [Xml.EndElement ns name]
    {| items := items0; curElement := below |}.
Proof.
  apply runs_iteration with (last := Xml.EndElement ns name);
    [reflexivity|].
  intros c rest Hc. cbn [app]. unfold propfindIteration.
  rewrite readNext_live by exact Hc.
  cbn [Xml.cur Xml.isStartElement Xml.isEndElement Xml.name Xml.tokenName
       curElement items].
  now rewrite String.eqb_refl.
Qed.

Lemma runs_propfind_entry items0 below entry :
  runs iteration {| items := items0; curElement := "prop" :: below |}
    (tokensOfEntry entry)
    {| items := <[keyNameOf (fst entry) := snd entry]> items0;
       curElement := "prop" :: below |}.
Proof.
  unfold tokensOfEntry. cbn [app].
  eapply runs_cons; [now apply runs_propfind_other|].
  apply runs_iteration
    with (last := Xml.EndElement (Xml.normalized (keyNsOf (fst entry)))
                    (keyNameOf (fst entry))); [reflexivity|].
  intros c rest Hc. unfold propfindIteration.
  destruct (snd entry) as [|a v] eqn:Ev; cbn [QStr.isEmpty app];
    rewrite readNext_live by exact Hc; reflexivity.
Qed.

Lemma runs_propfind_entries properties : forall items0 below,
  runs iteration {| items := items0; curElement := "prop" :: below |}
    (flat_map tokensOfEntry properties)
    {| items :=
         fold_left (fun m entry => <[keyNameOf (fst entry) := snd entry]> m)
           properties items0;
       curElement := "prop" :: below |}.
Proof.
  induction properties as [|entry properties IH]; intros items0 below;
    [apply runs_nil|].
  cbn [flat_map fold_left].
  eapply runs_app; [apply runs_propfind_entry|apply IH].
Qed.

End PropfindRuns.

Lemma propfind_over_proppatch properties :
  PropfindJob_finished 207 (tokensOfProppatch properties)
  = Some [result (itemsOf properties)].
Proof.
  unfold PropfindJob_finished. cbn [Z.eqb Pos.eqb].
  unfold tokensOfProppatch.
  match goal with
  | |- Xml.readerLoop _ _ _ _ (Xml.mkReader ?toks) = _ =>
      replace toks with
        (([Xml.StartDocument; Xml.StartElement DAV "propertyupdate";
           Xml.Characters (nl ++ "  "); Xml.StartElement DAV "set";
           Xml.StartElement DAV "prop"]
          ++ flat_map tokensOfEntry properties
          ++ [Xml.Characters (nl ++ "  "); Xml.EndElement DAV "prop";
              Xml.EndElement DAV "set"; Xml.Characters nl;
              Xml.EndElement DAV "propertyupdate"])
         ++ [Xml.EndDocument])%list
        by (now rewrite <- !app_assoc)
  end.
  rewrite readerLoop_document
    with (st' := {| items := itemsOf properties; curElement := [] |}).
  - reflexivity.
  - apply propfindIteration_progresses.
  - cbn [app].
    eapply runs_cons; [now apply runs_propfind_other|].
    eapply runs_cons; [now apply runs_propfind_push|].
    eapply runs_cons; [now apply runs_propfind_other|].
    eapply runs_cons; [now apply runs_propfind_push|].
    eapply runs_cons; [now apply runs_propfind_push|].
    eapply runs_app; [apply runs_propfind_entries|].
    eapply runs_cons; [now apply runs_propfind_other|].
    eapply runs_cons; [apply runs_propfind_pop|].
    eapply runs_cons; [apply runs_propfind_pop|].
    eapply runs_cons; [now apply runs_propfind_other|].
    apply runs_propfind_pop.
  - intros c Hc. unfold propfindIteration.
    rewrite readNext_live by exact Hc. reflexivity.
Qed.

Lemma keyNameOf_plain key :
  QStr.containsChar key ":" = false -> keyNameOf key = key.
Proof.
  unfold QStr.containsChar, keyNameOf.
  now destruct (QStr.lastIndexOfChar ":" key).
Qed.

Lemma itemsOf_mapOf properties :
  forallb (fun entry => negb (QStr.containsChar (fst entry) ":")) properties
  = true ->
  itemsOf properties = mapOf properties.
Proof.
  unfold itemsOf, mapOf. generalize (∅ : gmap string string).
  induction properties as [|entry properties IH]; intros m H; [reflexivity|].
  cbn [forallb] in H. apply andb_true_iff in H as [He Hp].
  apply negb_true_iff in He.
  cbn [fold_left]. rewrite keyNameOf_plain by exact He. now apply IH.
Qed.

(** C8, as the code has it.  For a property map of plain entries, the
    body [ProppatchJob::start] builds is a document the reader reads to its
    end, and the loop of [PropfindJob::finished] over it gives every value
    under the name of its key without the namespace, the part after the
    last colon; of two keys with the same name the later one stays.  For
    keys without a namespace this is the map itself. *)
Theorem proppatch_body_read_back (properties : list (string * string)) :
  forallb plainEntry properties = true ->
  PropfindJob_finishedOn 207 (ProppatchJob_xml properties)
  = Some [result (itemsOf properties)]
  /\ (forallb (fun entry => negb (QStr.containsChar (fst entry) ":"))
        properties = true ->
      PropfindJob_finishedOn 207 (ProppatchJob_xml properties)
      = Some [result (mapOf properties)]).
Proof.
  intros H.
  assert (Hread : PropfindJob_finishedOn 207 (ProppatchJob_xml properties)
                  = Some [result (itemsOf properties)]).
  { unfold PropfindJob_finishedOn.
    rewrite tokenize_ProppatchJob_xml by exact H.
    apply propfind_over_proppatch. }
  split; [exact Hread|].
  intros Hplain. now rewrite <- itemsOf_mapOf.
Qed.

Lemma proppatch_body_read_back_sample :
  PropfindJob_finishedOn 207 (ProppatchJob_xml sampleProperties)
  = Some [result
            (<["tags" := EmptyString]>
               (<["favorite" := "1"]>
                  (<["displayname" := "Quarterly report"]>
                     (<["comment" := sampleComment]> ∅))))].
Proof.
  exact (proj1 (proppatch_body_read_back sampleProperties eq_refl)).
Defined.

(** C8, as the specification has it, fails: the key of an entry with a
    namespace comes back as the name alone, so the pairs read back are not
    the pairs of the map; and a value with a markup character does not come
    back at all. *)
Lemma proppatch_body_loses_namespace :
  PropfindJob_finishedOn 207
    (ProppatchJob_xml [("http://owncloud.org/ns:fileid", "42")])
  = Some [result (<["fileid" := "42"]> ∅)]
  /\ mapOf [("http://owncloud.org/ns:fileid", "42")]
     = <["http://owncloud.org/ns:fileid" := "42"]> ∅
  /\ (<["fileid" := "42"]> ∅ : gmap string string)
     <> <["http://owncloud.org/ns:fileid" := "42"]> ∅
  /\ PropfindJob_finishedOn 207 (ProppatchJob_xml [("comment", "a < b")])
     = Some [propfindFinishedWithError].
Proof.
  split; [vm_compute; reflexivity|].
  split; [reflexivity|].
  split; [|vm_compute; reflexivity].
  intros H.
  assert (Hl : (<["fileid" := "42"]> ∅ : gmap string string) !! "fileid"
               = Some "42") by apply lookup_insert_eq.
  rewrite H in Hl. now rewrite lookup_insert_ne, lookup_empty in Hl.
Qed.

(** ** Server discovery *)

(** C3, as the code has it.  A completion that is not the fallback retry
    returns [true] and reports one of the two outcomes: the instance is
    found exactly when the request did not end with too many redirects,
    the status is 200, and the first 4096 bytes of the body are not empty
    and are a JSON object with an [installed] member; in every other case
    the instance is reported as not found. *)
Theorem discovery_reports_found_iff_conditions
    (job : CheckServerJob) (reply : CheckServerReply) :
  isFallbackRetry job reply = false ->
  let '(_, events, finished) := CheckServerJob_finished job reply in
  finished = true
  /\ reportsInstanceFound events = discoverySucceeds reply
  /\ reportsInstanceNotFound events = negb (discoverySucceeds reply).
Proof.
  unfold isFallbackRetry, CheckServerJob_finished, discoverySucceeds.
  intros Hretry. cbn [subdirFallback]. rewrite Hretry.
  set (redirect := if negb (urlEqb _ _) then _ else _).
  assert (Hf : forall e, reportsInstanceFound (redirect ++ [e])
                         = reportsInstanceFound [e]).
  { intros e. unfold reportsInstanceFound. rewrite existsb_app.
    subst redirect. destruct (negb (urlEqb _ _)); reflexivity. }
  assert (Hn : forall e, reportsInstanceNotFound (redirect ++ [e])
                         = reportsInstanceNotFound [e]).
  { intros e. unfold reportsInstanceNotFound. rewrite existsb_app.
    subst redirect. destruct (negb (urlEqb _ _)); reflexivity. }
  change (4 * 1024)%nat with 4096%nat.
  destruct (isTooManyRedirects (replyError reply)).
  { cbv iota. rewrite Hf, Hn. repeat split. }
  destruct (QStr.isEmpty (QStr.left 4096 (replyBody reply))).
  { cbn [orb]. cbv iota. rewrite Hf, Hn. repeat split. }
  destruct (replyHttpStatus reply =? 200)%Z.
  2:{ cbn [orb negb]. cbv iota. rewrite Hf, Hn. repeat split. }
  cbn [negb orb andb]. cbv iota.
  destruct (Json.fromJson _) as [[|b|lit|s|els|members]|];
    cbn [Json.object]; unfold Json.contains at 1; cbn [existsb];
    try (cbv iota; rewrite Hf, Hn; repeat split; fail).
  fold (Json.contains members "installed").
  destruct (Json.contains members "installed"); cbv iota; rewrite Hf, Hn;
    repeat split.
Qed.

Lemma discovery_reports_found_sample :
  CheckServerJob_finished startedJob (statusReply smallStatus)
  = (startedJob,
     [instanceFound plainUrl
        [("installed", Json.Bool true); ("version", Json.Str "10.11.0")]],
     true)
  /\ reportsInstanceFound
       (snd (fst (CheckServerJob_finished startedJob
                    (statusReply "<html></html>")))) = false.
Proof.
  pose proof (discovery_reports_found_iff_conditions startedJob
                (statusReply "<html></html>") eq_refl) as H.
  destruct (CheckServerJob_finished startedJob (statusReply "<html></html>"))
    as [[job events] finished].
  destruct H as (_ & H & _).
  split; [vm_compute; reflexivity|exact H].
Defined.

(** C3, as the specification has it, fails: only the first 4096 bytes of
    the body are looked at.  A longer body that is a JSON object with an
    [installed] member answers a 200, is cut in the middle, and the
    instance is reported as not found. *)
Lemma discovery_looks_at_4096_bytes_only :
  discoveryConditionsOnBody (statusReply longStatus) = true
  /\ isFallbackRetry startedJob (statusReply longStatus) = false
  /\ CheckServerJob_finished startedJob (statusReply longStatus)
     = (startedJob, [instanceNotFound], true).
Proof. repeat split; vm_compute; reflexivity. Qed.

(** Once the fallback was tried, no completion starts a request. *)
Lemma finished_after_fallback job reply :
  subdirFallback job = true ->
  let '(job', events, _) := CheckServerJob_finished job reply in
  subdirFallback job' = true /\ List.filter isRequestSent events = [].
Proof.
  intros Hs. unfold CheckServerJob_finished. cbn [subdirFallback].
  rewrite Hs, andb_false_r.
  set (redirect := if negb (urlEqb _ _) then _ else _).
  assert (Hr : forall e, isRequestSent e = false ->
                         List.filter isRequestSent (redirect ++ [e])%list = []).
  { intros e He. rewrite List.filter_app. cbn. rewrite He.
    subst redirect. destruct (negb (urlEqb _ _)); reflexivity. }
  repeat match goal with
         | |- context [if ?b then _ else _] => destruct b
         end; cbv iota; cbn [subdirFallback]; (split; [reflexivity|now apply Hr]).
Qed.

Lemma completions_after_fallback replies : forall job,
  subdirFallback job = true ->
  List.filter isRequestSent (completions job replies) = [].
Proof.
  induction replies as [|reply replies IH]; intros job Hs; [reflexivity|].
  cbn [completions].
  pose proof (finished_after_fallback job reply Hs) as H.
  destruct (CheckServerJob_finished job reply) as [[job' events] b].
  destruct H as [Hs' He]. rewrite List.filter_app, He. now apply IH.
Qed.

Lemma finished_requests job reply :
  let '(job', events, _) := CheckServerJob_finished job reply in
  (List.filter isRequestSent events = [])
  \/ (subdirFallback job' = true
      /\ List.filter isRequestSent events
         = [requestSent "GET" (accountUrl (jobAccount job))
              "owncloud/status.php"]
      /\ isFallbackRetry job reply = true).
Proof.
  unfold CheckServerJob_finished, isFallbackRetry. cbn [subdirFallback].
  set (redirect := if negb (urlEqb _ _) then _ else _).
  assert (Hr : forall e, isRequestSent e = false ->
                         List.filter isRequestSent (redirect ++ [e])%list = []).
  { intros e He. rewrite List.filter_app. cbn. rewrite He.
    subst redirect. destruct (negb (urlEqb _ _)); reflexivity. }
  destruct (isContentNotFound (replyError reply) && negb (subdirFallback job)).
  - cbn [CheckServerJob_start jobPath subdirFallback serverUrl
            jobAccount maxRedirectsAllowed].
    cbv iota. right. cbn [subdirFallback]. split; [reflexivity|].
    split; [|reflexivity].
    rewrite List.filter_app. subst redirect.
    destruct (negb (urlEqb _ _)); reflexivity.
  - repeat match goal with
           | |- context [if ?b then _ else _] => destruct b
           end; cbv iota; left; now apply Hr.
Qed.

(** C5.  However the requests of a job complete, the completions start at
    most one request of their own, the fallback retry; and for a job as it
    is constructed, a first completion with a content-not-found error
    starts it, for the path [owncloud/status.php], whatever the later
    completions are. *)
Theorem discovery_retries_at_most_once :
  (forall job replies,
      (length (List.filter isRequestSent (completions job replies)) <= 1)%nat)
  /\ (forall account maxRedirects reply replies,
         replyError reply = ContentNotFoundError ->
         List.filter isRequestSent
           (completions
              (fst (CheckServerJob_start
                      (newCheckServerJob account maxRedirects)))
              (reply :: replies))
         = [requestSent "GET" (accountUrl account) "owncloud/status.php"]).
Proof.
  split.
  - intros job replies. revert job.
    induction replies as [|reply replies IH]; intros job; [cbn; lia|].
    cbn [completions].
    pose proof (finished_requests job reply) as H.
    destruct (CheckServerJob_finished job reply) as [[job' events] b].
    rewrite List.filter_app, length_app.
    destruct H as [->|(Hs & -> & _)].
    + cbn [length]. apply IH.
    + rewrite completions_after_fallback by exact Hs. cbn. lia.
  - intros account maxRedirects reply replies Herr.
    cbn [completions].
    pose proof (finished_requests
                  (fst (CheckServerJob_start
                          (newCheckServerJob account maxRedirects))) reply)
      as H.
    destruct (CheckServerJob_finished _ reply) as [[job' events] b] eqn:E.
    rewrite List.filter_app.
    destruct H as [H|(Hs & -> & _)].
    + exfalso. unfold CheckServerJob_finished in E.
      cbn [subdirFallback CheckServerJob_start newCheckServerJob fst] in E.
      rewrite Herr in E. cbn [isContentNotFound andb negb] in E.
      injection E as _ <- _.
      rewrite List.filter_app in H. cbn in H.
      destruct (List.filter isRequestSent _); discriminate.
    + rewrite completions_after_fallback by exact Hs. reflexivity.
Qed.

Lemma discovery_retries_sample :
  completions startedJob [notFoundReply; notFoundReply; notFoundReply]
  = [requestSent "GET" plainUrl "owncloud/status.php";
     instanceNotFound; instanceNotFound]
  /\ List.filter isRequestSent
       (completions startedJob [notFoundReply; notFoundReply; notFoundReply])
     = [requestSent "GET" plainUrl "owncloud/status.php"].
Proof.
  split; [vm_compute; reflexivity|].
  exact (proj2 discovery_retries_at_most_once plainAccount 10%Z
           notFoundReply [notFoundReply; notFoundReply] eq_refl).
Defined.

(** ** The auth-type probe *)

Lemma toLower_isEmpty s : QStr.isEmpty (QStr.toLower s) = QStr.isEmpty s.
Proof. destruct s; reflexivity. Qed.

(** C4, as the code has it.  The probe looks at the [WWW-Authenticate]
    header in lower case.  When it contains [bearer] followed by a space
    the result is OAuth; otherwise it is Basic, with a warning when the
    header is absent or empty and without one for any other header.  Each
    time the result is reported once, and the job deletes itself after
    that. *)
Theorem auth_type_from_challenge (headers : list (string * string)) :
  let challenge := rawHeader headers "WWW-Authenticate" in
  (QStr.contains (QStr.toLower challenge) "bearer " = true ->
   DetermineAuthTypeJob_finished headers = [authType OAuth; deleteLater])
  /\ (challenge = EmptyString ->
      DetermineAuthTypeJob_finished headers
      = [warningNoChallenge; authType Basic; deleteLater])
  /\ (challenge <> EmptyString ->
      QStr.contains (QStr.toLower challenge) "bearer " = false ->
      DetermineAuthTypeJob_finished headers = [authType Basic; deleteLater]).
Proof.
  unfold DetermineAuthTypeJob_finished. cbv zeta. repeat split.
  - intros ->. reflexivity.
  - intros ->. reflexivity.
  - intros Hne ->. rewrite toLower_isEmpty.
    destruct (rawHeader headers "WWW-Authenticate");
      [now contradict Hne|reflexivity].
Qed.

Lemma auth_type_samples :
  DetermineAuthTypeJob_finished [("www-authenticate", realm "Bearer")]
  = [authType OAuth; deleteLater]
  /\ DetermineAuthTypeJob_finished [("Content-Length", "0")]
     = [warningNoChallenge; authType Basic; deleteLater]
  /\ DetermineAuthTypeJob_finished [("WWW-Authenticate", realm "Basic")]
     = [authType Basic; deleteLater].
Proof.
  split; [|split].
  - exact (proj1 (auth_type_from_challenge
                    [("www-authenticate", realm "Bearer")]) eq_refl).
  - exact (proj1 (proj2 (auth_type_from_challenge
                           [("Content-Length", "0")])) eq_refl).
  - refine (proj2 (proj2 (auth_type_from_challenge
                            [("WWW-Authenticate", realm "Basic")])) _ eq_refl).
    discriminate.
Defined.

(** C4, as the specification has it, fails: a challenge that consists of
    the scheme alone contains the token [bearer], in any case of the
    letters, and the probe answers Basic, since no space follows. *)
Lemma bearer_without_space_is_basic :
  QStr.contains (QStr.toLower "Bearer") "bearer" = true
  /\ DetermineAuthTypeJob_finished [("WWW-Authenticate", "Bearer")]
     = [authType Basic; deleteLater].
Proof. split; reflexivity. Qed.

(** * Further properties of the jobs *)

(** ** What every run of the loops keeps *)

Section LoopInvariant.

Context {S R : Type}.
Variable body : S -> Xml.reader -> S * Xml.reader + R.
Variable finish : S -> Xml.reader -> R.
Variable inv : S -> Xml.reader -> Prop.
Variable post : R -> Prop.

Hypothesis body_keeps : forall st r st' r',
  Xml.atEnd r = false -> inv st r -> body st r = inl (st', r') -> inv st' r'.
Hypothesis body_returns : forall st r x,
  Xml.atEnd r = false -> inv st r -> body st r = inr x -> post x.
Hypothesis finish_post : forall st r,
  Xml.atEnd r = true -> inv st r -> post (finish st r).

Lemma readerLoop_invariant fuel : forall st r x,
  inv st r -> Xml.readerLoop body finish fuel st r = Some x -> post x.
Proof.
  induction fuel as [|fuel IH]; intros st r x Hinv H; cbn in H;
    destruct (Xml.atEnd r) eqn:Hend.
  - injection H as <-. now apply finish_post.
  - discriminate.
  - injection H as <-. now apply finish_post.
  - destruct (body st r) as [[st' r']|y] eqn:Hb.
    + eapply IH; [|exact H]. eapply body_keeps; eauto.
    + injection H as <-. eapply body_returns; eauto.
Qed.

End LoopInvariant.

(** *** The tokens still to come *)

Lemma readNext_suffix r : Xml.rest (Xml.readNext r) `suffix_of` Xml.rest r.
Proof.
  unfold Xml.readNext.
  destruct (Xml.cur r); try reflexivity;
    destruct (Xml.rest r); cbn;
      try apply suffix_nil; apply suffix_cons_r; reflexivity.
Qed.

Lemma readElementTextGo_suffix b : forall ts depth acc,
  Xml.rest (snd (Xml.readElementTextGo b depth acc ts)) `suffix_of` ts.
Proof.
  induction ts as [|t ts IH]; intros depth acc; [apply suffix_nil|].
  cbn [Xml.readElementTextGo].
  destruct depth; destruct t; destruct b; cbn [snd Xml.rest];
    try (apply suffix_cons_r; reflexivity);
    apply suffix_cons_r, IH.
Qed.

Lemma readElementText_suffix b r :
  Xml.rest (snd (Xml.readElementText b r)) `suffix_of` Xml.rest r.
Proof.
  unfold Xml.readElementText.
  destruct (Xml.cur r); try reflexivity. apply readElementTextGo_suffix.
Qed.

Lemma readContentsAsStringGo_suffix : forall ts level acc,
  Xml.rest (snd (readContentsAsStringGo level acc ts)) `suffix_of` ts.
Proof.
  induction ts as [|t ts IH]; intros level acc; [apply suffix_nil|].
  cbn [readContentsAsStringGo].
  destruct t; cbn [Xml.atEnd Xml.cur snd Xml.rest];
    try (apply suffix_cons_r; reflexivity);
    try (apply suffix_cons_r, IH).
  destruct (level - 1 <? 0)%Z; cbn [snd Xml.rest];
    [apply suffix_cons_r; reflexivity|apply suffix_cons_r, IH].
Qed.

Lemma readContentsAsString_suffix r :
  Xml.rest (snd (readContentsAsString r)) `suffix_of` Xml.rest r.
Proof.
  unfold readContentsAsString.
  destruct (Xml.cur r); try reflexivity; apply readContentsAsStringGo_suffix.
Qed.

Lemma advances_trans r1 r2 r3 :
  advances r1 r2 -> advances r2 r3 -> advances r1 r3.
Proof.
  induction 1 as [r|r r' _ IH|b r r' _ IH|r r' _ IH]; intros H; [exact H| | |].
  - apply advances_readNext. now apply IH.
  - apply (advances_readElementText b). now apply IH.
  - apply advances_readContentsAsString. now apply IH.
Qed.

Lemma advances_suffix r r' :
  advances r r' -> Xml.rest r' `suffix_of` Xml.rest r.
Proof.
  induction 1 as [r|r r' _ IH|b r r' _ IH|r r' _ IH]; [reflexivity| | |];
    (etrans; [exact IH|]).
  - apply readNext_suffix.
  - apply readElementText_suffix.
  - apply readContentsAsString_suffix.
Qed.

Lemma existsb_suffix {A : Type} (f : A -> bool) (l' l : list A) :
  l' `suffix_of` l -> existsb f l = false -> existsb f l' = false.
Proof.
  intros [k ->] H. rewrite existsb_app in H.
  now apply orb_false_iff in H as [_ H].
Qed.

(** *** Readers of a body that breaks off *)

Lemma readNext_brokenOff r :
  brokenOff r = true -> brokenOff (Xml.readNext r) = true.
Proof.
  unfold brokenOff, Xml.readNext, Xml.hasError. destruct r as [c ts].
  cbn [Xml.cur Xml.rest].
  destruct c; cbn; try discriminate; try reflexivity;
    destruct ts as [|t ts]; cbn; try reflexivity;
    destruct t; cbn; try discriminate; auto.
Qed.

Lemma readElementTextGo_brokenOff b : forall ts depth acc,
  breaksOff ts = true ->
  brokenOff (snd (Xml.readElementTextGo b depth acc ts)) = true.
Proof.
  induction ts as [|t ts IH]; intros depth acc H; [reflexivity|].
  cbn [Xml.readElementTextGo].
  destruct depth; destruct t; destruct b; cbn in H; try discriminate;
    try reflexivity; try (apply IH; exact H);
    unfold brokenOff; cbn; exact H.
Qed.

Lemma readElementText_brokenOff b r :
  brokenOff r = true -> brokenOff (snd (Xml.readElementText b r)) = true.
Proof.
  unfold Xml.readElementText. intros H.
  destruct r as [c ts]. cbn [Xml.cur Xml.rest].
  destruct c; try exact H. apply readElementTextGo_brokenOff. exact H.
Qed.

Lemma readContentsAsStringGo_brokenOff : forall ts level acc,
  breaksOff ts = true ->
  brokenOff (snd (readContentsAsStringGo level acc ts)) = true.
Proof.
  induction ts as [|t ts IH]; intros level acc H; [reflexivity|].
  cbn [readContentsAsStringGo].
  destruct t; cbn in H; try discriminate; cbn [Xml.atEnd Xml.cur];
    try reflexivity; try (apply IH; exact H).
  destruct (level - 1 <? 0)%Z; [unfold brokenOff; cbn; exact H|].
  apply IH; exact H.
Qed.

Lemma readContentsAsString_brokenOff r :
  brokenOff r = true -> brokenOff (snd (readContentsAsString r)) = true.
Proof.
  unfold readContentsAsString. intros H.
  destruct r as [c ts]. cbn [Xml.cur Xml.rest].
  destruct c; try exact H; apply readContentsAsStringGo_brokenOff;
    unfold brokenOff in H; cbn in H; try exact H; discriminate.
Qed.

Lemma advances_brokenOff r r' :
  advances r r' -> brokenOff r = true -> brokenOff r' = true.
Proof.
  induction 1 as [r|r r' _ IH|b r r' _ IH|r r' _ IH]; intros H;
    [exact H|apply IH..].
  - now apply readNext_brokenOff.
  - now apply readElementText_brokenOff.
  - now apply readContentsAsString_brokenOff.
Qed.

(** A reader that broke off and is at its end is in an error. *)
Lemma brokenOff_atEnd r :
  brokenOff r = true -> Xml.atEnd r = true -> Xml.hasError r = true.
Proof.
  unfold brokenOff, Xml.atEnd, Xml.hasError.
  destruct (Xml.cur r); cbn; intros; try discriminate; reflexivity.
Qed.

Lemma mkReader_brokenOff tokens :
  breaksOff tokens = true -> brokenOff (Xml.mkReader tokens) = true.
Proof. intros H. exact H. Qed.

(** ** What one iteration of [parse] does to the reader and the signals *)

Lemma davStartElement_effect expectedPath name st r :
  match davStartElement expectedPath name st r with
  | PhaseReturnFalse => True
  | PhaseContinue st1 r1 | PhaseNext st1 r1 =>
      advances r r1
      /\ emitted st1 = emitted st
      /\ insideMultiStatus st1
         = insideMultiStatus st || String.eqb name "multistatus"
      /\ sizes st1 = sizes st
  end.
Proof.
  unfold davStartElement.
  destruct (String.eqb_spec name "href") as [->|_].
  { destruct (Xml.readElementText _ r) as [text r1] eqn:E.
    destruct (negb _); [exact I|].
    repeat split; [|now rewrite orb_false_r].
    apply (advances_readElementText Xml.ErrorOnUnexpectedElement). rewrite E. apply advances_refl. }
  destruct (String.eqb_spec name "response") as [->|_].
  { repeat split; [apply advances_refl|now rewrite orb_false_r]. }
  destruct (String.eqb_spec name "propstat") as [->|_].
  { repeat split; [apply advances_refl|now rewrite orb_false_r]. }
  destruct (String.eqb_spec name "status") as [->|_]; cbn [andb].
  { destruct (insidePropstat st).
    - destruct (Xml.readElementText _ r) as [text r1] eqn:E.
      assert (advances r r1)
        by (apply (advances_readElementText Xml.ErrorOnUnexpectedElement);
            rewrite E; apply advances_refl).
      destruct (QStr.startsWith text _); repeat split; try assumption;
        now rewrite orb_false_r.
    - repeat split; [apply advances_refl|now rewrite orb_false_r]. }
  destruct (String.eqb_spec name "prop") as [->|_].
  { repeat split; [apply advances_refl|now rewrite orb_false_r]. }
  destruct (String.eqb name "multistatus").
  - repeat split; [apply advances_refl|now rewrite orb_true_r].
  - repeat split; [apply advances_refl|now rewrite orb_false_r].
Qed.

Lemma propertyElement_effect name st r :
  advances r (snd (propertyElement name st r))
  /\ emitted (fst (propertyElement name st r)) = emitted st
  /\ insideMultiStatus (fst (propertyElement name st r))
     = insideMultiStatus st
  /\ (sizes (fst (propertyElement name st r)) = sizes st
      \/ exists h s,
           sizes st = Some h
           /\ sizes (fst (propertyElement name st r))
              = Some (<[currentHref st := s]> h)).
Proof.
  unfold propertyElement.
  destruct (readContentsAsString r) as [content r1] eqn:E.
  assert (advances r r1)
    by (apply advances_readContentsAsString; rewrite E; apply advances_refl).
  destruct (String.eqb name "resourcetype" && QStr.contains content _);
    [repeat split; auto|].
  destruct (String.eqb name "size"); [|repeat split; auto].
  destruct (QStr.toLongLong content) as [s|]; [|repeat split; auto].
  destruct (sizes st) as [h|] eqn:Es; repeat split; auto.
  right. exists h, s. split; reflexivity.
Qed.

Lemma davEndElement_effect st r :
  insideMultiStatus (davEndElement st r) = insideMultiStatus st
  /\ sizes (davEndElement st r) = sizes st
  /\ (emitted (davEndElement st r) = emitted st
      \/ exists href properties,
           emitted (davEndElement st r)
           = (emitted st ++ [directoryListingIterated href properties])%list).
Proof.
  unfold davEndElement.
  destruct (String.eqb (Xml.name r) "response").
  { split; [reflexivity|]. split; [reflexivity|].
    right. eexists _, _. reflexivity. }
  destruct (String.eqb (Xml.name r) "propstat").
  { cbn. destruct (currentPropsHaveHttp200 st); repeat split; auto. }
  destruct (String.eqb (Xml.name r) "prop"); repeat split; auto.
Qed.

Lemma parseIteration_effect expectedPath st r st' r' :
  parseIteration expectedPath st r = inl (st', r') ->
  advances r r'
  /\ insideMultiStatus st'
     = insideMultiStatus st || isMultistatusStart (Xml.cur (Xml.readNext r))
  /\ (emitted st' = emitted st
      \/ exists href properties,
           emitted st'
           = (emitted st ++ [directoryListingIterated href properties])%list)
  /\ (sizes st' = sizes st
      \/ exists h href s,
           sizes st = Some h /\ sizes st' = Some (<[href := s]> h)).
Proof.
  unfold parseIteration, isMultistatusStart.
  set (r0 := Xml.readNext r).
  fold (Xml.namespaceUri r0). fold (Xml.name r0).
  pose proof (davStartElement_effect expectedPath (Xml.name r0) st r0) as Hd.
  assert (Hfirst :
    match
      (if Xml.isStartElement (Xml.cur r0)
          && String.eqb (Xml.namespaceUri r0) DAV
       then davStartElement expectedPath (Xml.name r0) st r0
       else PhaseNext st r0)
    with
    | PhaseReturnFalse => True
    | PhaseContinue st1 r1 | PhaseNext st1 r1 =>
        advances r0 r1 /\ emitted st1 = emitted st
        /\ insideMultiStatus st1
           = insideMultiStatus st
             || Xml.isStartElement (Xml.cur r0)
                && String.eqb (Xml.namespaceUri r0) DAV
                && String.eqb (Xml.name r0) "multistatus"
        /\ sizes st1 = sizes st
    end).
  { destruct (Xml.isStartElement (Xml.cur r0)
              && String.eqb (Xml.namespaceUri r0) DAV); [exact Hd|].
    repeat split; [apply advances_refl|now rewrite orb_false_r]. }
  clear Hd.
  destruct (if Xml.isStartElement (Xml.cur r0)
               && String.eqb (Xml.namespaceUri r0) DAV
            then _ else _) as [|st1 r1|st1 r1]; [discriminate| |].
  - destruct Hfirst as (Ha & He & Hm & Hs). intros [= <- <-].
    split; [now apply advances_readNext|]. split; [exact Hm|].
    split; now left.
  - destruct Hfirst as (Ha & He & Hm & Hs).
    pose proof (propertyElement_effect (Xml.name r0) st1 r1)
      as (Pa & Pe & Pm & Ps).
    destruct (if Xml.isStartElement (Xml.cur r0) && insidePropstat st1
                 && insideProp st1
              then propertyElement (Xml.name r0) st1 r1 else (st1, r1))
      as [st2 r2] eqn:E2.
    assert (H2 : advances r1 r2 /\ emitted st2 = emitted st1
                 /\ insideMultiStatus st2 = insideMultiStatus st1
                 /\ (sizes st2 = sizes st1
                     \/ exists h s,
                          sizes st1 = Some h
                          /\ sizes st2 = Some (<[currentHref st1 := s]> h))).
    { destruct (Xml.isStartElement (Xml.cur r0) && insidePropstat st1
                && insideProp st1).
      - rewrite E2 in Pa, Pe, Pm, Ps. now repeat split.
      - injection E2 as <- <-. repeat split; auto. apply advances_refl. }
    destruct H2 as (A2 & E2' & M2 & S2).
    intros [= <- <-].
    assert (Hadv : advances r r2).
    { apply advances_readNext. fold r0.
      exact (advances_trans _ _ _ Ha A2). }
    split; [exact Hadv|].
    assert (Hsz : sizes st2 = sizes st
                  \/ exists h href s,
                       sizes st = Some h /\ sizes st2 = Some (<[href := s]> h)).
    { destruct S2 as [S2|(h & s & S2 & S2')]; [left; congruence|].
      right. exists h, (currentHref st1), s. split; congruence. }
    pose proof (davEndElement_effect st2 r2) as (Dm & Ds & De).
    destruct (Xml.isEndElement (Xml.cur r0)).
    + destruct (String.eqb (Xml.namespaceUri r2) DAV).
      * split; [now rewrite Dm, M2, Hm|].
        rewrite Ds, <- He, <- E2'. split; [exact De|exact Hsz].
      * split; [now rewrite M2, Hm|].
        split; [left; now rewrite E2', He|exact Hsz].
    + split; [now rewrite M2, Hm|].
      split; [left; now rewrite E2', He|exact Hsz].
Qed.

Lemma parseIteration_returns expectedPath st r x :
  parseIteration expectedPath st r = inr x -> x = parseReturn false st.
Proof.
  unfold parseIteration. cbv zeta.
  match goal with
  | |- match ?first with _ => _ end = _ -> _ =>
      destruct first as [|st1 r1|st1 r1]
  end; [now intros [= <-]|discriminate|].
  match goal with
  | |- (let '(_, _) := ?second in _) = _ -> _ => destruct second
  end.
  discriminate.
Qed.

(** ** Every run of [parse] *)

(** X1. A body without a [multistatus] start tag of the DAV namespace is
    no WebDAV response: [parse] returns [false] on it, whatever else the
    body holds. *)
Theorem parse_without_multistatus_fails
    (tokens : list Xml.token) (sizes0 : option (gmap string Z))
    (expectedPath : string) :
  existsb isMultistatusStart tokens = false ->
  exists res,
    parseTokens tokens sizes0 expectedPath = Some res
    /\ returned res = false.
Proof.
  intros Hno.
  destruct (parseTokens_returns tokens sizes0 expectedPath) as [res Hres].
  exists res. split; [exact Hres|].
  unfold parseTokens in Hres. revert Hres.
  apply readerLoop_invariant
    with (inv := fun st r =>
                   insideMultiStatus st = false
                   /\ existsb isMultistatusStart (Xml.rest r) = false)
         (post := fun res => returned res = false).
  - intros st r st' r' Hend [Hm Hr] Hb.
    apply parseIteration_effect in Hb as (Ha & Hm' & _).
    split.
    + rewrite Hm', Hm. cbn [orb].
      unfold Xml.readNext. destruct r as [c ts]. cbn [Xml.cur Xml.rest] in *.
      destruct c; try reflexivity; destruct ts as [|t ts]; try reflexivity;
        cbn in Hr; now apply orb_false_iff in Hr as [Ht _].
    + eapply existsb_suffix; [apply advances_suffix; exact Ha|exact Hr].
  - intros st r x _ _ Hb. apply parseIteration_returns in Hb. now subst x.
  - intros st r _ [Hm _]. unfold parseFinish.
    destruct (Xml.hasError r); [reflexivity|]. now rewrite Hm.
  - split; [reflexivity|exact Hno].
Qed.

Lemma parse_without_multistatus_sample :
  exists res,
    LsColXMLParser_parse errorBody (Some ∅) "/dav" = Some res
    /\ returned res = false.
Proof.
  exact (parse_without_multistatus_fails
           (default [] (Xml.tokenize extraNamespaces errorBody))
           (Some ∅) "/dav" eq_refl).
Defined.

(** X2. A body that is no whole XML document, because the reader comes to
    an error or to the end of the text before the end of the document,
    makes [parse] return [false]. *)
Theorem parse_of_broken_body_fails
    (tokens : list Xml.token) (sizes0 : option (gmap string Z))
    (expectedPath : string) :
  breaksOff tokens = true ->
  exists res,
    parseTokens tokens sizes0 expectedPath = Some res
    /\ returned res = false.
Proof.
  intros Hb.
  destruct (parseTokens_returns tokens sizes0 expectedPath) as [res Hres].
  exists res. split; [exact Hres|].
  unfold parseTokens in Hres. revert Hres.
  apply readerLoop_invariant
    with (inv := fun _ r => brokenOff r = true)
         (post := fun res => returned res = false).
  - intros st r st' r' _ Hr Hi.
    apply parseIteration_effect in Hi as (Ha & _).
    now apply (advances_brokenOff r r').
  - intros st r x _ _ Hi. apply parseIteration_returns in Hi. now subst x.
  - intros st r Hend Hr. unfold parseFinish.
    now rewrite (brokenOff_atEnd r Hr Hend).
  - now apply mkReader_brokenOff.
Qed.

Lemma parse_of_broken_body_sample :
  exists res,
    LsColXMLParser_parse truncatedBody (Some ∅) "/dav" = Some res
    /\ returned res = false.
Proof.
  exact (parse_of_broken_body_fails
           (default [] (Xml.tokenize extraNamespaces truncatedBody))
           (Some ∅) "/dav" eq_refl).
Defined.

(** The signals of [parse] are entries, followed by the list of folders and
    [finishedWithoutError] exactly when it returns [true]. *)
Lemma parseTokens_signals tokens sizes0 expectedPath res :
  parseTokens tokens sizes0 expectedPath = Some res ->
  exists entries,
    forallb isIterated entries = true
    /\ (returned res = false /\ signals res = entries
        \/ returned res = true
           /\ exists folders,
                signals res
                = (entries ++ [directoryListingSubfolders folders;
                               finishedWithoutError])%list).
Proof.
  unfold parseTokens.
  apply readerLoop_invariant
    with (inv := fun st _ => forallb isIterated (emitted st) = true)
         (post := fun res =>
            exists entries,
              forallb isIterated entries = true
              /\ (returned res = false /\ signals res = entries
                  \/ returned res = true
                     /\ exists folders,
                          signals res
                          = (entries ++ [directoryListingSubfolders folders;
                                         finishedWithoutError])%list)).
  - intros st r st' r' _ Hinv Hi.
    apply parseIteration_effect in Hi as (_ & _ & [He|(h & m & He)] & _);
      rewrite He; [exact Hinv|].
    rewrite forallb_app, Hinv. reflexivity.
  - intros st r x _ Hinv Hi. apply parseIteration_returns in Hi. subst x.
    exists (emitted st). split; [exact Hinv|]. left. split; reflexivity.
  - intros st r _ Hinv. exists (emitted st). split; [exact Hinv|].
    unfold parseFinish.
    destruct (Xml.hasError r); [left; split; reflexivity|].
    destruct (negb (insideMultiStatus st)); [left; split; reflexivity|].
    right. split; [reflexivity|]. exists (folders st). cbn.
    now rewrite <- app_assoc.
  - reflexivity.
Qed.

(** X3. Whatever the reply is, [LsColJob::finished] forwards entries and
    then ends with exactly one of two things: [finishedWithError], or the
    list of folders followed by [finishedWithoutError]. *)
Theorem LsColJob_finished_ends_once
    (httpCode : Z) (contentType : string) (body : list Xml.token)
    (sizes0 : gmap string Z) (expectedPath : string) :
  exists entries final sizes',
    LsColJob_finished httpCode contentType body sizes0 expectedPath
    = Some ((map forwarded entries ++ final)%list, sizes')
    /\ forallb isIterated entries = true
    /\ (final = [finishedWithError]
        \/ exists folders,
             final = [forwarded (directoryListingSubfolders folders);
                      forwarded finishedWithoutError]).
Proof.
  unfold LsColJob_finished.
  destruct ((httpCode =? 207)%Z && QStr.contains contentType _);
    [|exists [], [finishedWithError], sizes0; repeat split; now left].
  destruct (parseTokens_returns body (Some sizes0) expectedPath)
    as [res Hres].
  rewrite Hres.
  destruct (parseTokens_signals _ _ _ _ Hres)
    as (entries & Hentries & [[Hr Hs]|[Hr (folders & Hs)]]);
    rewrite Hr, Hs; cbn [negb].
  - exists entries, [finishedWithError], (default sizes0 (sizesAfter res)).
    repeat split; [exact Hentries|now left].
  - exists entries,
      [forwarded (directoryListingSubfolders folders);
       forwarded finishedWithoutError],
      (default sizes0 (sizesAfter res)).
    rewrite map_app. repeat split; [exact Hentries|].
    right. now exists folders.
Qed.

(** X4. A listing never takes an entry out of the hash of sizes of the
    job: every key it held before [LsColJob::finished] it holds after,
    whatever the reply is. *)
Theorem LsColJob_finished_keeps_sizes
    (httpCode : Z) (contentType : string) (body : list Xml.token)
    (sizes0 : gmap string Z) (expectedPath : string) :
  exists out sizes',
    LsColJob_finished httpCode contentType body sizes0 expectedPath
    = Some (out, sizes')
    /\ forall href, is_Some (sizes0 !! href) -> is_Some (sizes' !! href).
Proof.
  destruct (LsColJob_finished_returns httpCode contentType body sizes0
              expectedPath) as [[out sizes'] H].
  exists out, sizes'. split; [exact H|]. intros href Hin.
  revert H. unfold LsColJob_finished.
  destruct ((httpCode =? 207)%Z && QStr.contains contentType _);
    [|now intros [= _ <-]].
  destruct (parseTokens _ _ _) as [res|] eqn:Hres; [|discriminate].
  intros H.
  assert (Hsizes : exists h, sizesAfter res = Some h /\ is_Some (h !! href)).
  { revert Hres. unfold parseTokens.
    apply readerLoop_invariant
      with (inv := fun st _ =>
                     exists h, sizes st = Some h /\ is_Some (h !! href))
           (post := fun res =>
              exists h, sizesAfter res = Some h /\ is_Some (h !! href)).
    - intros st r st' r' _ (h & Hh & Hk) Hi.
      apply parseIteration_effect in Hi
        as (_ & _ & _ & [Hs|(h' & k & s & Hs & Hs')]).
      + exists h. now rewrite Hs.
      + rewrite Hs'. eexists. split; [reflexivity|].
        rewrite Hh in Hs. injection Hs as <-.
        destruct (decide (k = href)) as [->|Hne].
        * rewrite lookup_insert_eq. now eexists.
        * now rewrite lookup_insert_ne.
    - intros st r x _ Hinv Hi. apply parseIteration_returns in Hi. now subst x.
    - intros st r _ Hinv. unfold parseFinish.
      destruct (Xml.hasError r); [exact Hinv|].
      destruct (negb (insideMultiStatus st)); exact Hinv.
    - exists sizes0. now split. }
  destruct Hsizes as (h & Hh & Hk). rewrite Hh in H. cbn in H.
  destruct (negb (returned res)); injection H as _ <-; exact Hk.
Qed.

(** *** The hash of sizes and the signals *)

Lemma readerLoop_map {S R S' R' : Type}
    (body : S -> Xml.reader -> S * Xml.reader + R)
    (body' : S' -> Xml.reader -> S' * Xml.reader + R')
    (finish : S -> Xml.reader -> R) (finish' : S' -> Xml.reader -> R')
    (f : S -> S') (g : R -> R') :
  (forall st r,
     body' (f st) r
     = match body st r with
       | inl (st', r') => inl (f st', r')
       | inr x => inr (g x)
       end) ->
  (forall st r, finish' (f st) r = g (finish st r)) ->
  forall fuel st r,
    Xml.readerLoop body' finish' fuel (f st) r
    = option_map g (Xml.readerLoop body finish fuel st r).
Proof.
  intros Hb Hf. induction fuel as [|fuel IH]; intros st r; cbn;
    destruct (Xml.atEnd r); cbn; rewrite ?Hf; try reflexivity.
  rewrite Hb. destruct (body st r) as [[st' r']|x]; [apply IH|reflexivity].
Qed.

Lemma davStartElement_eraseSizes expectedPath name st r :
  davStartElement expectedPath name (eraseSizes st) r
  = match davStartElement expectedPath name st r with
    | PhaseReturnFalse => PhaseReturnFalse
    | PhaseContinue st1 r1 => PhaseContinue (eraseSizes st1) r1
    | PhaseNext st1 r1 => PhaseNext (eraseSizes st1) r1
    end.
Proof.
  unfold davStartElement, eraseSizes.
  destruct (String.eqb name "href").
  { destruct (Xml.readElementText _ r) as [text r1].
    destruct (negb _); reflexivity. }
  destruct (String.eqb name "response"); [reflexivity|].
  destruct (String.eqb name "propstat"); [reflexivity|].
  cbn [insidePropstat set_sizes].
  destruct (String.eqb name "status" && insidePropstat st).
  { destruct (Xml.readElementText _ r) as [text r1].
    destruct (QStr.startsWith text _); reflexivity. }
  destruct (String.eqb name "prop"); [reflexivity|].
  destruct (String.eqb name "multistatus"); reflexivity.
Qed.

Lemma propertyElement_eraseSizes name st r :
  propertyElement name (eraseSizes st) r
  = (eraseSizes (fst (propertyElement name st r)),
     snd (propertyElement name st r)).
Proof.
  unfold propertyElement, eraseSizes.
  destruct (readContentsAsString r) as [content r1].
  destruct (String.eqb name "resourcetype" && QStr.contains content _);
    [reflexivity|].
  destruct (String.eqb name "size"); [|reflexivity].
  destruct (QStr.toLongLong content); [|reflexivity].
  cbn [sizes set_sizes]. destruct (sizes st); reflexivity.
Qed.

Lemma davEndElement_eraseSizes st r :
  davEndElement (eraseSizes st) r = eraseSizes (davEndElement st r).
Proof.
  unfold davEndElement, eraseSizes.
  destruct (String.eqb (Xml.name r) "response"); [reflexivity|].
  destruct (String.eqb (Xml.name r) "propstat").
  { cbn. destruct (currentPropsHaveHttp200 st); reflexivity. }
  destruct (String.eqb (Xml.name r) "prop"); reflexivity.
Qed.

Lemma parseIteration_eraseSizes expectedPath st r :
  parseIteration expectedPath (eraseSizes st) r
  = match parseIteration expectedPath st r with
    | inl (st', r') => inl (eraseSizes st', r')
    | inr res => inr (withoutSizes res)
    end.
Proof.
  unfold parseIteration. cbv zeta.
  rewrite davStartElement_eraseSizes.
  destruct (Xml.isStartElement (Xml.cur (Xml.readNext r))
            && String.eqb (Xml.namespaceUri (Xml.readNext r)) DAV).
  - destruct (davStartElement _ _ st _) as [|st1 r1|st1 r1];
      [reflexivity|reflexivity|].
    change (insidePropstat (eraseSizes st1)) with (insidePropstat st1).
    change (insideProp (eraseSizes st1)) with (insideProp st1).
    rewrite propertyElement_eraseSizes.
    destruct (Xml.isStartElement _ && insidePropstat st1 && insideProp st1).
    + destruct (propertyElement _ st1 r1) as [st2 r2]. cbn [fst snd].
      rewrite davEndElement_eraseSizes.
      destruct (Xml.isEndElement _); [|reflexivity].
      destruct (String.eqb (Xml.namespaceUri r2) DAV); reflexivity.
    + rewrite davEndElement_eraseSizes.
      destruct (Xml.isEndElement _); [|reflexivity].
      destruct (String.eqb (Xml.namespaceUri r1) DAV); reflexivity.
  - change (insidePropstat (eraseSizes st)) with (insidePropstat st).
    change (insideProp (eraseSizes st)) with (insideProp st).
    rewrite propertyElement_eraseSizes.
    destruct (Xml.isStartElement _ && insidePropstat st && insideProp st).
    + destruct (propertyElement _ st _) as [st2 r2]. cbn [fst snd].
      rewrite davEndElement_eraseSizes.
      destruct (Xml.isEndElement _); [|reflexivity].
      destruct (String.eqb (Xml.namespaceUri r2) DAV); reflexivity.
    + rewrite davEndElement_eraseSizes.
      destruct (Xml.isEndElement _); [|reflexivity].
      destruct (String.eqb (Xml.namespaceUri (Xml.readNext r)) DAV);
        reflexivity.
Qed.

(** X5. The signals of [parse] and the value it returns do not depend on
    the hash of sizes it is given: with a null pointer it does the same,
    and only records no size. *)
Theorem parse_without_sizes
    (tokens : list Xml.token) (sizes0 : option (gmap string Z))
    (expectedPath : string) :
  parseTokens tokens None expectedPath
  = option_map withoutSizes (parseTokens tokens sizes0 expectedPath).
Proof.
  unfold parseTokens.
  change (initialParseState None) with (eraseSizes (initialParseState sizes0)).
  apply readerLoop_map.
  - apply parseIteration_eraseSizes.
  - intros st r. unfold parseFinish, eraseSizes. cbn.
    destruct (Xml.hasError r); [reflexivity|].
    destruct (negb (insideMultiStatus st)); reflexivity.
Qed.

(** ** [PropfindJob::finished] over a multistatus body *)

Section SequenceRuns.

Context {S R A : Type}.
Variable body : S -> Xml.reader -> S * Xml.reader + R.
Variable one : A -> list Xml.token -> Prop.
Variable inv : S -> Prop.
Variable step : S -> A -> S.

Hypothesis runs_gaps : forall st g, isGap g -> runs body st g st.
Hypothesis runs_one : forall a t st,
  one a t -> inv st -> runs body st t (step st a).
Hypothesis step_inv : forall a st, inv st -> inv (step st a).

Lemma runs_sequenceTokens l toks :
  sequenceTokens one l toks ->
  forall st, inv st -> runs body st toks (fold_left step l st).
Proof.
  induction 1 as [|a l t g ts Ha Hg _ IH]; intros st Hst; [apply runs_nil|].
  cbn [fold_left].
  eapply runs_app; [apply (runs_one a); assumption|].
  eapply runs_app; [now apply runs_gaps|].
  apply IH. now apply step_inv.
Qed.

End SequenceRuns.

(** *** [readElementText(SkipChildElements)] over the content of an element *)

Lemma skipCurrentElement_nodes_of (P := fun n => forall d acc rest,
    Xml.readElementTextGo Xml.SkipChildElements (Datatypes.S d) acc
      (tokensOf n ++ rest)%list
    = Xml.readElementTextGo Xml.SkipChildElements (Datatypes.S d) acc rest) :
  forall ns, Forall P ns -> forall d acc rest,
    Xml.readElementTextGo Xml.SkipChildElements (Datatypes.S d) acc
      (tokensOfNodes ns ++ rest)%list
    = Xml.readElementTextGo Xml.SkipChildElements (Datatypes.S d) acc rest.
Proof.
  induction 1 as [|n ns Hn _ IH]; intros d acc rest; [reflexivity|].
  unfold tokensOfNodes in *. cbn [flat_map].
  now rewrite <- app_assoc, Hn, IH.
Qed.

Lemma skipCurrentElement_node n : forall d acc rest,
  Xml.readElementTextGo Xml.SkipChildElements (Datatypes.S d) acc
    (tokensOf n ++ rest)%list
  = Xml.readElementTextGo Xml.SkipChildElements (Datatypes.S d) acc rest.
Proof.
  induction n as [ns name children IH|s|s|t] using node_ind;
    intros d acc rest; [|reflexivity..].
  cbn [tokensOf]. rewrite <- app_comm_cons. cbn [Xml.readElementTextGo].
  rewrite <- app_assoc.
  change (flat_map tokensOf children) with (tokensOfNodes children).
  rewrite (skipCurrentElement_nodes_of children IH). reflexivity.
Qed.

Lemma skipCurrentElement_nodes ns : forall d acc rest,
  Xml.readElementTextGo Xml.SkipChildElements (Datatypes.S d) acc
    (tokensOfNodes ns ++ rest)%list
  = Xml.readElementTextGo Xml.SkipChildElements (Datatypes.S d) acc rest.
Proof.
  apply skipCurrentElement_nodes_of.
  induction ns; constructor; [intros; apply skipCurrentElement_node|assumption].
Qed.

Lemma readElementText_skipping_nodes ns : forall acc rest,
  Xml.readElementTextGo Xml.SkipChildElements 0 acc
    (tokensOfNodes ns ++ rest)%list
  = Xml.readElementTextGo Xml.SkipChildElements 0 (acc ++ textOfNodes ns)
      rest.
Proof.
  induction ns as [|n ns IH]; intros acc rest.
  - cbn. now rewrite append_empty_r.
  - unfold tokensOfNodes, textOfNodes in *. cbn [flat_map fold_right].
    rewrite <- app_assoc, <- append_assoc.
    destruct n as [ns' name children|s|s|t]; cbn [tokensOf textOf].
    + rewrite <- app_comm_cons. cbn [Xml.readElementTextGo].
      rewrite <- app_assoc.
      change (flat_map tokensOf children) with (tokensOfNodes children).
      rewrite skipCurrentElement_nodes. cbn [app Xml.readElementTextGo].
      rewrite IH. now rewrite append_empty_r.
    + cbn [app Xml.readElementTextGo]. apply IH.
    + cbn [app Xml.readElementTextGo]. rewrite IH.
      now rewrite append_empty_r.
    + cbn [app Xml.readElementTextGo]. rewrite IH.
      now rewrite append_empty_r.
Qed.

Lemma readElementText_skipping_property p rest :
  Xml.readElementText Xml.SkipChildElements
    (Xml.Reader (Xml.StartElement (prop_ns p) (prop_name p))
       (tokensOfNodes (prop_content p)
        ++ Xml.EndElement (prop_ns p) (prop_name p) :: rest)%list)
  = (textOfNodes (prop_content p),
     Xml.Reader (Xml.EndElement (prop_ns p) (prop_name p)) rest).
Proof.
  unfold Xml.readElementText. cbn [Xml.cur Xml.rest].
  rewrite readElementText_skipping_nodes. reflexivity.
Qed.

(** *** The loop over the elements of the body *)

Section PropfindBody.

#[local] Abbreviation iteration := propfindIteration.

Lemma runs_propfind_gap st g : isGap g -> runs iteration st g st.
Proof.
  induction g as [|t g IH]; intros H; [apply runs_nil|].
  cbn in H. apply andb_true_iff in H as [Ht Hg].
  eapply runs_cons; [|now apply IH].
  apply runs_propfind_other; destruct t; try discriminate; reflexivity.
Qed.

Lemma runs_propfind_start items0 stack ns name :
  offProp stack = true ->
  runs iteration {| items := items0; curElement := stack |}
    [Xml.StartElement ns name]
    {| items := items0; curElement := name :: stack |}.
Proof.
  intros H.
  apply (runs_propfind_push {| items := items0; curElement := stack |}).
  cbn [curElement]. destruct stack as [|top below]; [reflexivity|].
  cbn in H. now apply negb_true_iff in H.
Qed.

Lemma runs_propfind_property items0 below p :
  runs iteration {| items := items0; curElement := "prop" :: below |}
    (tokensOfProperty p)
    {| items := itemsAfter [p] items0; curElement := "prop" :: below |}.
Proof.
  apply runs_iteration
    with (last := Xml.EndElement (prop_ns p) (prop_name p)); [reflexivity|].
  intros c rest Hc. unfold propfindIteration, tokensOfProperty.
  rewrite <- app_comm_cons, readNext_live by exact Hc.
  cbn [Xml.cur Xml.isStartElement curElement].
  change (String.eqb "prop" "prop") with true. cbv iota.
  rewrite <- app_assoc. cbn [app].
  rewrite readElementText_skipping_property. reflexivity.
Qed.

Lemma runs_propfind_properties ps toks items0 below :
  sequenceTokens propertyTokens ps toks ->
  runs iteration {| items := items0; curElement := "prop" :: below |} toks
    {| items := itemsAfter ps items0; curElement := "prop" :: below |}.
Proof.
  intros Hseq.
  pose proof (runs_sequenceTokens propfindIteration propertyTokens
                (fun st => curElement st = "prop" :: below)
                (fun st p =>
                   {| items := itemsAfter [p] (items st);
                      curElement := curElement st |})) as H.
  specialize (H runs_propfind_gap).
  assert (H1 : forall a t st, propertyTokens a t ->
                 curElement st = "prop" :: below ->
                 runs iteration st t
                   {| items := itemsAfter [a] (items st);
                      curElement := curElement st |}).
  { intros p t [i s] -> Hs. cbn in Hs. subst s.
    apply runs_propfind_property. }
  specialize (H H1 (fun _ _ Hs => Hs) ps toks Hseq
                {| items := items0; curElement := "prop" :: below |} eq_refl).
  replace {| items := itemsAfter ps items0; curElement := "prop" :: below |}
    with (fold_left
            (fun st p =>
               {| items := itemsAfter [p] (items st);
                  curElement := curElement st |})
            ps {| items := items0; curElement := "prop" :: below |});
    [exact H|].
  clear. revert items0. induction ps as [|p ps IH]; intros items0;
    [reflexivity|].
  cbn [fold_left]. cbn [items curElement]. now rewrite IH.
Qed.

Lemma runs_propfind_status items0 stack status g :
  offProp stack = true -> isGap g ->
  runs iteration {| items := items0; curElement := stack |}
    (statusTokens status g)
    {| items := items0; curElement := stack |}.
Proof.
  intros Hoff Hg. destruct status as [s|]; [|apply runs_nil].
  cbn [statusTokens].
  eapply runs_app; [now apply runs_propfind_start|].
  eapply runs_app.
  { apply runs_propfind_gap. unfold charactersOf.
    destruct (QStr.isEmpty s); reflexivity. }
  eapply runs_app; [apply runs_propfind_pop|].
  now apply runs_propfind_gap.
Qed.

Lemma runs_propfind_propstat items0 stack ps toks :
  propstatTokens ps toks ->
  offProp stack = true ->
  runs iteration {| items := items0; curElement := stack |} toks
    {| items := itemsAfter (ps_props ps) items0; curElement := stack |}.
Proof.
  intros Htoks Hoff.
  destruct Htoks as [ps g1 g2 g3 g4 toks Hg1 Hg2 Hg3 Hg4 Hseq].
  eapply runs_app; [now apply runs_propfind_start|].
  eapply runs_app; [now apply runs_propfind_gap|].
  eapply runs_app; [now apply runs_propfind_start|].
  eapply runs_app; [now apply runs_propfind_gap|].
  eapply runs_app;
    [apply (runs_propfind_properties (ps_props ps)); exact Hseq|].
  eapply runs_app; [apply runs_propfind_pop|].
  eapply runs_app; [now apply runs_propfind_gap|].
  eapply runs_app; [now apply runs_propfind_status|].
  apply runs_propfind_pop.
Qed.

Lemma itemsAfter_app ps qs m :
  itemsAfter (ps ++ qs) m = itemsAfter qs (itemsAfter ps m).
Proof. unfold itemsAfter. apply fold_left_app. Qed.

Lemma runs_propfind_propstats pss toks stack :
  sequenceTokens propstatTokens pss toks ->
  offProp stack = true ->
  forall items0,
  runs iteration {| items := items0; curElement := stack |} toks
    {| items := itemsAfter (flat_map ps_props pss) items0;
       curElement := stack |}.
Proof.
  intros Hseq Hoff.
  induction Hseq as [|ps pss t g ts Hps Hg _ IH]; intros items0;
    [apply runs_nil|].
  cbn [flat_map]. rewrite itemsAfter_app.
  eapply runs_app; [apply (runs_propfind_propstat _ _ ps); assumption|].
  eapply runs_app; [now apply runs_propfind_gap|].
  apply IH.
Qed.

Lemma runs_propfind_response items0 stack r toks :
  responseTokens r toks ->
  offProp stack = true ->
  runs iteration {| items := items0; curElement := stack |} toks
    {| items := itemsAfter (allProperties r) items0; curElement := stack |}.
Proof.
  intros Htoks Hoff.
  destruct Htoks as [r g1 g2 toks Hg1 Hg2 Hseq].
  eapply runs_app; [now apply runs_propfind_start|].
  eapply runs_app; [now apply runs_propfind_gap|].
  eapply runs_app; [now apply runs_propfind_start|].
  eapply runs_app.
  { apply runs_propfind_gap. unfold charactersOf.
    destruct (QStr.isEmpty (resp_href r)); reflexivity. }
  eapply runs_app; [apply runs_propfind_pop|].
  eapply runs_app; [now apply runs_propfind_gap|].
  eapply runs_app;
    [apply (runs_propfind_propstats (resp_propstats r)); [exact Hseq|]; reflexivity|].
  apply runs_propfind_pop.
Qed.

Lemma runs_propfind_responses doc toks stack :
  sequenceTokens responseTokens doc toks ->
  offProp stack = true ->
  forall items0,
  runs iteration {| items := items0; curElement := stack |} toks
    {| items := itemsAfter (flat_map allProperties doc) items0;
       curElement := stack |}.
Proof.
  intros Hseq Hoff.
  induction Hseq as [|r doc t g ts Hr Hg _ IH]; intros items0;
    [apply runs_nil|].
  cbn [flat_map]. rewrite itemsAfter_app.
  eapply runs_app; [apply (runs_propfind_response _ _ r); assumption|].
  eapply runs_app; [now apply runs_propfind_gap|].
  apply IH.
Qed.

End PropfindBody.

Lemma propfind_over_multistatus doc toks :
  multistatusTokens doc toks ->
  Xml.readerLoop propfindIteration propfindFinish
    (Datatypes.S (length toks)) {| items := ∅; curElement := [] |}
    (Xml.mkReader toks)
  = Some [result (propfindItems doc)].
Proof.
  intros Htoks.
  destruct Htoks as [doc g0 g1 g2 toks Hg0 Hg1 Hg2 Hseq].
  match goal with
  | |- Xml.readerLoop _ _ _ _ (Xml.mkReader ?all) = _ =>
      replace all with
        (([Xml.StartDocument] ++ g0
          ++ [Xml.StartElement DAV "multistatus"] ++ g1
          ++ toks
          ++ [Xml.EndElement DAV "multistatus"] ++ g2)
         ++ [Xml.EndDocument])%list
        by (now rewrite <- !app_assoc)
  end.
  rewrite readerLoop_document
    with (st' := {| items := propfindItems doc; curElement := [] |}).
  - reflexivity.
  - apply propfindIteration_progresses.
  - eapply runs_app; [now apply runs_propfind_other|].
    eapply runs_app; [now apply runs_propfind_gap|].
    eapply runs_app; [now apply runs_propfind_start|].
    eapply runs_app; [now apply runs_propfind_gap|].
    eapply runs_app;
      [apply (runs_propfind_responses doc); [exact Hseq|]; reflexivity|].
    eapply runs_app; [apply runs_propfind_pop|].
    now apply runs_propfind_gap.
  - intros c Hc. unfold propfindIteration.
    rewrite readNext_live by exact Hc. reflexivity.
Qed.

(** X6. On a multistatus body [PropfindJob::finished] reports the
    properties of every propstat block of every response, whatever the
    status of the block: each under its local name, with the character data
    directly inside the element, and of two properties of one name the later
    one. *)
Theorem propfind_reads_every_block
    (tokens : list Xml.token) (doc : list Response) :
  multistatusTokens doc tokens ->
  PropfindJob_finished 207 tokens = Some [result (propfindItems doc)].
Proof.
  intros Htoks. unfold PropfindJob_finished. cbn [Z.eqb Pos.eqb].
  now apply propfind_over_multistatus.
Qed.

Lemma propfind_reads_every_block_sample :
  PropfindJob_finishedOn 207 sampleBodyText
  = Some [result
            (<["resourcetype" := ""]>
               (<["getcontentlength" := ""]>
                  (<["size" := "12"]>
                     (<["resourcetype" := ""]>
                        (<["getetag" := "abc"]> ∅)))))].
Proof.
  unfold PropfindJob_finishedOn. rewrite sampleBodyText_tokenize.
  exact (propfind_reads_every_block
           (tokensOfMultistatus [Xml.Characters " "] sampleBody) sampleBody
           sampleBodyText_tokens).
Defined.

Lemma propfindIteration_advances st r st' r' :
  propfindIteration st r = inl (st', r') -> advances r r'.
Proof.
  unfold propfindIteration. cbv zeta.
  set (r0 := Xml.readNext r).
  destruct (Xml.isStartElement (Xml.cur r0)).
  - destruct (curElement st) as [|top below].
    + intros [= _ <-]. apply advances_readNext, advances_refl.
    + destruct (String.eqb top "prop").
      * destruct (Xml.readElementText _ r0) as [text r1] eqn:E.
        intros [= _ <-]. apply advances_readNext.
        apply (advances_readElementText Xml.SkipChildElements).
        fold r0. rewrite E. apply advances_refl.
      * intros [= _ <-]. apply advances_readNext, advances_refl.
  - intros [= _ <-]. apply advances_readNext, advances_refl.
Qed.

Lemma propfindIteration_never_returns st r x :
  propfindIteration st r = inr x -> False.
Proof.
  unfold propfindIteration. cbv zeta.
  destruct (if Xml.isStartElement _ then _ else _). discriminate.
Qed.

Lemma propfind_over_broken_body tokens :
  breaksOff tokens = true ->
  Xml.readerLoop propfindIteration propfindFinish
    (Datatypes.S (length tokens)) {| items := ∅; curElement := [] |}
    (Xml.mkReader tokens)
  = Some [propfindFinishedWithError].
Proof.
  intros Hb.
  destruct (readerLoop_total propfindIteration propfindFinish
              propfindIteration_progresses (Datatypes.S (length tokens))
              {| items := ∅; curElement := [] |} (Xml.mkReader tokens))
    as [out Hout]; [cbn; lia|].
  rewrite Hout. f_equal. revert Hout.
  apply readerLoop_invariant
    with (inv := fun _ r => brokenOff r = true)
         (post := fun out => out = [propfindFinishedWithError]).
  - intros st r st' r' _ Hr Hi.
    apply propfindIteration_advances in Hi.
    now apply (advances_brokenOff r r').
  - intros st r x _ _ Hi. now apply propfindIteration_never_returns in Hi.
  - intros st r Hend Hr. unfold propfindFinish.
    now rewrite (brokenOff_atEnd r Hr Hend).
  - now apply mkReader_brokenOff.
Qed.

(** Every completion gives one signal. *)
Lemma PropfindJob_finished_signal code body :
  PropfindJob_finished code body = Some [propfindFinishedWithError]
  \/ exists items0, PropfindJob_finished code body = Some [result items0].
Proof.
  destruct (PropfindJob_finished_returns code body) as [signals Hs].
  rewrite Hs. revert Hs. unfold PropfindJob_finished.
  destruct (code =? 207)%Z; [|intros [= <-]; now left].
  cbv zeta.
  apply readerLoop_invariant
    with (inv := fun _ _ => True)
         (post := fun out =>
                    Some out = Some [propfindFinishedWithError]
                    \/ exists items0, Some out = Some [result items0]).
  - trivial.
  - intros st r x _ _ Hi. now apply propfindIteration_never_returns in Hi.
  - intros st r _ _. unfold propfindFinish.
    destruct (Xml.hasError r); [now left|right; now eexists].
  - exact I.
Qed.

(** X7. A reply whose body is no whole XML document gives no result:
    [PropfindJob::finished] emits [finishedWithError] and nothing else,
    whatever it has read before the reader came to the error. *)
Theorem propfind_of_broken_body_fails (tokens : list Xml.token) :
  breaksOff tokens = true ->
  PropfindJob_finished 207 tokens = Some [propfindFinishedWithError].
Proof.
  intros Hb. unfold PropfindJob_finished. cbn [Z.eqb Pos.eqb].
  now apply propfind_over_broken_body.
Qed.

Lemma propfind_of_broken_body_sample :
  PropfindJob_finishedOn 207 truncatedBody
  = Some [propfindFinishedWithError].
Proof.
  exact (propfind_of_broken_body_fails
           (default [] (Xml.tokenize extraNamespaces truncatedBody))
           eq_refl).
Defined.

(** ** The content of an element as a string *)

(** X8. Called on the start tag of an element, [readContentsAsString]
    returns the content of the element written back as text, child elements
    by their local names without prefix and attributes, character data as
    it is, comments and processing instructions left out, and leaves the
    reader on the end tag of the element.  When the tokens end inside the
    element it returns what it has read and leaves the reader in an
    error. *)
Theorem readContentsAsString_writes_content_back
    (ns name : string) (content : list node) (rest : list Xml.token) :
  readContentsAsString
    (Xml.Reader (Xml.StartElement ns name)
       (tokensOfNodes content ++ Xml.EndElement ns name :: rest)%list)
  = (contentOfNodes content, Xml.Reader (Xml.EndElement ns name) rest)
  /\ readContentsAsString
       (Xml.Reader (Xml.StartElement ns name) (tokensOfNodes content))
     = (contentOfNodes content, Xml.Reader Xml.Invalid []).
Proof.
  split; [apply readContentsAsString_property|].
  unfold readContentsAsString. cbn [Xml.cur Xml.rest].
  rewrite <- (app_nil_r (tokensOfNodes content)).
  rewrite readContents_nodes by lia. reflexivity.
Qed.

(** ** Server discovery: what a completion leaves behind *)

(** X9. Whatever branch a completion of the discovery takes, it updates
    what the account holds for the SSL button from the reply, field by
    field: the certificate chain, the session cipher and the session ticket
    of the account become the ones of the reply where the reply has one,
    and stay as they were where the chain of the reply is empty, its cipher
    null or its ticket empty.  So nothing the account holds is cleared; the
    URL of the account is left alone. *)
Theorem discovery_keeps_ssl_data (job : CheckServerJob)
    (reply : CheckServerReply) :
  let account := jobAccount job in
  let config := replySslConfiguration reply in
  let account' := jobAccount (fst (fst (CheckServerJob_finished job reply))) in
  accountUrl account' = accountUrl account
  /\ (peerCertificateChain config <> [] ->
      account_peerCertificateChain account' = peerCertificateChain config)
  /\ (peerCertificateChain config = [] ->
      account_peerCertificateChain account'
      = account_peerCertificateChain account)
  /\ (forall cipher, sessionCipher config = Some cipher ->
      account_sessionCipher account' = Some cipher)
  /\ (sessionCipher config = None ->
      account_sessionCipher account' = account_sessionCipher account)
  /\ (sessionTicket config <> EmptyString ->
      account_sessionTicket account' = sessionTicket config)
  /\ (sessionTicket config = EmptyString ->
      account_sessionTicket account' = account_sessionTicket account)
  /\ (account_peerCertificateChain account <> [] ->
      account_peerCertificateChain account' <> [])
  /\ (account_sessionCipher account <> None ->
      account_sessionCipher account' <> None)
  /\ (account_sessionTicket account <> EmptyString ->
      account_sessionTicket account' <> EmptyString).
Proof.
  cbv zeta.
  assert (H : jobAccount (fst (fst (CheckServerJob_finished job reply)))
              = mergeSslConfigurationForSslButton
                  (replySslConfiguration reply) (jobAccount job)).
  { unfold CheckServerJob_finished. cbv zeta.
    destruct (isContentNotFound _ && negb _); [reflexivity|].
    destruct (isTooManyRedirects _); [reflexivity|].
    destruct (QStr.isEmpty _ || negb _); [reflexivity|].
    destruct (Json.contains _ _); reflexivity. }
  rewrite H. unfold mergeSslConfigurationForSslButton.
  cbn [accountUrl account_peerCertificateChain account_sessionCipher
       account_sessionTicket].
  destruct (peerCertificateChain (replySslConfiguration reply))
    as [|cert chain];
    destruct (sessionCipher (replySslConfiguration reply)) as [cipher0|];
    destruct (sessionTicket (replySslConfiguration reply)) as [|c ticket];
    cbn [length String.length Nat.ltb Nat.leb];
    repeat split; try congruence; try (intros; assumption).
Qed.

(** X10. A completion of the discovery either starts the fallback request
    and reports no outcome, or ends the job and reports exactly one:
    [instanceFound] or [instanceNotFound].  The completion after one that
    started the fallback request ends the job. *)
Theorem discovery_reports_one_outcome (job : CheckServerJob)
    (reply : CheckServerReply) :
  let '(job', events, finished) := CheckServerJob_finished job reply in
  (if finished
   then length (filter isOutcome events) = 1%nat
        /\ filter isRequestSent events = []
   else filter isOutcome events = []
        /\ length (filter isRequestSent events) = 1%nat)
  /\ (finished = false ->
      forall reply', snd (CheckServerJob_finished job' reply') = true).
Proof.
  unfold CheckServerJob_finished. cbv zeta.
  set (redirect := if negb (urlEqb _ _) then _ else _).
  assert (Hr1 : filter isOutcome redirect = [])
    by (unfold redirect; destruct (negb _); reflexivity).
  assert (Hr2 : filter isRequestSent redirect = [])
    by (unfold redirect; destruct (negb _); reflexivity).
  destruct (isContentNotFound (replyError reply) && negb _) eqn:Eretry.
  - cbn [CheckServerJob_start].
    rewrite !filter_app, Hr1, Hr2. cbn.
    split; [split; reflexivity|]. intros _ reply'.
    cbn [subdirFallback negb]. rewrite andb_false_r.
    destruct (isTooManyRedirects _); [reflexivity|].
    destruct (QStr.isEmpty _ || negb _); [reflexivity|].
    destruct (Json.contains _ _); reflexivity.
  - destruct (isTooManyRedirects _);
      [|destruct (QStr.isEmpty _ || negb _);
        [|destruct (Json.contains _ _)]];
      rewrite !filter_app, Hr1, Hr2; cbn;
      (split; [split; reflexivity|discriminate]).
Qed.

(** ** fetchPrivateLinkUrl *)

Lemma fetchPrivateLinkUrl_calls_result items0 :
  fetchPrivateLinkUrl_calls [result items0]
  = match items0 !! "privatelink" with
    | Some (String c url) => [String c url]
    | _ => []
    end.
Proof.
  unfold fetchPrivateLinkUrl_calls, fetchPrivateLinkUrl_result.
  cbn [flat_map]. rewrite app_nil_r.
  destruct (items0 !! "privatelink") as [[|c url]|]; reflexivity.
Qed.

(** X12. Whatever the reply to the request of [fetchPrivateLinkUrl] is,
    the target function is called at most once and never with an empty
    URL; it is not called when the status is not 207 or the body is no
    whole XML document, and on a multistatus body it is called with the
    character data of the last [privatelink] property, of whatever block
    and status, when that is not empty.  The [fileid] is not used. *)
Theorem fetchPrivateLinkUrl_calls_target
    (code : Z) (body : list Xml.token) :
  exists signals,
    PropfindJob_finished code body = Some signals
    /\ (length (fetchPrivateLinkUrl_calls signals) <= 1)%nat
    /\ ~ In EmptyString (fetchPrivateLinkUrl_calls signals)
    /\ (code <> 207%Z -> fetchPrivateLinkUrl_calls signals = [])
    /\ (code = 207%Z ->
        breaksOff body = true ->
        fetchPrivateLinkUrl_calls signals = [])
    /\ (code = 207%Z ->
        forall doc,
          multistatusTokens doc body ->
          fetchPrivateLinkUrl_calls signals
          = match propfindItems doc !! "privatelink" with
            | Some (String c url) => [String c url]
            | _ => []
            end).
Proof.
  destruct (PropfindJob_finished_returns code body) as [signals Hs].
  exists signals. split; [exact Hs|].
  assert (Hshape : signals = [propfindFinishedWithError]
                   \/ exists items0, signals = [result items0]).
  { destruct (PropfindJob_finished_signal code body) as [H|[items0 H]];
      rewrite H in Hs; injection Hs as <-; [now left|right; now eexists]. }
  repeat split.
  - destruct Hshape as [->|[items0 ->]]; [cbn; lia|].
    rewrite fetchPrivateLinkUrl_calls_result.
    destruct (items0 !! "privatelink") as [[|c url]|]; cbn; lia.
  - destruct Hshape as [->|[items0 ->]]; [intros []|].
    rewrite fetchPrivateLinkUrl_calls_result.
    destruct (items0 !! "privatelink") as [[|c url]|]; cbn;
      intros H; try exact H. destruct H as [H|[]]. discriminate.
  - intros Hcode. revert Hs. unfold PropfindJob_finished.
    destruct (Z.eqb_spec code 207); [contradiction|]. now intros [= <-].
  - intros -> Hb. revert Hs. unfold PropfindJob_finished.
    cbn [Z.eqb Pos.eqb].
    rewrite (propfind_over_broken_body _ Hb). now intros [= <-].
  - intros -> doc Hdoc. revert Hs. unfold PropfindJob_finished.
    cbn [Z.eqb Pos.eqb].
    rewrite (propfind_over_multistatus doc _ Hdoc). intros [= <-].
    apply fetchPrivateLinkUrl_calls_result.
Qed.

Lemma fetchPrivateLinkUrl_calls_target_sample :
  Xml.tokenize extraNamespaces privateLinkBody
  = Some (tokensOfMultistatus [] privateLinkDocument)
  /\ option_map fetchPrivateLinkUrl_calls
       (PropfindJob_finished 207 (tokensOfMultistatus [] privateLinkDocument))
     = Some ["https://cloud.example/f/42"].
Proof.
  split; [vm_compute; reflexivity|].
  destruct (fetchPrivateLinkUrl_calls_target 207
              (tokensOfMultistatus [] privateLinkDocument))
    as (signals & Hs & _ & _ & _ & _ & Hdoc).
  rewrite Hs. cbn [option_map]. f_equal.
  rewrite (Hdoc eq_refl privateLinkDocument); [reflexivity|].
  now apply tokensOfMultistatus_tokens.
Defined.

(** ** The keys of properties *)

(** X11. Cutting the key of a property at its last colon loses nothing:
    the namespace, the colon and the name make up the key again, and the
    name has no colon.  A key without a colon is a name without a
    namespace. *)
Theorem key_is_namespace_colon_name (key : string) :
  (if QStr.containsChar key ":"
   then keyNsOf key ++ ":" ++ keyNameOf key = key
   else keyNsOf key = EmptyString /\ keyNameOf key = key)
  /\ QStr.containsChar (keyNameOf key) ":" = false.
Proof.
  unfold QStr.containsChar, keyNsOf, keyNameOf.
  induction key as [|a key IH]; [now split|].
  cbn [QStr.lastIndexOfChar].
  destruct (QStr.lastIndexOfChar ":" key) as [i|] eqn:E.
  - cbv iota beta in IH |- *. destruct IH as [IH1 IH2].
    change (QStr.midFrom (Datatypes.S i + 1) (String a key))
      with (QStr.midFrom (i + 1) key).
    split; [|exact IH2]. cbn [QStr.left String.append]. f_equal. exact IH1.
  - destruct (Ascii.eqb_spec a ":") as [->|Hne]; cbv iota beta.
    + change (QStr.midFrom (0 + 1) (String ":" key)) with key.
      rewrite E. now split.
    + cbn [QStr.lastIndexOfChar]. rewrite E.
      destruct (Ascii.eqb_spec a ":"); [contradiction|]. now split.
Qed.

(** ** The status code of a reply of the OCS API *)

Lemma startsWith_app_ignore p : forall x z,
  (String.length p <= String.length x)%nat ->
  QStr.startsWith (x ++ z) p = QStr.startsWith x p.
Proof.
  induction p as [|a p IH]; intros x z H; [now rewrite !startsWith_empty|].
  destruct x as [|b x]; cbn in H; [lia|].
  cbn. rewrite IH by lia. reflexivity.
Qed.

Lemma startsWith_app_self p z : QStr.startsWith (p ++ z) p = true.
Proof.
  induction p as [|a p IH]; [apply startsWith_empty|].
  cbn. now rewrite Ascii.eqb_refl.
Qed.

Lemma midFrom_app_length p z : QStr.midFrom (String.length p) (p ++ z) = z.
Proof. induction p as [|a p IH]; [now destruct z|exact IH]. Qed.

Lemma left_midFrom k : forall s, QStr.left k s ++ QStr.midFrom k s = s.
Proof.
  induction k as [|k IH]; intros s; [reflexivity|].
  destruct s as [|c s]; [reflexivity|]. cbn. now rewrite IH.
Qed.

Lemma length_left k : forall s,
  (k <= String.length s)%nat -> String.length (QStr.left k s) = k.
Proof.
  induction k as [|k IH]; intros s H; [reflexivity|].
  destruct s as [|c s]; cbn in H; [lia|]. cbn. rewrite IH by lia. reflexivity.
Qed.

Lemma span_digits ds : forall r,
  forallChars QStr.isDigit ds = true ->
  stops QStr.isDigit r = true ->
  Xml.span QStr.isDigit (ds ++ r) = (ds, r).
Proof.
  induction ds as [|c ds IH]; intros r Hd Hr.
  - destruct r as [|c r]; [reflexivity|]. cbn in Hr. cbn.
    apply negb_true_iff in Hr. now rewrite Hr.
  - cbn in Hd. apply andb_true_iff in Hd as [Hc Hd].
    cbn. rewrite Hc, IH by assumption. reflexivity.
Qed.

Lemma matchHere_at before after ds post :
  forallChars QStr.isDigit ds = true -> QStr.isEmpty ds = false ->
  stops QStr.isDigit (after ++ post) = true ->
  matchHere before after (before ++ ds ++ after ++ post) = Some ds.
Proof.
  intros Hd Hne Hstop. unfold matchHere.
  rewrite startsWith_app_self, midFrom_app_length, span_digits by assumption.
  now rewrite Hne, startsWith_app_self.
Qed.

Lemma firstMatch_at before after ds post :
  forallChars QStr.isDigit ds = true -> QStr.isEmpty ds = false ->
  stops QStr.isDigit (after ++ post) = true ->
  firstMatch before after (before ++ ds ++ after ++ post) = Some ds.
Proof.
  intros Hd Hne Hstop.
  pose proof (matchHere_at before after ds post Hd Hne Hstop) as H.
  destruct (before ++ ds ++ after ++ post); cbn [firstMatch]; now rewrite H.
Qed.

(** No match starts where [before] does not stand. *)
Lemma firstMatch_skip before after rest : forall pre,
  QStr.contains (pre ++ QStr.left (String.length before - 1) before) before
  = false ->
  QStr.isEmpty before = false ->
  firstMatch before after (pre ++ before ++ rest)
  = firstMatch before after (before ++ rest).
Proof.
  intros pre Hc Hne. induction pre as [|c pre IH]; [reflexivity|].
  cbn [String.append QStr.contains] in Hc.
  apply orb_false_iff in Hc as [Hhere Hc].
  change (String c pre ++ before ++ rest)
    with (String c (pre ++ before ++ rest)).
  cbn [firstMatch]. unfold matchHere at 1.
  assert (Hs : QStr.startsWith (String c (pre ++ before ++ rest)) before
               = false).
  { rewrite <- Hhere.
    rewrite <- (left_midFrom (String.length before - 1) before) at 1.
    change (String c (pre ++ ?x)) with (String c pre ++ x).
    rewrite !append_assoc, <- (append_assoc (String c pre)).
    apply startsWith_app_ignore.
    rewrite length_append, length_left by lia. cbn [String.length].
    destruct before; [discriminate|]. cbn [String.length]. lia. }
  rewrite Hs. now apply IH.
Qed.

Lemma digitsValue_digits s : forall seen acc,
  forallChars QStr.isDigit s = true ->
  seen || negb (QStr.isEmpty s) = true ->
  QStr.digitsValue seen acc s = Some (decimalGo acc s).
Proof.
  induction s as [|c s IH]; intros seen acc Hd Hs.
  - cbn in Hs. rewrite orb_false_r in Hs. now subst seen.
  - cbn in Hd. apply andb_true_iff in Hd as [Hc Hd].
    cbn [QStr.digitsValue decimalGo]. rewrite Hc. now apply IH.
Qed.

Lemma decimalGo_nonneg s : forall acc, (0 <= acc)%Z -> (0 <= decimalGo acc s)%Z.
Proof.
  induction s as [|c s IH]; intros acc H; [exact H|].
  cbn. apply IH. lia.
Qed.

Lemma isDigit_not_space c : QStr.isDigit c = true -> QStr.isSpace c = false.
Proof.
  unfold QStr.isDigit, QStr.isSpace. intros H.
  apply andb_true_iff in H as [H1 H2].
  apply Nat.leb_le in H1. apply Nat.leb_le in H2.
  apply orb_false_iff. split; [apply Nat.eqb_neq; lia|].
  apply andb_false_iff. right. apply Nat.leb_gt. lia.
Qed.

Lemma toLongLong_digits s :
  forallChars QStr.isDigit s = true -> QStr.isEmpty s = false ->
  QStr.toLongLong s
  = if (decimalValue s <? 2 ^ 63)%Z then Some (decimalValue s) else None.
Proof.
  intros Hd Hne. destruct s as [|c s]; [discriminate|].
  pose proof Hd as Hd'. cbn in Hd'. apply andb_true_iff in Hd' as [Hc _].
  unfold QStr.toLongLong. cbn [QStr.skipSpace].
  rewrite (isDigit_not_space c Hc).
  assert (Hm : Ascii.eqb c "-" = false).
  { apply Ascii.eqb_neq. intros ->. discriminate. }
  assert (Hp : Ascii.eqb c "+" = false).
  { apply Ascii.eqb_neq. intros ->. discriminate. }
  rewrite Hm, Hp, (digitsValue_digits (String c s)) by (assumption || reflexivity).
  fold (decimalValue (String c s)).
  pose proof (decimalGo_nonneg (String c s) 0 ltac:(lia)) as Hn.
  fold (decimalValue (String c s)) in Hn.
  replace (- 2 ^ 63 <=? decimalValue (String c s))%Z with true
    by (symmetry; apply Z.leb_le; lia).
  reflexivity.
Qed.

Lemma toInt_digits s :
  forallChars QStr.isDigit s = true -> QStr.isEmpty s = false ->
  toInt s = if (decimalValue s <? 2 ^ 31)%Z then decimalValue s else 0%Z.
Proof.
  intros Hd Hne. unfold toInt. rewrite toLongLong_digits by assumption.
  pose proof (decimalGo_nonneg s 0 ltac:(lia)) as Hn.
  fold (decimalValue s) in Hn.
  destruct (decimalValue s <? 2 ^ 63)%Z eqn:E63;
    destruct (decimalValue s <? 2 ^ 31)%Z eqn:E31; try reflexivity.
  - replace (- 2 ^ 31 <=? decimalValue s)%Z with true
      by (symmetry; apply Z.leb_le; lia).
    reflexivity.
  - replace (- 2 ^ 31 <=? decimalValue s)%Z with true
      by (symmetry; apply Z.leb_le; lia).
    reflexivity.
  - apply Z.ltb_lt in E31. apply Z.ltb_ge in E63. lia.
Qed.

(** X13. From a reply without a network error whose body is no XML and
    has its first [statuscode] key followed by digits and a comma,
    [JsonApiJob::finished] reports the number the digits spell as the status
    code, or 0 when it does not fit an [int], together with the document
    [fromJson] makes of the whole body. *)
Theorem JsonApiJob_reads_status_code (pre ds post : string) :
  let body := pre ++ statuscodeKey ++ ds ++ "," ++ post in
  QStr.contains body xmlDeclaration = false ->
  QStr.contains (pre ++ QStr.left 12 statuscodeKey) statuscodeKey = false ->
  forallChars QStr.isDigit ds = true -> QStr.isEmpty ds = false ->
  JsonApiJob_finished NoError body
  = [jsonReceived (Json.fromJson body)
       (if (decimalValue ds <? 2 ^ 31)%Z then decimalValue ds else 0%Z)].
Proof.
  cbv zeta. intros Hxml Hfirst Hd Hne. unfold JsonApiJob_finished.
  cbn [isNoError negb]. cbv zeta. rewrite Hxml.
  rewrite firstMatch_skip by (exact Hfirst || reflexivity).
  rewrite firstMatch_at by (assumption || reflexivity).
  now rewrite toInt_digits.
Qed.

Lemma JsonApiJob_reads_status_code_sample :
  (exists json,
     JsonApiJob_finished NoError
       (ocsBody ++ statuscodeKey ++ "100" ++ "," ++ ocsRest)
     = [jsonReceived (Some json) 100%Z])
  /\ exists json,
       JsonApiJob_finished NoError
         (ocsBody ++ statuscodeKey ++ "4294967396" ++ "," ++ ocsRest)
       = [jsonReceived (Some json) 0%Z].
Proof.
  split.
  - rewrite (JsonApiJob_reads_status_code ocsBody "100" ocsRest
               eq_refl eq_refl eq_refl eq_refl).
    destruct (Json.fromJson _) as [json|] eqn:E; [|vm_compute in E; discriminate].
    now exists json.
  - rewrite (JsonApiJob_reads_status_code ocsBody "4294967396" ocsRest
               eq_refl eq_refl eq_refl eq_refl).
    destruct (Json.fromJson _) as [json|] eqn:E; [|vm_compute in E; discriminate].
    now exists json.
Defined.

Lemma matchHere_digits before after s ds :
  matchHere before after s = Some ds ->
  forallChars QStr.isDigit ds = true /\ QStr.isEmpty ds = false.
Proof.
  unfold matchHere. destruct (QStr.startsWith s before); [|discriminate].
  generalize (QStr.midFrom (String.length before) s) as t. intros t.
  destruct (Xml.span QStr.isDigit t) as [ds' r] eqn:E.
  destruct (negb (QStr.isEmpty ds')) eqn:Hne; [|discriminate]. cbn [andb].
  destruct (QStr.startsWith r after); [|discriminate].
  intros [= <-]. split; [|now apply negb_true_iff in Hne].
  clear Hne. revert ds' r E.
  induction t as [|c t IH]; intros ds' r E; cbn in E.
  - now injection E as <- <-.
  - destruct (QStr.isDigit c) eqn:Hc.
    + destruct (Xml.span QStr.isDigit t) as [a b]. injection E as <- <-.
      cbn. rewrite Hc. now apply (IH a b).
    + now injection E as <- <-.
Qed.

Lemma firstMatch_digits before after s : forall ds,
  firstMatch before after s = Some ds ->
  forallChars QStr.isDigit ds = true /\ QStr.isEmpty ds = false.
Proof.
  induction s as [|c s IH]; intros ds H; cbn [firstMatch] in H;
    destruct (matchHere before after _) as [ds'|] eqn:E.
  - injection H as <-. now apply matchHere_digits in E.
  - discriminate.
  - injection H as <-. now apply matchHere_digits in E.
  - now apply IH.
Qed.

(** X14. The status code [JsonApiJob::finished] reports is never negative
    and fits an [int]; after a network error it is 0 and the document is the
    null document, whatever the body is, and without one the document is
    what [fromJson] makes of the body, also when the body is no JSON. *)
Theorem JsonApiJob_status_code_range (error : NetworkError) (body : string) :
  exists json statusCode,
    JsonApiJob_finished error body = [jsonReceived json statusCode]
    /\ (0 <= statusCode < 2 ^ 31)%Z
    /\ (error <> NoError -> json = None /\ statusCode = 0%Z)
    /\ (error = NoError -> json = Json.fromJson body).
Proof.
  assert (Hrange : forall cap,
            match cap with
            | Some ds =>
                forallChars QStr.isDigit ds = true /\ QStr.isEmpty ds = false
            | None => True
            end ->
            (0 <= match cap with Some ds => toInt ds | None => 0 end
             < 2 ^ 31)%Z).
  { intros [ds|] H; [|lia]. destruct H as [Hd Hne].
    rewrite toInt_digits by assumption.
    pose proof (decimalGo_nonneg ds 0 ltac:(lia)) as Hn.
    fold (decimalValue ds) in Hn.
    destruct (decimalValue ds <? 2 ^ 31)%Z eqn:E; [|lia].
    apply Z.ltb_lt in E. lia. }
  unfold JsonApiJob_finished. cbv zeta.
  destruct error; cbn [isNoError negb];
    try (eexists _, _; split; [reflexivity|];
         split; [lia|]; split; [now intros _|discriminate]).
  eexists _, _. split; [reflexivity|].
  split; [|split; [now intros []|reflexivity]].
  destruct (QStr.contains body xmlDeclaration).
  - apply Hrange.
    destruct (firstMatch _ _ body) as [ds|] eqn:E; [|exact I].
    now apply firstMatch_digits in E.
  - apply Hrange.
    destruct (firstMatch _ _ body) as [ds|] eqn:E; [|exact I].
    now apply firstMatch_digits in E.
Qed.

(** ** The URL a discovery reports *)

Lemma replaceGo_skip before after : forall s k,
  (String.length s <= k)%nat ->
  QStr.replaceGo before after k s = EmptyString.
Proof.
  induction s as [|c s IH]; intros k H; [reflexivity|].
  cbn in H. destruct k as [|k]; [lia|]. cbn. apply IH. lia.
Qed.

Lemma replace_at_end before : forall base,
  QStr.isEmpty before = false ->
  QStr.contains (base ++ QStr.left (String.length before - 1) before) before
  = false ->
  QStr.replace before EmptyString (base ++ before) = base.
Proof.
  intros base Hne. unfold QStr.replace.
  induction base as [|c base IH]; intros Hc.
  - destruct before as [|b before]; [discriminate|].
    cbn [String.append QStr.replaceGo].
    rewrite <- (append_empty_r (String b before)) at 1.
    rewrite startsWith_app_self. cbn [String.append].
    apply replaceGo_skip. cbn. lia.
  - cbn [String.append QStr.contains] in Hc.
    apply orb_false_iff in Hc as [Hhere Hc].
    change (String c base ++ before) with (String c (base ++ before)).
    cbn [QStr.replaceGo].
    assert (Hs : QStr.startsWith (String c (base ++ before)) before = false).
    { rewrite <- Hhere.
      rewrite <- (left_midFrom (String.length before - 1) before) at 1.
      change (String c (base ++ ?x)) with (String c base ++ x).
      rewrite <- (append_assoc (String c base)).
      apply startsWith_app_ignore.
      rewrite length_append, length_left by lia. cbn [String.length].
      destruct before; [discriminate|]. cbn [String.length]. lia. }
    rewrite Hs. f_equal. now apply IH.
Qed.

(** X15. For a reply from an absolute URL whose path is a base path
    followed by [/status.php], the URL the discovery works with is that URL
    with the base path: it is the URL an [instanceFound] carries, and a
    [redirectDetected] from the URL of the server to it is emitted exactly
    when the two differ. *)
Theorem discovery_target_is_reply_url_without_status_php
    (job : CheckServerJob) (reply : CheckServerReply) (base : string) :
  isRelative (replyUrl reply) = false ->
  urlPath (replyUrl reply) = base ++ "/status.php" ->
  QStr.contains (base ++ "/status.ph") "/status.php" = false ->
  let target := setPath (replyUrl reply) base in
  let events := snd (fst (CheckServerJob_finished job reply)) in
  filter isRedirectDetected events
  = (if urlEqb (serverUrl job) target then []
     else [redirectDetected (serverUrl job) target])
  /\ forall url info, In (instanceFound url info) events -> url = target.
Proof.
  intros Habs Hpath Hbase. cbv zeta.
  unfold CheckServerJob_finished. cbv zeta. rewrite Habs, Hpath.
  rewrite (replace_at_end "/status.php" base eq_refl Hbase).
  set (target := setPath (replyUrl reply) base).
  destruct (urlEqb (serverUrl job) target); cbn [negb];
    (destruct (isContentNotFound _ && negb _);
     [|destruct (isTooManyRedirects _);
       [|destruct (QStr.isEmpty _ || negb _);
         [|destruct (Json.contains _ _)]]]);
    cbn; (split; [reflexivity|]); intros url info H;
    repeat (destruct H as [H|H]; try discriminate; try now injection H);
    contradiction.
Qed.

Lemma discovery_target_sample :
  filter isRedirectDetected
    (snd (fst (CheckServerJob_finished startedJob movedReply)))
  = [redirectDetected plainUrl (setPath (replyUrl movedReply) "/cloud")]
  /\ forall url info,
       In (instanceFound url info)
         (snd (fst (CheckServerJob_finished startedJob movedReply))) ->
       url = setPath (replyUrl movedReply) "/cloud".
Proof.
  exact (discovery_target_is_reply_url_without_status_php
           startedJob movedReply "/cloud" eq_refl eq_refl eq_refl).
Defined.
